(** * bench_core: a shallow embedding of the load-generation engine

    The Python module [bench_core.py] is embedded function by function,
    in the order of the source.  Conventions used throughout:

    - Python [float] values (latencies, throughputs, quantiles, rates) are
      exact rationals [Q]; the rounding error of binary floating point is
      outside the model.  What is stated of a float below is either a
      formula over the reals, or a comparison or a choice of index that
      rounding to nearest, which is monotone, cannot change; where
      rounding can change the outcome (the item that [percentile] picks
      for an arbitrary quantile, the mean against the largest latency,
      the number of requests that fit in a duration), nothing is stated.
    - Python [int] values are [Z], or [nat] for a length or a counter
      that only grows; [int(x)] on a float is truncation toward zero.
    - A Python [str] is a [string] of code points below 256; [bytes] are
      [list byte].
    - An [await]-ed operation is described by what the environment makes
      of it ([Asyncio.awaited]); the cooperative scheduler is a transition
      system whose steps are the atomic sections between two [await]s,
      driven by a list of events chosen by the environment.
    - [print] calls have no effect on any returned value and are left out. *)

From Stdlib Require Import ZArith QArith Qround Qminmax Lqa String Ascii.
From Stdlib.Strings Require Import Byte.
From stdpp Require Import base decidable list sorting gmap.

Local Open Scope Z_scope.

(** ** Numbers *)

(** [int(x)] for a float [x]: truncation toward zero. *)
Definition Qtrunc (x : Q) : Z := Z.quot (Qnum x) (Zpos (Qden x)).

(** [x < y] on floats. *)
Definition Qltb (x y : Q) : bool := negb (Qle_bool y x).

(** The builtin [max(a, b)] on floats: the first argument is kept
    unless the second is strictly larger. *)
Definition py_max (a b : Q) : Q := if Qltb a b then b else a.

Global Instance Qle_dec (x y : Q) : Decision (x <= y)%Q :=
  decide (Qnum x * QDen y <= Qnum y * QDen x)%Z.

Global Instance Qle_total : Total Qle.
Proof.
  intros x y. destruct (Qlt_le_dec x y) as [H|H]; [left|right]; trivial.
  now apply Qlt_le_weak.
Qed.

Global Instance Qle_transitive : Transitive Qle := Qle_trans.

(** [sorted(values)] and [values.sort()] on floats. *)
Definition sorted (values : list Q) : list Q := merge_sort Qle values.

(** [sum(values)] on floats. *)
Definition Qsum (values : list Q) : Q := foldr Qplus 0%Q values.

(** [l[i]] for an index in range; the callers below never leave the
    range, where Python would raise [IndexError]. *)
Definition item (l : list Q) (i : nat) : Q := default 0%Q (l !! i).

(** ** Exceptions and effects *)

Inductive exn :=
  | ValueError (why : string)
  | UnicodeEncodeError
  | TimeoutError
  | OSError.

(** The result of code that returns or raises. *)
Inductive result (A : Type) :=
  | Ok (a : A)
  | Err (e : exn).
Arguments Ok {A} a.
Arguments Err {A} e.

(** What running a piece of code from a state [S] comes to: it returns
    a value, raises, awaits something that never happens, or was cut off
    by the fuel of the model (only a loop whose length the environment
    decides takes fuel). *)
Inductive run (S A : Type) :=
  | Value (a : A) (s : S)
  | Raised (e : exn) (s : S)
  | Hangs
  | OutOfFuel.
Arguments Value {S A} a s.
Arguments Raised {S A} e s.
Arguments Hangs {S A}.
Arguments OutOfFuel {S A}.

Definition M (S A : Type) : Type := S -> run S A.

Definition ret {S A} (a : A) : M S A := fun s => Value a s.

Definition bind {S A B} (m : M S A) (k : A -> M S B) : M S B :=
  fun s =>
    match m s with
    | Value a s' => k a s'
    | Raised e s' => Raised e s'
    | Hangs => Hangs
    | OutOfFuel => OutOfFuel
    end.

Definition raise {S A} (e : exn) : M S A := fun s => Raised e s.

Definition hang {S A} : M S A := fun _ => Hangs.

Definition lift {S A} (r : result A) : M S A :=
  match r with
  | Ok a => ret a
  | Err e => raise e
  end.

(** [try: m except Exception: h] *)
Definition try_except {S A} (m : M S A) (h : M S A) : M S A :=
  fun s =>
    match m s with
    | Raised _ s' => h s'
    | r => r
    end.

Declare Scope monad_scope.
Delimit Scope monad_scope with monad.
Notation "'let*' x := m 'in' k" := (bind m (fun x => k))
  (at level 10, x pattern, m at level 100, k at level 200) : monad_scope.
Notation "'do' m 'then' k" := (bind m (fun _ => k))
  (at level 10, m at level 100, k at level 200) : monad_scope.

(** [for _ in range(n): out.append(body)] *)
Fixpoint for_range {S A} (n : nat) (body : M S A) : M S (list A) :=
  match n with
  | O => ret []
  | Datatypes.S n' =>
    bind body (fun a => bind (for_range n' body) (fun rest => ret (a :: rest)))
  end.

(** [for x in xs: out.append(body(x))] *)
Fixpoint for_each {S A B} (xs : list A) (body : A -> M S B) : M S (list B) :=
  match xs with
  | [] => ret []
  | x :: xs' =>
    bind (body x) (fun b => bind (for_each xs' body) (fun rest => ret (b :: rest)))
  end.

(** ** urllib.parse: the part of [urlparse] that [build_http_get] reads *)

Module Url.

Local Open Scope string_scope.
Local Open Scope nat_scope.

Definition code (c : ascii) : nat := nat_of_ascii c.

Definition char_isascii (c : ascii) : bool := code c <? 128.
Definition char_isupper (c : ascii) : bool :=
  (65 <=? code c) && (code c <=? 90)
  || (192 <=? code c) && (code c <=? 222) && negb (code c =? 215).
Definition char_isalpha_ascii (c : ascii) : bool :=
  (65 <=? code c) && (code c <=? 90) || (97 <=? code c) && (code c <=? 122).
Definition char_isdigit_ascii (c : ascii) : bool := (48 <=? code c) && (code c <=? 57).

(** [str.lower], character by character. *)
Definition char_lower (c : ascii) : ascii :=
  if char_isupper c then ascii_of_nat (code c + 32) else c.

Fixpoint lower (s : string) : string :=
  match s with
  | EmptyString => EmptyString
  | String c s' => String (char_lower c) (lower s')
  end.

Fixpoint str_all (p : ascii -> bool) (s : string) : bool :=
  match s with
  | EmptyString => true
  | String c s' => p c && str_all p s'
  end.

(** [s.replace(c, "")] for every [c] rejected by [p]. *)
Fixpoint str_filter (p : ascii -> bool) (s : string) : string :=
  match s with
  | EmptyString => EmptyString
  | String c s' => if p c then String c (str_filter p s') else str_filter p s'
  end.

(** [c in s] *)
Fixpoint contains_char (c : ascii) (s : string) : bool :=
  match s with
  | EmptyString => false
  | String a s' => Ascii.eqb a c || contains_char c s'
  end.

(** [s.isascii()] *)
Definition isascii (s : string) : bool := str_all char_isascii s.

(** The truth value of a string: [s] is not empty. *)
Definition nonempty (s : string) : bool :=
  match s with EmptyString => false | _ => true end.

(** [s.lstrip(chars)] for a set of characters given as a predicate. *)
Fixpoint lstrip (p : ascii -> bool) (s : string) : string :=
  match s with
  | EmptyString => EmptyString
  | String c s' => if p c then lstrip p s' else s
  end.

(** [s.partition(c)]: the text before the first [c] and the text after
    it, or [None] when [c] does not occur (Python then returns
    [(s, '', '')]). *)
Fixpoint partition (c : ascii) (s : string) : option (string * string) :=
  match s with
  | EmptyString => None
  | String a s' =>
    if Ascii.eqb a c then Some (EmptyString, s')
    else match partition c s' with
         | Some (before, after) => Some (String a before, after)
         | None => None
         end
  end.

(** [s.rpartition(c)]: the same around the last [c] (Python returns
    [('', '', s)] when [c] does not occur). *)
Fixpoint rpartition (c : ascii) (s : string) : option (string * string) :=
  match s with
  | EmptyString => None
  | String a s' =>
    match rpartition c s' with
    | Some (before, after) => Some (String a before, after)
    | None => if Ascii.eqb a c then Some (EmptyString, s') else None
    end
  end.

(** The longest prefix without a character satisfying [p], and the rest. *)
Fixpoint break_at (p : ascii -> bool) (s : string) : string * string :=
  match s with
  | EmptyString => (EmptyString, EmptyString)
  | String a s' =>
    if p a then (EmptyString, s)
    else let '(before, rest) := break_at p s' in (String a before, rest)
  end.

(** [int(s)] for a string of ASCII digits. *)
Fixpoint int_of_digits (acc : Z) (s : string) : Z :=
  match s with
  | EmptyString => acc
  | String c s' => int_of_digits (10 * acc + Z.of_nat (code c - 48))%Z s'
  end.

(** [scheme_chars]: ASCII letters, digits and [+-.]. *)
Definition scheme_char (c : ascii) : bool :=
  char_isalpha_ascii c || char_isdigit_ascii c
  || Ascii.eqb c "+" || Ascii.eqb c "-" || Ascii.eqb c ".".

Definition uses_params : list string :=
  [""; "ftp"; "hdl"; "prospero"; "http"; "imap"; "https"; "shttp"; "rtsp";
   "rtspu"; "sip"; "sips"; "mms"; "sftp"; "tel"].

(** The named tuple returned by [urlparse]. *)
Record ParseResult := {
  scheme : string;
  netloc : string;
  path : string;
  params : string;
  query : string;
  fragment : string;
}.

(** [_splitnetloc(url, 2)], applied to the text after the leading [//]. *)
Definition _splitnetloc (rest : string) : string * string :=
  break_at (fun c => Ascii.eqb c "/" || Ascii.eqb c "?" || Ascii.eqb c "#") rest.

(** [_splitparams(url)], called only when [';' in url]. *)
Definition _splitparams (url : string) : string * string :=
  match rpartition "/" url with
  | Some (head, tail) =>
    match partition ";" tail with
    | Some (before, after) => (head ++ "/" ++ before, after)
    | None => (url, "")
    end
  | None =>
    match partition ";" url with
    | Some (before, after) => (before, after)
    | None => (url, "")
    end
  end.

(** The scheme test of [urlsplit]: the text before the first [:] is a
    scheme when it is not empty, starts with an ASCII letter and is made
    of [scheme_chars]. *)
Definition split_scheme (url : string) : string * string :=
  match partition ":" url with
  | Some (String c0 cs, rest) =>
    if char_isalpha_ascii c0 && str_all scheme_char (String c0 cs)
    then (lower (String c0 cs), rest)
    else ("", url)
  | _ => ("", url)
  end.

(** The end of [urlsplit] and of [urlparse]: the fragment, the query
    and the [;params] are split off what follows the authority. *)
Definition split_rest (scheme netloc url : string) : ParseResult :=
  let '(url, fragment) :=
    match partition "#" url with Some (u, f) => (u, f) | None => (url, "") end in
  let '(url, query) :=
    match partition "?" url with Some (u, q) => (u, q) | None => (url, "") end in
  let '(url, params) :=
    if bool_decide (scheme ∈ uses_params) && contains_char ";" url
    then _splitparams url else (url, "") in
  {| scheme := scheme; netloc := netloc; path := url;
     params := params; query := query; fragment := fragment |}.

Section urlparse.

(** One check of [urlsplit] reaches into the [ipaddress] module (and is
    absent from older releases of the library): whether a bracketed host
    is an acceptable IPv6 or IPvFuture literal ([_check_bracketed_host]).
    It is taken as given.  The text of the [ValueError] it raises is the
    check's own and is not modelled: the text below stands for it, and no
    statement depends on it. *)
Variable check_bracketed_host : string -> bool.

(** [_check_bracketed_netloc(netloc)], called for an authority that holds
    both brackets: nothing may stand before the opening bracket (after the
    user information), and only a [:port] after the closing one. *)
Definition _check_bracketed_netloc (netloc : string) : result unit :=
  let hostname_and_port :=
    match rpartition "@" netloc with Some (_, h) => h | None => netloc end in
  let checked (hostname : string) : result unit :=
    if check_bracketed_host hostname then Ok tt
    else Err (ValueError "invalid bracketed host") in
  match partition "[" hostname_and_port with
  | Some (before_bracket, bracketed) =>
    if nonempty before_bracket
    then Err (ValueError "Invalid IPv6 URL")
    else
      let '(hostname, port) :=
        match partition "]" bracketed with Some (h, p) => (h, p) | None => (bracketed, "") end in
      if nonempty port
         && negb (match port with String c _ => Ascii.eqb c ":" | EmptyString => false end)
      then Err (ValueError "Invalid IPv6 URL")
      else checked hostname
  | None =>
    let hostname :=
      match partition ":" hostname_and_port with
      | Some (h, _) => h
      | None => hostname_and_port
      end in
    checked hostname
  end.

Definition split_netloc (url : string) : result (string * string) :=
  match url with
  | String "/" (String "/" rest) =>
    let '(netloc, url') := _splitnetloc rest in
    let open := contains_char "[" netloc in
    let close := contains_char "]" netloc in
    if (open && negb close) || (close && negb open)
    then Err (ValueError "Invalid IPv6 URL")
    else if open && close
    then match _check_bracketed_netloc netloc with
         | Ok _ => Ok (netloc, url')
         | Err e => Err e
         end
    else Ok (netloc, url')
  | _ => Ok ("", url)
  end.

(** [urlparse(url)]: [urlsplit], then the split of [;params] off the
    path.  The NFKC check of a non-ASCII authority never fails on code
    points below 256 and is left out. *)
Definition urlparse (url : string) : result ParseResult :=
  let url := lstrip (fun c => code c <=? 32) url in
  let url := str_filter (fun c => negb (Ascii.eqb c "009" || Ascii.eqb c "013" || Ascii.eqb c "010")) url in
  let '(scheme, url) := split_scheme url in
  match split_netloc url with
  | Ok (netloc, url) => Ok (split_rest scheme netloc url)
  | Err e => Err e
  end.

End urlparse.

(** [_hostinfo]: the host and port texts of the authority. *)
Definition _hostinfo (netloc : string) : string * option string :=
  let hostinfo := match rpartition "@" netloc with Some (_, h) => h | None => netloc end in
  let '(hostname, port) :=
    match partition "[" hostinfo with
    | Some (_, bracketed) =>
      let '(hostname, port) :=
        match partition "]" bracketed with Some (h, p) => (h, p) | None => (bracketed, "") end in
      (hostname, match partition ":" port with Some (_, p) => p | None => "" end)
    | None =>
      match partition ":" hostinfo with Some (h, p) => (h, p) | None => (hostinfo, "") end
    end in
  (hostname, if nonempty port then Some port else None).

(** The [hostname] property. *)
Definition hostname (r : ParseResult) : option string :=
  let hostname := fst (_hostinfo (netloc r)) in
  if nonempty hostname
  then Some (match partition "%" hostname with
             | Some (h, zone) => lower h ++ "%" ++ zone
             | None => lower hostname
             end)
  else None.

(** [repr(s)] of a string, as [f"{s!r}"] renders it: between single
    quotes, or double quotes when the string holds a single quote and no
    double quote; the quote, the backslash, tab, line feed and carriage
    return escaped with a backslash, every other character that is not
    printable written [\xhh]. *)
Definition char_isprintable (c : ascii) : bool :=
  (32 <=? code c) && (code c <? 127) || (161 <=? code c) && negb (code c =? 173).

Definition hex_digit (n : nat) : ascii :=
  if n <? 10 then ascii_of_nat (48 + n) else ascii_of_nat (87 + n).

Definition repr_char (quote c : ascii) : string :=
  if Ascii.eqb c quote || Ascii.eqb c "092" then String "092" (String c EmptyString)
  else if Ascii.eqb c "009" then String "092" "t"
  else if Ascii.eqb c "010" then String "092" "n"
  else if Ascii.eqb c "013" then String "092" "r"
  else if char_isprintable c then String c EmptyString
  else String "092" (String "x"
         (String (hex_digit (code c / 16)) (String (hex_digit (code c mod 16)) EmptyString))).

Fixpoint repr_chars (quote : ascii) (s : string) : string :=
  match s with
  | EmptyString => String quote EmptyString
  | String c s' => repr_char quote c ++ repr_chars quote s'
  end.

Definition repr (s : string) : string :=
  let quote : ascii :=
    if contains_char "039" s && negb (contains_char "034" s)
    then "034"%char else "039"%char in
  String quote (repr_chars quote s).

(** The [port] property; reading it raises on a port that is not a
    number of the range 0-65535. *)
Definition port (r : ParseResult) : result (option Z) :=
  match snd (_hostinfo (netloc r)) with
  | None => Ok None
  | Some port =>
    if str_all (fun c => char_isdigit_ascii c) port
    then let port := int_of_digits 0 port in
         if ((0 <=? port) && (port <=? 65535))%Z
         then Ok (Some port)
         else Err (ValueError "Port out of range 0-65535")
    else Err (ValueError ("Port could not be cast to integer value as " ++ repr port))
  end.

(** [s.encode("ascii")] *)
Definition encode_ascii (s : string) : result (list byte) :=
  if isascii s then Ok (list_byte_of_string s) else Err UnicodeEncodeError.

End Url.

(** ** asyncio: awaitables, [wait_for], the clock *)

Module Asyncio.

(** What the environment makes of one awaited operation: it completes
    with a value after some time, fails after some time, or never
    completes. *)
Inductive awaited (A : Type) :=
  | Completes (elapsed : Q) (value : A)
  | Fails (elapsed : Q) (e : exn)
  | Never.
Arguments Completes {A} elapsed value.
Arguments Fails {A} elapsed e.
Arguments Never {A}.

(** [asyncio.wait_for(aw, timeout)]: what has not completed when
    [timeout] has elapsed is cancelled and [TimeoutError] is raised. *)
Definition wait_for {A} (aw : awaited A) (timeout : Q) : awaited A :=
  match aw with
  | Completes elapsed _ | Fails elapsed _ =>
    if Qle_bool elapsed timeout then aw else Fails timeout TimeoutError
  | Never => Fails timeout TimeoutError
  end.

(** [await aw], with the clock as state. *)
Definition await {A} (aw : awaited A) : M Q A :=
  fun now =>
    match aw with
    | Completes elapsed value => Value value (now + elapsed)%Q
    | Fails elapsed e => Raised e (now + elapsed)%Q
    | Never => Hangs
    end.

(** [time.perf_counter()] *)
Definition perf_counter : M Q Q := fun now => Value now now.

(** The far end of one connection, as the client meets it: how
    [open_connection], [drain], the successive [read] calls and
    [wait_closed] resolve. *)
Record peer := {
  connect : awaited unit;
  drain : awaited unit;
  read : nat -> awaited (list byte);
  wait_closed : awaited unit;
}.

(** [asyncio.Semaphore(value)] *)
Definition Semaphore (value : Z) : result nat :=
  if value <? 0
  then Err (ValueError "Semaphore initial value must be >= 0")
  else Ok (Z.to_nat value).

End Asyncio.

(** ** bench_core.py *)

Import Asyncio.

Local Open Scope string_scope.

(** The dictionaries the runners return, as records. *)

Module Stats.
(** The value of [_summarize_latencies]. *)
Record t := {
  successful_requests : nat;
  p50_ms : Q;
  p90_ms : Q;
  p99_ms : Q;
  min_ms : Q;
  avg_ms : Q;
  max_ms : Q;
}.
End Stats.

Module Once.
(** The value of [_closed_once] and [_open_once]: the latency
    statistics together with [errors], [throughput] and [wall]. *)
Record t := {
  stats : Stats.t;
  errors : nat;
  throughput : Q;
  wall : Q;
}.
End Once.

Module Summary.
(** The value of [run_closed] and [run_open]. *)
Record t := {
  throughput : Q;
  p50_ms : Q;
  p90_ms : Q;
  p99_ms : Q;
  errors : Q;
}.
End Summary.

(** One row of the CSV report of [run_preset] (the timestamp column is
    left out). *)
Record row := {
  phase : string;
  profile : string;
  url : string;
  concurrency : Z;
  total_requests : option Z;
  open_duration_sec : option Q;
  warmup : Q;
  repeat : Z;
  open_target_rps : option Q;
  throughput_rps : Q;
  p50_ms : Q;
  p90_ms : Q;
  p99_ms : Q;
  errors : Q;
}.

(** The state of one task running [perform_request]: before it holds
    the semaphore, while it holds it (inside [one_request]), and after
    it has recorded its outcome and released. *)
Inductive task_state := Waiting | Executing | Done.

Global Instance task_state_eq_dec : EqDecision task_state.
Proof. solve_decision. Defined.

(** The variables shared by the tasks of one run: the semaphore (its
    free permits), the tasks in creation order, [latencies] and
    [error_count]. *)
Record pool := {
  semaphore : nat;
  tasks : list task_state;
  latencies : list Q;
  error_count : nat;
}.

(** What the event loop may do next.  The environment picks the order. *)
Inductive event :=
  | Enter (task : nat)
    (** [task] passes [async with concurrency_semaphore] *)
  | Leave (task : nat) (server : peer) (fuel : nat)
    (** the [one_request] of [task], run against [server], returns *)
  | DoneCallback (task : nat)
    (** the done-callback [in_flight_tasks.discard] of [task] runs *)
  | LoopIteration (now : Q)
    (** one turn of the dispatch loop, the clock reading [now] *)
  | GatherDone.
    (** [asyncio.gather] hands control back *)

(** What the environment supplies to one call of [_closed_once] or
    [_open_once]: the clock when the run starts and when its summary is
    computed, and the events in between. *)
Record run_env := {
  started : Q;
  schedule : list event;
  finished : Q;
}.

(** The phases of [_open_once]. *)
Inductive open_phase :=
  | Dispatching
  | Gathering (awaited_tasks : gset nat)
  | Finished.

Record open_loop := {
  workers : pool;
  in_flight_tasks : gset nat;
  next_scheduled_time : Q;
  loop_phase : open_phase;
}.

(** A preset, and the part of a configuration file that overrides one. *)
Record preset := {
  concurrencies : list Z;
  total_per_c : Z;
  closed_warmup : Z;
  closed_repeat : Z;
  open_duration : Q;
  open_warmup_sec : Q;
}.

Record preset_override := {
  set_concurrencies : option (list Z);
  set_total_per_c : option Z;
  set_warmup : option Z;
  set_repeat : option Z;
  set_duration : option Q;
  set_warmup_sec : option Q;
}.

(** What [run_preset] derives from the sweep, lines 369-378. *)
Record open_plan := {
  best_concurrency : Z;
  calibrated_rps : Q;
  open_targets_rps : list Q;
  concurrency_cap : Z;
}.

(** The builtin [max(iterable, key=key)]: the first item whose key no
    later key exceeds; [ValueError] on an empty iterable. *)
Fixpoint max_from {A} (key : A -> Q) (best : A) (rest : list A) : A :=
  match rest with
  | [] => best
  | x :: rest' => max_from key (if Qltb (key best) (key x) then x else best) rest'
  end.

Definition max_by {A} (key : A -> Q) (items : list A) : result A :=
  match items with
  | [] => Err (ValueError "max() arg is an empty sequence")
  | x :: rest => Ok (max_from key x rest)
  end.

(** The two characters written [\r\n] in the source. *)
Definition CRLF : string := String "013" (String "010" EmptyString).

Section bench_core.

Variable check_bracketed_host : string -> bool.

(** [build_http_get(url)], lines 10-26. *)
Definition build_http_get (url : string) : result (string * Z * list byte) :=
  match Url.urlparse check_bracketed_host url with
  | Err e => Err e
  | Ok parsed_url =>
    if Url.nonempty (Url.scheme parsed_url)
       && negb (String.eqb (Url.lower (Url.scheme parsed_url)) "http")
    then Err (ValueError "Only plain HTTP is supported")
    else
      let host := match Url.hostname parsed_url with Some h => h | None => "127.0.0.1" end in
      match Url.port parsed_url with
      | Err e => Err e
      | Ok parsed_port =>
        let port := match parsed_port with
                    | Some p => if (p =? 0)%Z then 80 else p
                    | None => 80
                    end in
        let path := if Url.nonempty (Url.path parsed_url) then Url.path parsed_url else "/" in
        let path := if Url.nonempty (Url.query parsed_url)
                    then path ++ "?" ++ Url.query parsed_url else path in
        let host_header := if Url.nonempty (Url.netloc parsed_url)
                           then Url.netloc parsed_url else host in
        match Url.encode_ascii
                ("GET " ++ path ++ " HTTP/1.1" ++ CRLF
                 ++ "Host: " ++ host_header ++ CRLF
                 ++ "Connection: close" ++ CRLF
                 ++ CRLF) with
        | Err e => Err e
        | Ok request_bytes => Ok (host, port, request_bytes)
        end
      end
  end.


Local Close Scope string_scope.
Local Open Scope monad_scope.

(** The [while True] loop of [one_request], lines 37-40; [k] counts the
    [read] calls made so far. *)
Fixpoint read_until_eof (fuel : nat) (server : peer) (timeout : Q) (k : nat) : M Q unit :=
  match fuel with
  | O => fun _ => OutOfFuel
  | Datatypes.S fuel' =>
    let* chunk := await (wait_for (read server k) timeout) in
    match chunk with
    | [] => ret tt
    | _ => read_until_eof fuel' server timeout (Datatypes.S k)
    end
  end.

(** [one_request(host, port, request_bytes, timeout)], lines 29-48,
    against the peer [server]. *)
Definition one_request (server : peer) (fuel : nat)
    (host : string) (port : Z) (request_bytes : list byte) (timeout : Q) : M Q Q :=
  let* start_time := perf_counter in
  try_except
    (do await (wait_for (connect server) timeout) then
     do await (drain server) then
     do read_until_eof fuel server timeout 0 then
     do try_except (await (wait_closed server)) (ret tt) then
     let* end_time := perf_counter in
     ret (end_time - start_time)%Q)
    (ret (-1)%Q).

(** [percentile(sorted_values, q)], lines 51-64.  The code computes
    [q * (len - 1) + 0.5] in double precision; here the product and the
    sum are exact.  The two pick the same item for the quantiles 0.5, 0.9
    and 0.99 that the code passes, and can differ by one position for a
    quantile whose product falls within rounding of a half. *)
Definition percentile (sorted_values : list Q) (q : Q) : Q :=
  match sorted_values with
  | [] => 0%Q
  | _ =>
    let last := Z.of_nat (length sorted_values) - 1 in
    let index := Z.max 0 (Z.min (Qtrunc (q * inject_Z last + (1#2))) last) in
    item sorted_values (Z.to_nat index)
  end.

(** [median(values)], lines 67-73. *)
Definition median (values : list Q) : Q :=
  match values with
  | [] => 0%Q
  | _ =>
    let values_sorted := sorted values in
    let length := length values_sorted in
    let middle := (length / 2)%nat in
    if (length mod 2 =? 0)%nat
    then ((1#2) * (item values_sorted (middle - 1) + item values_sorted middle))%Q
    else item values_sorted middle
  end.

(** [_summarize_latencies(latencies)], lines 76-87.  The list is sorted
    in place first; every field then reads the sorted list.  The mean
    ([sum / len * 1000]) and the products by 1000 are exact here and
    rounded in the code. *)
Definition _summarize_latencies (latencies : list Q) : Stats.t :=
  let latencies := sorted latencies in
  let successful_requests := length latencies in
  let some := negb (successful_requests =? 0)%nat in
  {| Stats.successful_requests := successful_requests;
     Stats.p50_ms := if some then (percentile latencies (1#2) * 1000)%Q else 0%Q;
     Stats.p90_ms := if some then (percentile latencies (9#10) * 1000)%Q else 0%Q;
     Stats.p99_ms := if some then (percentile latencies (99#100) * 1000)%Q else 0%Q;
     Stats.min_ms := if some then (item latencies 0 * 1000)%Q else 0%Q;
     Stats.avg_ms :=
       if some
       then ((Qsum latencies / inject_Z (Z.of_nat successful_requests)) * 1000)%Q
       else 0%Q;
     Stats.max_ms :=
       if some then (item latencies (successful_requests - 1) * 1000)%Q else 0%Q |}.

(** *** [perform_request], lines 126-133 and 182-189 *)

(** The task passes [async with concurrency_semaphore]: it needs a free
    permit. *)
Definition perform_request_enter (task : nat) (s : pool) : pool :=
  match tasks s !! task, semaphore s with
  | Some Waiting, Datatypes.S free =>
    {| semaphore := free;
       tasks := <[task := Executing]> (tasks s);
       latencies := latencies s;
       error_count := error_count s |}
  | _, _ => s
  end.

(** [one_request] returns; the task records the outcome, releases the
    semaphore and is done.  Nothing happens while [one_request] has not
    returned. *)
Definition perform_request_leave
    (host : string) (port : Z) (request_bytes : list byte) (timeout : Q)
    (task : nat) (server : peer) (fuel : nat) (s : pool) : pool :=
  match tasks s !! task with
  | Some Executing =>
    match one_request server fuel host port request_bytes timeout 0%Q with
    | Value duration _ =>
      {| semaphore := Datatypes.S (semaphore s);
         tasks := <[task := Done]> (tasks s);
         latencies := if Qltb duration 0 then latencies s else latencies s ++ [duration];
         error_count := if Qltb duration 0 then Datatypes.S (error_count s) else error_count s |}
    | _ => s
    end
  | _ => s
  end.

Definition pool_step
    (host : string) (port : Z) (request_bytes : list byte) (timeout : Q)
    (e : event) (s : pool) : pool :=
  match e with
  | Enter task => perform_request_enter task s
  | Leave task server fuel =>
    perform_request_leave host port request_bytes timeout task server fuel s
  | _ => s
  end.

Definition all_done (ts : list task_state) : bool :=
  forallb (fun t => bool_decide (t = Done)) ts.

(** The result dictionary built at the end of both runs, lines 139-144
    and 210-215. *)
Definition once_result (s : pool) (wall_time : Q) : Once.t :=
  let stats := _summarize_latencies (latencies s) in
  let throughput :=
    if Qltb 0 wall_time
    then (inject_Z (Z.of_nat (Stats.successful_requests stats)) / wall_time)%Q
    else 0%Q in
  {| Once.stats := stats;
     Once.errors := error_count s;
     Once.throughput := throughput;
     Once.wall := wall_time |}.

(** *** The closed loop *)

(** The pool right after [asyncio.gather] has created its
    [total_requests] tasks, and after a list of events. *)
Definition closed_start (permits : nat) (total_requests : Z) : pool :=
  {| semaphore := permits;
     tasks := replicate (Z.to_nat total_requests) Waiting;
     latencies := [];
     error_count := 0 |}.

Definition closed_run
    (host : string) (port : Z) (request_bytes : list byte) (timeout : Q)
    (events : list event) (s : pool) : pool :=
  fold_left (fun s e => pool_step host port request_bytes timeout e s) events s.

(** *** The open loop *)

(** One turn of the [while True] loop, lines 194-204.  The sum
    [next_scheduled_time + schedule_interval_seconds] and the difference
    [now - start_time] are exact here and rounded in the code. *)
Definition loop_iteration
    (start_time duration_sec schedule_interval_seconds : Q) (concurrency_cap : Z)
    (now : Q) (s : open_loop) : open_loop :=
  match loop_phase s with
  | Dispatching =>
    if Qle_bool duration_sec (now - start_time)
    then {| workers := workers s;
            in_flight_tasks := in_flight_tasks s;
            next_scheduled_time := next_scheduled_time s;
            loop_phase := Gathering (in_flight_tasks s) |}
    else if Qle_bool (next_scheduled_time s) now
            && (Z.of_nat (size (in_flight_tasks s)) <? 4 * concurrency_cap)
    then
      let task := length (tasks (workers s)) in
      {| workers := {| semaphore := semaphore (workers s);
                       tasks := tasks (workers s) ++ [Waiting];
                       latencies := latencies (workers s);
                       error_count := error_count (workers s) |};
         in_flight_tasks := {[task]} ∪ in_flight_tasks s;
         next_scheduled_time := (next_scheduled_time s + schedule_interval_seconds)%Q;
         loop_phase := Dispatching |}
    else s
  | _ => s
  end.

Definition open_step
    (host : string) (port : Z) (request_bytes : list byte) (timeout : Q)
    (start_time duration_sec schedule_interval_seconds : Q) (concurrency_cap : Z)
    (e : event) (s : open_loop) : open_loop :=
  match e with
  | Enter _ | Leave _ _ _ =>
    {| workers := pool_step host port request_bytes timeout e (workers s);
       in_flight_tasks := in_flight_tasks s;
       next_scheduled_time := next_scheduled_time s;
       loop_phase := loop_phase s |}
  | DoneCallback task =>
    match tasks (workers s) !! task with
    | Some Done =>
      {| workers := workers s;
         in_flight_tasks := in_flight_tasks s ∖ {[task]};
         next_scheduled_time := next_scheduled_time s;
         loop_phase := loop_phase s |}
    | _ => s
    end
  | LoopIteration now =>
    loop_iteration start_time duration_sec schedule_interval_seconds concurrency_cap now s
  | GatherDone =>
    match loop_phase s with
    | Gathering awaited_tasks =>
      if bool_decide (set_Forall (fun task => tasks (workers s) !! task = Some Done) awaited_tasks)
      then {| workers := workers s;
              in_flight_tasks := in_flight_tasks s;
              next_scheduled_time := next_scheduled_time s;
              loop_phase := Finished |}
      else s
    | _ => s
    end
  end.

Definition open_start (permits : nat) (start_time : Q) : open_loop :=
  {| workers := {| semaphore := permits; tasks := []; latencies := []; error_count := 0 |};
     in_flight_tasks := ∅;
     next_scheduled_time := start_time;
     loop_phase := Dispatching |}.

Definition open_run
    (host : string) (port : Z) (request_bytes : list byte) (timeout : Q)
    (start_time duration_sec schedule_interval_seconds : Q) (concurrency_cap : Z)
    (events : list event) (s : open_loop) : open_loop :=
  fold_left
    (fun s e => open_step host port request_bytes timeout
                  start_time duration_sec schedule_interval_seconds concurrency_cap e s)
    events s.

(** *** The runners *)

(** The environment of a whole session: what it supplies to the first,
    second, ... call of [_closed_once] or [_open_once].  The state of
    the runners is the number of calls made so far. *)
Variable world : nat -> run_env.

Definition next_env : M nat run_env := fun calls => Value (world calls) (Datatypes.S calls).

(** [_closed_once(url, total_requests, concurrency, timeout, verbose)],
    lines 119-144. *)
Definition _closed_once (url : string) (total_requests concurrency : Z) (timeout : Q)
    (verbose : bool) : M nat Once.t :=
  let* (host, port, request_bytes) := lift (build_http_get url) in
  let* concurrency_semaphore := lift (Semaphore concurrency) in
  let* env := next_env in
  let s := closed_run host port request_bytes timeout (schedule env)
             (closed_start concurrency_semaphore total_requests) in
  if all_done (tasks s)
  then ret (once_result s (finished env - started env)%Q)
  else hang.

(** [run_closed(url, total, concurrency, timeout, warmup, repeat, quiet)],
    lines 147-169. *)
Definition run_closed (url : string) (total concurrency : Z) (timeout : Q)
    (warmup repeat : Z) (quiet : bool) : M nat Summary.t :=
  do (if 0 <? warmup
      then do _closed_once url warmup concurrency timeout false then ret tt
      else ret tt) then
  let* run_summaries :=
    for_range (Z.to_nat repeat) (_closed_once url total concurrency timeout (negb quiet)) in
  ret {| Summary.throughput := median (map Once.throughput run_summaries);
         Summary.p50_ms := median (map (fun r => Stats.p50_ms (Once.stats r)) run_summaries);
         Summary.p90_ms := median (map (fun r => Stats.p90_ms (Once.stats r)) run_summaries);
         Summary.p99_ms := median (map (fun r => Stats.p99_ms (Once.stats r)) run_summaries);
         Summary.errors :=
           (inject_Z (Z.of_nat (sum_list (map Once.errors run_summaries)))
            / inject_Z (Z.max repeat 1))%Q |}.

(** [_open_once(url, target_rps, duration_sec, concurrency_cap, timeout,
    verbose)], lines 174-215. *)
Definition _open_once (url : string) (target_rps duration_sec : Q) (concurrency_cap : Z)
    (timeout : Q) (verbose : bool) : M nat Once.t :=
  let* (host, port, request_bytes) := lift (build_http_get url) in
  let* concurrency_semaphore := lift (Semaphore concurrency_cap) in
  let* env := next_env in
  let schedule_interval_seconds := (1 / py_max target_rps (1 # 1000000000))%Q in
  let start_time := started env in
  let s := open_run host port request_bytes timeout
             start_time duration_sec schedule_interval_seconds concurrency_cap
             (schedule env) (open_start concurrency_semaphore start_time) in
  match loop_phase s with
  | Finished => ret (once_result (workers s) (finished env - start_time)%Q)
  | _ => hang
  end.

(** [run_open(url, rps, duration, concurrency, timeout, warmup_sec,
    repeat, quiet)], lines 218-238. *)
Definition run_open (url : string) (rps duration : Q) (concurrency : Z) (timeout : Q)
    (warmup_sec : Q) (repeat : Z) (quiet : bool) : M nat Summary.t :=
  do (if Qltb 0 warmup_sec
      then do _open_once url rps warmup_sec concurrency timeout false then ret tt
      else ret tt) then
  let* run_summaries :=
    for_range (Z.to_nat repeat) (_open_once url rps duration concurrency timeout (negb quiet)) in
  ret {| Summary.throughput := median (map Once.throughput run_summaries);
         Summary.p50_ms := median (map (fun r => Stats.p50_ms (Once.stats r)) run_summaries);
         Summary.p90_ms := median (map (fun r => Stats.p90_ms (Once.stats r)) run_summaries);
         Summary.p99_ms := median (map (fun r => Stats.p99_ms (Once.stats r)) run_summaries);
         Summary.errors :=
           (inject_Z (Z.of_nat (sum_list (map Once.errors run_summaries)))
            / inject_Z (Z.max repeat 1))%Q |}.

(** [run_sweep(url, total, concurrencies, timeout, warmup, repeat,
    quiet)], lines 242-260. *)
Definition run_sweep (url : string) (total : Z) (concurrencies : list Z) (timeout : Q)
    (warmup repeat : Z) (quiet : bool) : M nat (list (Z * Summary.t)) :=
  for_each concurrencies
    (fun concurrency =>
       let* summary := run_closed url total concurrency timeout warmup repeat true in
       ret (concurrency, summary)).

(** [_preset_defaults(profile)], lines 263-279. *)
Definition _preset_defaults (profile : string) : preset :=
  if String.eqb profile "smoke"
  then {| concurrencies := [1; 10; 50; 100]; total_per_c := 1000;
          closed_warmup := 200; closed_repeat := 2;
          open_duration := 8; open_warmup_sec := 3 |}
  else if String.eqb profile "stress"
  then {| concurrencies := [100; 200; 400; 800; 1200]; total_per_c := 15000;
          closed_warmup := 2000; closed_repeat := 3;
          open_duration := 25; open_warmup_sec := 8 |}
  else {| concurrencies := [1; 2; 5; 10; 20; 50; 100; 200; 400]; total_per_c := 5000;
          closed_warmup := 1000; closed_repeat := 3;
          open_duration := 15; open_warmup_sec := 5 |}.

(** [_preset_from_config(profile, config)], lines 282-291; [config] maps
    a profile name to the keys it overrides. *)
Definition _preset_from_config (profile : string)
    (config : option (list (string * preset_override))) : preset :=
  let base := _preset_defaults profile in
  match config with
  | None => base
  | Some presets =>
    match snd <$> list_find (fun entry => String.eqb (fst entry) profile = true) presets with
    | None => base
    | Some (_, user) =>
      {| concurrencies := default (concurrencies base) (set_concurrencies user);
         total_per_c := default (total_per_c base) (set_total_per_c user);
         closed_warmup := default (closed_warmup base) (set_warmup user);
         closed_repeat := default (closed_repeat base) (set_repeat user);
         open_duration := default (open_duration base) (set_duration user);
         open_warmup_sec := default (open_warmup_sec base) (set_warmup_sec user) |}
    end
  end.

(** Lines 369-378 of [run_preset]: the best sweep point, the three
    open-loop target rates and the concurrency cap.  The products
    [0.5 * T], [0.9 * T] and [1.1 * T] are exact here and rounded in the
    code; [2.5 * C] is exact in both for every concurrency below 2^51. *)
Definition plan_open_loop (results : list (Z * Summary.t)) : result open_plan :=
  match max_by (fun x => Summary.throughput (snd x)) results with
  | Err e => Err e
  | Ok (best_concurrency, best_summary) =>
    let calibrated_rps := Summary.throughput best_summary in
    Ok {| best_concurrency := best_concurrency;
          calibrated_rps := calibrated_rps;
          open_targets_rps :=
            [py_max 50 ((1#2) * calibrated_rps);
             py_max 50 ((9#10) * calibrated_rps);
             py_max 50 ((11#10) * calibrated_rps)];
          concurrency_cap := Z.min (Qtrunc ((5#2) * inject_Z best_concurrency)) 2000 |}
  end.

(** [run_preset(url, profile, timeout, config)], lines 294-408; the value
    is the list of rows written to the CSV file. *)
Definition run_preset (url profile : string) (timeout : Q)
    (config : option (list (string * preset_override))) : M nat (list row) :=
  let preset := _preset_from_config profile config in
  let* results :=
    run_sweep url (total_per_c preset) (concurrencies preset) timeout
      (closed_warmup preset) (closed_repeat preset) false in
  let sweep_rows :=
    map (fun '(conc, summary) =>
           {| phase := "closed_sweep"; profile := profile; url := url;
              concurrency := conc;
              total_requests := Some (total_per_c preset);
              open_duration_sec := None;
              warmup := inject_Z (closed_warmup preset);
              repeat := closed_repeat preset;
              open_target_rps := None;
              throughput_rps := Summary.throughput summary;
              p50_ms := Summary.p50_ms summary;
              p90_ms := Summary.p90_ms summary;
              p99_ms := Summary.p99_ms summary;
              errors := Summary.errors summary |})
        results in
  let* plan := lift (plan_open_loop results) in
  let* open_rows :=
    for_each (open_targets_rps plan)
      (fun target =>
         let* open_summary :=
           run_open url target (open_duration preset) (concurrency_cap plan) timeout
             (open_warmup_sec preset) (closed_repeat preset) false in
         ret {| phase := "open_loop"; profile := profile; url := url;
                concurrency := concurrency_cap plan;
                total_requests := None;
                open_duration_sec := Some (open_duration preset);
                warmup := open_warmup_sec preset;
                repeat := closed_repeat preset;
                open_target_rps := Some target;
                throughput_rps := Summary.throughput open_summary;
                p50_ms := Summary.p50_ms open_summary;
                p90_ms := Summary.p90_ms open_summary;
                p99_ms := Summary.p99_ms open_summary;
                errors := Summary.errors open_summary |}) in
  ret (sweep_rows ++ open_rows).

End bench_core.

(** ** The words of the specification *)

(** Rounding to the nearest integer, halves going up. *)
Definition round_nearest (x : Q) : Z := Qfloor (x + (1#2)).

(** The nearest-rank index: [round(q * (n - 1))] clamped to [0, n - 1]. *)
Definition nearest_rank_index (q : Q) (n : nat) : nat :=
  Z.to_nat (Z.max 0 (Z.min (round_nearest (q * inject_Z (Z.of_nat n - 1))) (Z.of_nat n - 1))).

(** A task is outstanding from its creation until it is done, and
    executing while it holds the semaphore. *)
Definition outstanding (s : pool) : nat :=
  length (filter (fun t => t ≠ Done) (tasks s)).

Definition executing (s : pool) : nat :=
  length (filter (fun t => t = Executing) (tasks s)).

Definition completed (s : pool) : nat :=
  length (filter (fun t => t = Done) (tasks s)).

(** [needle in haystack] on byte strings. *)
Fixpoint is_prefix (needle haystack : list byte) : bool :=
  match needle, haystack with
  | [], _ => true
  | _, [] => false
  | a :: needle', b :: haystack' => Byte.eqb a b && is_prefix needle' haystack'
  end.

Fixpoint contains_bytes (needle haystack : list byte) : bool :=
  is_prefix needle haystack
  || match haystack with
     | [] => false
     | _ :: haystack' => contains_bytes needle haystack'
     end.

(** The summary whose fields are all zero. *)
Definition zero_summary : Summary.t :=
  {| Summary.throughput := 0; Summary.p50_ms := 0; Summary.p90_ms := 0;
     Summary.p99_ms := 0; Summary.errors := 0 |}.

(** An awaited operation exceeds the timeout when it has not resolved
    once [timeout] has elapsed; it completes in time otherwise. *)
Definition exceeds {A} (aw : awaited A) (timeout : Q) : Prop :=
  match aw with
  | Completes elapsed _ | Fails elapsed _ => (timeout < elapsed)%Q
  | Never => True
  end.

Definition completes_in_time {A} (aw : awaited A) (timeout : Q) : Prop :=
  match aw with
  | Completes elapsed _ => (elapsed <= timeout)%Q
  | _ => False
  end.

(** A [read] that hands over a non-empty chunk in time. *)
Definition delivers (aw : awaited (list byte)) (timeout : Q) : Prop :=
  match aw with
  | Completes elapsed (_ :: _) => (elapsed <= timeout)%Q
  | _ => False
  end.

(** The bytes of an ASCII text. *)
Definition bytes_of (s : string) : list byte := list_byte_of_string s.

(** The quantiles that the summary of a run asks of [percentile]
    (lines 82-84): 0.5, 0.9 and 0.99. *)
Definition summary_quantiles : list Q := [1#2; 9#10; 99#100].

(** The message of the scheme check of [build_http_get]. *)
Definition unsupported_scheme : exn := ValueError "Only plain HTTP is supported".

(** The characters an authority is made of in the round trip below:
    anything but the delimiters [/ ? #] and the tab and line-break
    characters that [urlparse] drops. *)
Definition authority_char (c : ascii) : bool :=
  negb (Ascii.eqb c "/" || Ascii.eqb c "?" || Ascii.eqb c "#"
        || Ascii.eqb c "009" || Ascii.eqb c "013" || Ascii.eqb c "010").

(** What may follow the authority: nothing, or a path, a query or a
    fragment, free of tab and line-break characters. *)
Definition after_authority (rest : string) : bool :=
  match rest with
  | EmptyString => true
  | String c _ => Ascii.eqb c "/" || Ascii.eqb c "?" || Ascii.eqb c "#"
  end
  && Url.str_all
       (fun c => negb (Ascii.eqb c "009" || Ascii.eqb c "013" || Ascii.eqb c "010")) rest.

(** The characters of a host name in the round trip below: ASCII, and
    none of the delimiters of a URL or of its authority. *)
Definition host_char (c : ascii) : bool :=
  Url.char_isascii c
  && negb (Ascii.eqb c "/" || Ascii.eqb c "?" || Ascii.eqb c "#"
           || Ascii.eqb c "009" || Ascii.eqb c "013" || Ascii.eqb c "010"
           || Ascii.eqb c ":" || Ascii.eqb c "@" || Ascii.eqb c "[" || Ascii.eqb c "]"
           || Ascii.eqb c "%").

(** The port of an authority, as text: absent, or decimal digits that
    read as a number of at most 65535. *)
Definition port_text_ok (port_text : option string) : bool :=
  match port_text with
  | None => true
  | Some digits =>
    Url.str_all Url.char_isdigit_ascii digits && (Url.int_of_digits 0 digits <=? 65535)%Z
  end.

(** [host] or [host:port]. *)
Definition authority_text (host : string) (port_text : option string) : string :=
  match port_text with
  | None => host
  | Some digits => (host ++ ":" ++ digits)%string
  end.

(** The port that the request goes to: 80 unless the URL names another
    (the port 0 counts as none). *)
Definition port_number (port_text : option string) : Z :=
  match port_text with
  | None => 80%Z
  | Some digits =>
    if (Url.int_of_digits 0 digits =? 0)%Z then 80%Z else Url.int_of_digits 0 digits
  end.

(** The text of a request with the given request target and [Host]
    header. *)
Definition request_text (target header : string) : string :=
  ("GET " ++ target ++ " HTTP/1.1" ++ CRLF
   ++ "Host: " ++ header ++ CRLF
   ++ "Connection: close" ++ CRLF ++ CRLF)%string.

(** The request target: the path of the URL, or [/] when it has none,
    followed by [?] and the query when it has one. *)
Definition request_target (parsed : Url.ParseResult) : string :=
  ((if Url.nonempty (Url.path parsed) then Url.path parsed else "/")
   ++ (if Url.nonempty (Url.query parsed) then "?" ++ Url.query parsed else ""))%string.

(** A path as the URL gives it: empty, or starting with one [/] not
    followed by another. *)
Definition bare_path (url : string) : bool :=
  match url with
  | EmptyString => true
  | String c EmptyString => Ascii.eqb c "/"
  | String c (String d _) => Ascii.eqb c "/" && negb (Ascii.eqb d "/")
  end.

(** ** Invariants of the scheduler *)

(** What one event does to the pool: nothing, or one task entering,
    or one task leaving with its outcome recorded. *)
Inductive pool_change (s s' : pool) : Prop :=
  | unchanged : s' = s → pool_change s s'
  | entered task :
      tasks s !! task = Some Waiting →
      semaphore s = Datatypes.S (semaphore s') →
      tasks s' = <[task := Executing]> (tasks s) →
      latencies s' = latencies s →
      error_count s' = error_count s →
      pool_change s s'
  | left task :
      tasks s !! task = Some Executing →
      semaphore s' = Datatypes.S (semaphore s) →
      tasks s' = <[task := Done]> (tasks s) →
      (error_count s' + length (latencies s')
       = Datatypes.S (error_count s + length (latencies s)))%nat →
      pool_change s s'.

(** The invariant of a pool with [permits] permits. *)
Definition pool_inv (permits : nat) (s : pool) : Prop :=
  (semaphore s + executing s = permits)%nat
  ∧ (error_count s + length (latencies s) = completed s)%nat.

(** Every task that is not done is a member of [X]. *)
Definition covered (X : gset nat) (ts : list task_state) : Prop :=
  ∀ i t, ts !! i = Some t → t ≠ Done → i ∈ X.

(** The invariant of the open loop with cap [concurrency_cap]. *)
Definition open_inv (concurrency_cap : Z) (s : open_loop) : Prop :=
  pool_inv (Z.to_nat concurrency_cap) (workers s)
  ∧ covered (in_flight_tasks s) (tasks (workers s))
  ∧ Z.of_nat (size (in_flight_tasks s)) <= 4 * concurrency_cap
  ∧ match loop_phase s with
    | Dispatching => True
    | Gathering awaited_tasks => covered awaited_tasks (tasks (workers s))
    | Finished => covered ∅ (tasks (workers s))
    end.

(** The schedule that serves the tasks one after the other, the task
    numbered [first + i] against the [i]-th server. *)
Fixpoint sequential_schedule (first : nat) (servers : list (peer * nat)) : list event :=
  match servers with
  | [] => []
  | (server, fuel) :: rest =>
    Enter first :: Leave first server fuel :: sequential_schedule (Datatypes.S first) rest
  end.

(** ** Sample inputs *)

Definition sweep_point (concurrency : Z) (throughput : Q) : Z * Summary.t :=
  (concurrency,
   {| Summary.throughput := throughput; Summary.p50_ms := 1; Summary.p90_ms := 2;
      Summary.p99_ms := 3; Summary.errors := 0 |}).

(** A server that accepts at once, answers [OK] after 20 ms and closes. *)
Definition prompt_server : peer :=
  {| connect := Completes (1#100) tt;
     drain := Completes 0 tt;
     read := fun k => match k with
                      | O => Completes (2#100) ["O"%byte; "K"%byte]
                      | _ => Completes (1#100) []
                      end;
     wait_closed := Completes 0 tt |}.

(** A server that takes ten seconds to accept a connection. *)
Definition slow_accept_server : peer :=
  {| connect := Completes 10 tt;
     drain := Completes 0 tt;
     read := fun _ => Completes (1#100) [];
     wait_closed := Completes 0 tt |}.

(** A server that answers one chunk and then neither sends nor closes. *)
Definition silent_server : peer :=
  {| connect := Completes (1#100) tt;
     drain := Completes 0 tt;
     read := fun k => match k with
                      | O => Completes (2#100) ["O"%byte; "K"%byte]
                      | _ => Never
                      end;
     wait_closed := Completes 0 tt |}.

(** A server that lets the write buffer drain only after ten seconds,
    and one that never does. *)
Definition slow_drain_server : peer :=
  {| connect := Completes (1#100) tt;
     drain := Completes 10 tt;
     read := fun _ => Completes (1#100) [];
     wait_closed := Completes 0 tt |}.

Definition stuck_drain_server : peer :=
  {| connect := Completes (1#100) tt;
     drain := Never;
     read := fun _ => Completes (1#100) [];
     wait_closed := Completes 0 tt |}.

(** A world whose every run serves three requests, two at a time; the
    second request times out. *)
Definition three_requests_world : nat -> run_env :=
  fun _ =>
    {| started := 0;
       schedule := [Enter 0; Enter 1; Leave 0 prompt_server 5; Enter 2;
                    Leave 1 silent_server 5; Leave 2 prompt_server 5];
       finished := 2 |}.

(** A world whose every run is an open loop: two dispatches, the first
    request done before the second starts, then the duration is over. *)
Definition open_loop_world : nat -> run_env :=
  fun _ =>
    {| started := 0;
       schedule := [LoopIteration 0; LoopIteration 0; Enter 0;
                    Leave 0 prompt_server 5; DoneCallback 0;
                    LoopIteration (1#2); Enter 1; LoopIteration 1;
                    Leave 1 silent_server 5; GatherDone];
       finished := 2 |}.

(** A world in which every run, closed or open, serves one request:
    the events that a closed loop does not know leave it as it is. *)
Definition one_request_world : nat -> run_env :=
  fun _ =>
    {| started := 0;
       schedule := [LoopIteration 0; Enter 0; Leave 0 prompt_server 5; DoneCallback 0;
                    LoopIteration 100; GatherDone];
       finished := 2 |}.

(** A configuration file that cuts the smoke profile down to one sweep
    point of one request, without warm-up. *)
Definition tiny_smoke : option (list (string * preset_override)) :=
  Some [("smoke"%string,
         {| set_concurrencies := Some [1]; set_total_per_c := Some 1;
            set_warmup := Some 0; set_repeat := Some 1;
            set_duration := Some 1%Q; set_warmup_sec := Some 0%Q |})].

Definition no_bracket_check : string -> bool := fun _ => true.

(** ** Further notions and sample inputs *)

(** An awaited operation that takes no negative time, and a peer all
    of whose operations do. *)
Definition takes_time {A} (aw : awaited A) : Prop :=
  match aw with
  | Completes elapsed _ | Fails elapsed _ => (0 <= elapsed)%Q
  | Never => True
  end.

Definition well_timed (server : peer) : Prop :=
  takes_time (connect server)
  ∧ takes_time (drain server)
  ∧ (∀ k, takes_time (read server k))
  ∧ takes_time (wait_closed server).

(** A server that sends one byte every second and never closes. *)
Definition trickling_server : peer :=
  {| connect := Completes (1#100) tt;
     drain := Completes 0 tt;
     read := fun _ => Completes 1 ["x"%byte];
     wait_closed := Completes 0 tt |}.

(** Two servers for a closed loop of two requests, and the world that
    serves them one after the other. *)
Definition two_servers : list (peer * nat) := [(prompt_server, 5%nat); (silent_server, 5%nat)].

Definition sequential_world : nat -> run_env :=
  fun _ => {| started := 0; schedule := sequential_schedule 0 two_servers; finished := 2 |}.

(** The number of runs behind one summary of [run_closed]: the warm-up,
    if there is one, and the measured runs. *)
Definition closed_runs_per_summary (warmup repeat : Z) : nat :=
  ((if (0 <? warmup)%Z then 1 else 0) + Z.to_nat repeat)%nat.

Definition open_runs_per_summary (warmup_sec : Q) (repeat : Z) : nat :=
  ((if Qltb 0 warmup_sec then 1 else 0) + Z.to_nat repeat)%nat.

(** The medians and the averaged error count of lines 158-164 and
    227-233. *)
Definition summary_of (run_summaries : list Once.t) (repeat : Z) : Summary.t :=
  {| Summary.throughput := median (map Once.throughput run_summaries);
     Summary.p50_ms := median (map (fun r => Stats.p50_ms (Once.stats r)) run_summaries);
     Summary.p90_ms := median (map (fun r => Stats.p90_ms (Once.stats r)) run_summaries);
     Summary.p99_ms := median (map (fun r => Stats.p99_ms (Once.stats r)) run_summaries);
     Summary.errors :=
       (inject_Z (Z.of_nat (sum_list (map Once.errors run_summaries)))
        / inject_Z (Z.max repeat 1))%Q |}.

(** A configuration file that empties the sweep of the smoke profile. *)
Definition empty_sweep : option (list (string * preset_override)) :=
  Some [("smoke"%string,
         {| set_concurrencies := Some []; set_total_per_c := None;
            set_warmup := None; set_repeat := None;
            set_duration := None; set_warmup_sec := None |})].

(** A character that is not a tab, a carriage return or a line feed. *)
Definition line_safe (c : ascii) : bool :=
  negb (Ascii.eqb c "009" || Ascii.eqb c "013" || Ascii.eqb c "010").

Global Instance Qlt_decision (x y : Q) : Decision (x < y)%Q :=
  decide (Qnum x * QDen y < Qnum y * QDen x)%Z.

(** How many of the values are at most [x], and how many are below it. *)
Definition count_le (x : Q) (values : list Q) : nat :=
  length (filter (fun y => (y <= x)%Q) values).

Definition count_lt (x : Q) (values : list Q) : nat :=
  length (filter (fun y => (y < x)%Q) values).

(** * Properties *)

Local Close Scope string_scope.
Local Open Scope Z_scope.

(** ** Sorting and indexing *)

Section sorting.

Lemma sorted_Sorted (values : list Q) : Sorted Qle (sorted values).
Proof. apply (Sorted_merge_sort Qle). Qed.

Lemma sorted_Permutation (values : list Q) : sorted values ≡ₚ values.
Proof. apply (merge_sort_Permutation Qle). Qed.

Lemma sorted_length (values : list Q) : length (sorted values) = length values.
Proof. apply Permutation_length, sorted_Permutation. Qed.

Lemma sorted_nonempty (values : list Q) : values ≠ [] → sorted values ≠ [].
Proof.
  intros Hne Hs. apply Hne, length_zero_iff_nil.
  rewrite <- sorted_length, Hs. reflexivity.
Qed.

(** An index in range splits a list around its item. *)
Lemma item_split (l : list Q) (i : nat) :
  (i < length l)%nat →
  l = take i l ++ item l i :: drop (Datatypes.S i) l ∧ l !! i = Some (item l i).
Proof.
  intros Hi. destruct (lookup_lt_is_Some_2 l i Hi) as [x Hx].
  unfold item. rewrite Hx. simpl. split; [|reflexivity].
  symmetry. apply take_drop_middle, Hx.
Qed.

End sorting.

(** ** Truncation against rounding *)

Section rounding.

Lemma Qtrunc_nonneg (x : Q) : (0 <= Qnum x) → Qtrunc x = Qfloor x.
Proof.
  intros H. unfold Qtrunc, Qfloor. destruct x as [n d]. simpl in *.
  apply Z.quot_div_nonneg; lia.
Qed.

Lemma Qtrunc_neg (x : Q) : (Qnum x < 0) → Qtrunc x <= 0 ∧ Qfloor x < 0.
Proof.
  intros H. unfold Qtrunc, Qfloor. destruct x as [n d]. simpl in *. split.
  - apply Z.quot_le_upper_bound; lia.
  - apply Z.div_lt_upper_bound; lia.
Qed.

(** Once clamped to [0, last], truncating [x + 1/2] and taking its
    floor pick the same index. *)
Lemma clamp_trunc_floor (x : Q) (last : Z) :
  0 <= last →
  Z.max 0 (Z.min (Qtrunc x) last) = Z.max 0 (Z.min (Qfloor x) last).
Proof.
  intros Hlast. destruct (Z_lt_le_dec (Qnum x) 0) as [Hneg|Hpos].
  - destruct (Qtrunc_neg x Hneg). lia.
  - rewrite (Qtrunc_nonneg x Hpos). reflexivity.
Qed.

Lemma nearest_rank_index_lt (q : Q) (n : nat) :
  (0 < n)%nat → (nearest_rank_index q n < n)%nat.
Proof. intros Hn. unfold nearest_rank_index. lia. Qed.

End rounding.

(** ** The percentile and the summary of a run *)

Lemma percentile_index (sorted_values : list Q) (q : Q) :
  percentile sorted_values q
  = item sorted_values (nearest_rank_index q (length sorted_values)).
Proof.
  unfold percentile, nearest_rank_index, round_nearest.
  destruct sorted_values as [|x l]; [reflexivity|].
  set (n := length (x :: l)).
  rewrite clamp_trunc_floor; [reflexivity|]. subst n. simpl. lia.
Qed.

Lemma percentile_lookup (sorted_values : list Q) (q : Q) :
  sorted_values ≠ [] →
  sorted_values !! nearest_rank_index q (length sorted_values)
  = Some (percentile sorted_values q).
Proof.
  intros Hne. rewrite percentile_index. apply item_split.
  apply nearest_rank_index_lt. destruct sorted_values; [done|simpl; lia].
Qed.

Lemma summarize_empty :
  _summarize_latencies [] =
  {| Stats.successful_requests := 0; Stats.p50_ms := 0; Stats.p90_ms := 0;
     Stats.p99_ms := 0; Stats.min_ms := 0; Stats.avg_ms := 0; Stats.max_ms := 0 |}.
Proof. reflexivity. Qed.

Lemma summarize_percentiles (latencies : list Q) :
  latencies ≠ [] →
  let s := sorted latencies in
  let n := length latencies in
  Stats.p50_ms (_summarize_latencies latencies) = (item s (nearest_rank_index (1#2) n) * 1000)%Q
  ∧ Stats.p90_ms (_summarize_latencies latencies) = (item s (nearest_rank_index (9#10) n) * 1000)%Q
  ∧ Stats.p99_ms (_summarize_latencies latencies) = (item s (nearest_rank_index (99#100) n) * 1000)%Q.
Proof.
  intros Hne s n. unfold _summarize_latencies. fold s.
  assert (Hlen : length s = n) by apply sorted_length.
  destruct (length s =? 0)%nat eqn:E.
  - apply Nat.eqb_eq in E. destruct latencies; [done|]. subst n. simpl in Hlen. lia.
  - simpl. rewrite !percentile_index, Hlen. auto.
Qed.

(** C1, as the code has it.  [percentile] indexes the list it is given
    and does not sort it; its caller [_summarize_latencies] sorts the
    latencies first and asks for the quantiles 0.5, 0.9 and 0.99.  For
    these quantiles the item returned on the sorted list is the one at
    index round(q * (n - 1)) (halves rounded up) clamped to [0, n - 1],
    and the p50, p90 and p99 fields of a summary are these items, in
    milliseconds.  (For another quantile the code computes
    int(q * (n - 1) + 0.5) in double precision, and the rounding of the
    product decides between two neighbouring items; nothing is stated
    about it.)  On the empty list [percentile] returns 0 for every [q],
    and a run without a success has all its latency fields equal to
    zero. *)
Theorem percentile_nearest_rank_of_sorted (latencies : list Q) (q : Q) :
  let s := sorted latencies in
  let n := length latencies in
  Sorted Qle s ∧ s ≡ₚ latencies
  ∧ (q ∈ summary_quantiles →
     percentile s q = item s (nearest_rank_index q n)
     ∧ (latencies ≠ [] → s !! nearest_rank_index q n = Some (percentile s q)))
  ∧ (latencies ≠ [] →
     Stats.p50_ms (_summarize_latencies latencies) = (item s (nearest_rank_index (1#2) n) * 1000)%Q
     ∧ Stats.p90_ms (_summarize_latencies latencies) = (item s (nearest_rank_index (9#10) n) * 1000)%Q
     ∧ Stats.p99_ms (_summarize_latencies latencies) = (item s (nearest_rank_index (99#100) n) * 1000)%Q)
  ∧ percentile [] q = 0%Q
  ∧ _summarize_latencies [] =
    {| Stats.successful_requests := 0; Stats.p50_ms := 0; Stats.p90_ms := 0;
       Stats.p99_ms := 0; Stats.min_ms := 0; Stats.avg_ms := 0; Stats.max_ms := 0 |}.
Proof.
  intros s n. subst s n.
  split; [apply sorted_Sorted|].
  split; [apply sorted_Permutation|].
  split.
  { intros _. split; [rewrite percentile_index, sorted_length; reflexivity|].
    intros Hne. rewrite <- (sorted_length latencies).
    apply percentile_lookup, sorted_nonempty, Hne. }
  split; [apply summarize_percentiles|].
  split; reflexivity.
Qed.

Lemma percentile_nearest_rank_of_sorted_witness :
  let latencies := [3; 1; 2]%Q in
  (1#2) ∈ summary_quantiles
  ∧ latencies ≠ []
  ∧ sorted latencies !! nearest_rank_index (1#2) 3 = Some (percentile (sorted latencies) (1#2))
  ∧ Stats.p50_ms (_summarize_latencies latencies)
    = (item (sorted latencies) (nearest_rank_index (1#2) 3) * 1000)%Q.
Proof.
  intros latencies.
  assert (Hq : (1#2) ∈ summary_quantiles) by constructor.
  assert (Hne : latencies ≠ []) by discriminate.
  destruct (percentile_nearest_rank_of_sorted latencies (1#2))
    as (_ & _ & Hrank & Hfields & _).
  split; [exact Hq|]. split; [exact Hne|].
  split; [exact (proj2 (Hrank Hq) Hne)|].
  exact (proj1 (Hfields Hne)).
Defined.

(** C1, as stated, fails on a list that is not sorted: [percentile]
    returns the item in the middle of the list as given, which is not
    the item in the middle of the sorted list. *)
Lemma percentile_does_not_sort :
  Qeq (percentile [3; 1; 2]%Q (1#2)) 1
  ∧ Qeq (item (sorted [3; 1; 2]%Q) (nearest_rank_index (1#2) 3)) 2
  ∧ ¬ Qeq (percentile [3; 1; 2]%Q (1#2))
          (item (sorted [3; 1; 2]%Q) (nearest_rank_index (1#2) 3)).
Proof. vm_compute. repeat split; discriminate. Qed.

(** ** The median of repeats *)

Lemma median_unfold (values : list Q) :
  values ≠ [] →
  median values =
  let s := sorted values in
  let middle := (length values / 2)%nat in
  if (length values mod 2 =? 0)%nat
  then ((1#2) * (item s (middle - 1) + item s middle))%Q
  else item s middle.
Proof.
  intros Hne. unfold median. destruct values as [|x l]; [done|].
  cbv zeta. rewrite sorted_length. reflexivity.
Qed.

(** C5.  For a non-empty list of per-run values, whose sorted
    arrangement is [s]: when the length is odd, the median is the item
    of [s] with as many items before it as after it; when the length is
    even, it is the average of the two adjacent items of [s] that have
    as many items before them as after them. *)
Theorem median_middle_of_sorted (values : list Q) :
  values ≠ [] →
  let s := sorted values in
  Sorted Qle s ∧ s ≡ₚ values
  ∧ (Nat.Odd (length values) →
     ∃ before after,
       s = before ++ median values :: after ∧ length before = length after)
  ∧ (Nat.Even (length values) →
     ∃ before x y after,
       s = before ++ x :: y :: after ∧ length before = length after
       ∧ Qeq (median values) ((x + y) / 2)).
Proof.
  intros Hne s.
  assert (Hlen : length s = length values) by apply sorted_length.
  assert (Hpos : (0 < length values)%nat) by (destruct values; [done|simpl; lia]).
  split; [apply sorted_Sorted|]. split; [apply sorted_Permutation|].
  rewrite (median_unfold values Hne). fold s. cbv zeta.
  set (n := length values) in *.
  split.
  - intros [k Hk].
    assert (Hmod : (n mod 2 =? 0)%nat = false).
    { apply Nat.eqb_neq. rewrite Hk.
      replace (2 * k + 1)%nat with (1 + k * 2)%nat by lia.
      rewrite Nat.Div0.mod_add. discriminate. }
    assert (Hdiv : (n / 2 = k)%nat).
    { rewrite Hk. replace (2 * k + 1)%nat with (1 + k * 2)%nat by lia.
      rewrite Nat.div_add by lia. reflexivity. }
    rewrite Hmod, Hdiv.
    destruct (item_split s k) as [Hsplit _]; [lia|].
    exists (take k s), (drop (Datatypes.S k) s). split; [exact Hsplit|].
    rewrite length_take, length_drop. lia.
  - intros [k Hk].
    assert (Hmod : (n mod 2 =? 0)%nat = true).
    { apply Nat.eqb_eq. rewrite Hk. rewrite Nat.mul_comm. apply Nat.Div0.mod_mul. }
    assert (Hdiv : (n / 2 = k)%nat).
    { rewrite Hk. rewrite Nat.mul_comm. apply Nat.div_mul. lia. }
    rewrite Hmod, Hdiv.
    destruct (item_split s (k - 1)) as [Hsplit _]; [lia|].
    destruct (item_split s k) as [_ Hk2]; [lia|].
    exists (take (k - 1) s), (item s (k - 1)), (item s k), (drop (Datatypes.S k) s).
    split; [|split].
    + rewrite Hsplit at 1. f_equal. f_equal.
      replace (Datatypes.S (k - 1)) with k by lia.
      rewrite (drop_S s (item s k) k Hk2). reflexivity.
    + rewrite length_take, length_drop. lia.
    + unfold Qdiv. rewrite Qmult_comm. reflexivity.
Qed.

Lemma median_middle_of_sorted_witness :
  let values := [3; 1; 2; 4]%Q in
  values ≠ []
  ∧ ∃ before x y after,
      sorted values = before ++ x :: y :: after ∧ length before = length after
      ∧ Qeq (median values) ((x + y) / 2).
Proof.
  intros values.
  assert (Hne : values ≠ []) by discriminate.
  split; [exact Hne|].
  destruct (median_middle_of_sorted values Hne) as (_ & _ & _ & Heven).
  apply Heven. exists 2%nat. reflexivity.
Defined.

(** ** The runners: how many runs, in which order *)

Section runners.

Variable check_bracketed_host : string → bool.
Variable world : nat → run_env.

Lemma closed_once_advances url total_requests concurrency timeout verbose calls r calls' :
  _closed_once check_bracketed_host world url total_requests concurrency timeout verbose calls
  = Value r calls' → calls' = Datatypes.S calls.
Proof.
  unfold _closed_once, bind, lift.
  destruct (build_http_get check_bracketed_host url) as [[[host port] request_bytes]|e];
    [|discriminate]. simpl.
  destruct (Semaphore concurrency) as [permits|e]; [|discriminate]. simpl.
  unfold next_env. destruct (all_done _); [|discriminate].
  intros [= _ <-]. reflexivity.
Qed.

Lemma open_once_advances url target_rps duration_sec concurrency_cap timeout verbose calls r calls' :
  _open_once check_bracketed_host world url target_rps duration_sec concurrency_cap timeout
    verbose calls = Value r calls' → calls' = Datatypes.S calls.
Proof.
  unfold _open_once, bind, lift.
  destruct (build_http_get check_bracketed_host url) as [[[host port] request_bytes]|e];
    [|discriminate]. simpl.
  destruct (Semaphore concurrency_cap) as [permits|e]; [|discriminate]. simpl.
  unfold next_env. destruct (loop_phase _); try discriminate.
  intros [= _ <-]. reflexivity.
Qed.

(** A loop whose body makes one call per turn makes [n] calls, the
    [i]-th result being that of the [i]-th call. *)
Lemma for_range_runs {A} (body : M nat A) :
  (∀ c r c', body c = Value r c' → c' = Datatypes.S c) →
  ∀ n c rs c',
    for_range n body c = Value rs c' →
    c' = (c + n)%nat ∧ length rs = n
    ∧ ∀ i r, rs !! i = Some r → body (c + i)%nat = Value r (Datatypes.S (c + i)).
Proof.
  intros Hbody. induction n as [|n IH]; intros c rs c'; simpl.
  - intros [= <- <-]. split; [lia|]. split; [reflexivity|]. intros i r Hi. discriminate.
  - unfold bind. destruct (body c) as [a t| | |] eqn:Ha; try discriminate.
    destruct (for_range n body t) as [rest t'| | |] eqn:Hrest; try discriminate.
    intros [= <- <-]. pose proof (Hbody _ _ _ Ha) as ->.
    destruct (IH _ _ _ Hrest) as (Hc & Hlen & Hitems).
    split; [lia|]. split; [simpl; lia|].
    intros [|i] r Hi; simpl in Hi.
    + injection Hi as <-. rewrite Nat.add_0_r. exact Ha.
    + specialize (Hitems i r Hi).
      replace (c + Datatypes.S i)%nat with (Datatypes.S c + i)%nat by lia. exact Hitems.
Qed.

Lemma run_closed_runs url total concurrency timeout warmup repeat quiet calls summary calls' :
  run_closed check_bracketed_host world url total concurrency timeout warmup repeat quiet calls
  = Value summary calls' →
  let first := (calls + if (0 <? warmup)%Z then 1 else 0)%nat in
  calls' = (calls + closed_runs_per_summary warmup repeat)%nat
  ∧ ∃ run_summaries,
      length run_summaries = Z.to_nat repeat
      ∧ (∀ i r, run_summaries !! i = Some r →
           _closed_once check_bracketed_host world url total concurrency timeout (negb quiet)
             (first + i)%nat = Value r (Datatypes.S (first + i)))
      ∧ summary = summary_of run_summaries repeat.
Proof.
  intros Hrun first. unfold run_closed, bind in Hrun.
  assert (Hwarm : ∃ u,
    (if 0 <? warmup
     then bind (_closed_once check_bracketed_host world url warmup concurrency timeout false)
            (fun _ => ret tt)
     else ret tt) calls = Value u first).
  { subst first. destruct (0 <? warmup).
    - unfold bind in *.
      destruct (_closed_once _ _ _ _ _ _ _ calls) as [r t| | |] eqn:Hw; try discriminate.
      apply closed_once_advances in Hw as ->. exists tt. unfold ret. f_equal. lia.
    - exists tt. unfold ret. f_equal. lia. }
  destruct Hwarm as [u Hwarm]. unfold bind in Hwarm. rewrite Hwarm in Hrun.
  destruct (for_range _ _ first) as [rs t| | |] eqn:Hloop; try discriminate.
  injection Hrun as <- <-.
  destruct (for_range_runs _
              (closed_once_advances url total concurrency timeout (negb quiet))
              _ _ _ _ Hloop) as (Hc & Hlen & Hitems).
  split; [subst first; unfold closed_runs_per_summary; lia|].
  exists rs. split; [exact Hlen|]. split; [exact Hitems|reflexivity].
Qed.

Lemma run_open_runs url rps duration concurrency timeout warmup_sec repeat quiet calls
    summary calls' :
  run_open check_bracketed_host world url rps duration concurrency timeout warmup_sec repeat
    quiet calls = Value summary calls' →
  let first := (calls + if Qltb 0 warmup_sec then 1 else 0)%nat in
  calls' = (calls + open_runs_per_summary warmup_sec repeat)%nat
  ∧ ∃ run_summaries,
      length run_summaries = Z.to_nat repeat
      ∧ (∀ i r, run_summaries !! i = Some r →
           _open_once check_bracketed_host world url rps duration concurrency timeout
             (negb quiet) (first + i)%nat = Value r (Datatypes.S (first + i)))
      ∧ summary = summary_of run_summaries repeat.
Proof.
  intros Hrun first. unfold run_open, bind in Hrun.
  assert (Hwarm : ∃ u,
    (if Qltb 0 warmup_sec
     then bind (_open_once check_bracketed_host world url rps warmup_sec concurrency timeout
                  false)
            (fun _ => ret tt)
     else ret tt) calls = Value u first).
  { subst first. destruct (Qltb 0 warmup_sec).
    - unfold bind in *.
      destruct (_open_once _ _ _ _ _ _ _ _ calls) as [r t| | |] eqn:Hw; try discriminate.
      apply open_once_advances in Hw as ->. exists tt. unfold ret. f_equal. lia.
    - exists tt. unfold ret. f_equal. lia. }
  destruct Hwarm as [u Hwarm]. unfold bind in Hwarm. rewrite Hwarm in Hrun.
  destruct (for_range _ _ first) as [rs t| | |] eqn:Hloop; try discriminate.
  injection Hrun as <- <-.
  destruct (for_range_runs _
              (open_once_advances url rps duration concurrency timeout (negb quiet))
              _ _ _ _ Hloop) as (Hc & Hlen & Hitems).
  split; [subst first; unfold open_runs_per_summary; lia|].
  exists rs. split; [exact Hlen|]. split; [exact Hitems|reflexivity].
Qed.

Lemma run_sweep_points url total timeout warmup repeat quiet :
  ∀ concurrencies calls results calls',
    run_sweep check_bracketed_host world url total concurrencies timeout warmup repeat quiet
      calls = Value results calls' →
    map fst results = concurrencies
    ∧ calls' = (calls + length concurrencies * closed_runs_per_summary warmup repeat)%nat
    ∧ ∀ i concurrency summary,
        results !! i = Some (concurrency, summary) →
        run_closed check_bracketed_host world url total concurrency timeout warmup repeat true
          (calls + i * closed_runs_per_summary warmup repeat)%nat
        = Value summary (calls + Datatypes.S i * closed_runs_per_summary warmup repeat)%nat.
Proof.
  unfold run_sweep. intros points.
  induction points as [|c cs IH]; intros calls results calls'; simpl.
  - intros [= <- <-]. split; [reflexivity|]. split; [lia|]. intros i ? ? Hi. discriminate.
  - unfold bind at 1 2.
    destruct (run_closed _ _ _ _ c _ _ _ _ calls) as [summary t| | |] eqn:Hc; try discriminate.
    simpl. unfold bind at 1.
    destruct (for_each cs _ t) as [rest t'| | |] eqn:Hrest; try discriminate.
    intros [= <- <-].
    pose proof (run_closed_runs _ _ _ _ _ _ _ _ _ _ Hc) as [Ht _]. subst t.
    destruct (IH _ _ _ Hrest) as (Hfst & Hcalls & Hitems).
    split; [simpl; congruence|]. split; [lia|].
    intros [|i] concurrency s Hi; simpl in Hi.
    + injection Hi as <- <-. simpl. rewrite !Nat.add_0_r. exact Hc.
    + specialize (Hitems i concurrency s Hi).
      replace (calls + Datatypes.S i * closed_runs_per_summary warmup repeat)%nat
        with (calls + closed_runs_per_summary warmup repeat
              + i * closed_runs_per_summary warmup repeat)%nat by lia.
      rewrite Hitems. f_equal. lia.
Qed.

End runners.

(** A loop over a list whose body makes [k] calls per item: the calls
    made, and the call that produced each result. *)
Lemma for_each_calls {A B} (body : A → M nat B) (k : nat) :
  (∀ x c r c', body x c = Value r c' → c' = (c + k)%nat) →
  ∀ xs c rs c',
    for_each xs body c = Value rs c' →
    c' = (c + length xs * k)%nat ∧ length rs = length xs
    ∧ ∀ i x r, xs !! i = Some x → rs !! i = Some r →
               body x (c + i * k)%nat = Value r (c + Datatypes.S i * k)%nat.
Proof.
  intros Hbody. induction xs as [|x xs IH]; intros c rs c'; simpl.
  - intros [= <- <-]. split; [lia|]. split; [reflexivity|]. intros i ? ? Hi. discriminate.
  - unfold bind. destruct (body x c) as [b t| | |] eqn:Hb; try discriminate.
    destruct (for_each xs body t) as [rest t'| | |] eqn:Hrest; try discriminate.
    intros [= <- <-]. pose proof (Hbody _ _ _ _ Hb) as ->.
    destruct (IH _ _ _ Hrest) as (-> & Hlen & Hitems).
    split; [lia|]. split; [simpl; congruence|].
    intros [|i] y r Hy Hr; simpl in Hy, Hr.
    + injection Hy as <-. injection Hr as <-. simpl. rewrite !Nat.add_0_r. exact Hb.
    + specialize (Hitems i y r Hy Hr).
      replace (c + Datatypes.S i * k)%nat with (c + k + i * k)%nat by lia.
      rewrite Hitems. f_equal. lia.
Qed.

(** ** The preset: best sweep point, target rates, concurrency cap *)

Section preset_plan.

Lemma Qltb_lt (x y : Q) : Qltb x y = true ↔ (x < y)%Q.
Proof.
  unfold Qltb. rewrite negb_true_iff. split.
  - intros H. apply Qnot_le_lt. intros Hle.
    apply Qle_bool_iff in Hle. congruence.
  - intros H. destruct (Qle_bool y x) eqn:E; [|reflexivity].
    apply Qle_bool_iff in E. exfalso. exact (Qlt_not_le _ _ H E).
Qed.

Lemma Qltb_ge (x y : Q) : Qltb x y = false ↔ (y <= x)%Q.
Proof.
  unfold Qltb. rewrite negb_false_iff. apply Qle_bool_iff.
Qed.

Lemma py_max_Qmax (a b : Q) : Qeq (py_max a b) (Qmax a b).
Proof.
  unfold py_max. destruct (Qltb a b) eqn:E.
  - apply Qltb_lt in E. symmetry. apply Q.max_r. now apply Qlt_le_weak.
  - apply Qltb_ge in E. symmetry. now apply Q.max_l.
Qed.

Lemma py_max_floor (a b : Q) : (a <= py_max a b)%Q.
Proof.
  unfold py_max. destruct (Qltb a b) eqn:E.
  - apply Qltb_lt in E. now apply Qlt_le_weak.
  - apply Qle_refl.
Qed.

Context {A : Type} (key : A → Q).

(** [max] keeps the first of the items with the largest key: every
    item before it has a strictly smaller key, no item after it has a
    larger one. *)
Lemma max_from_first_maximal (best : A) (rest : list A) :
  ∃ pre post,
    best :: rest = pre ++ max_from key best rest :: post
    ∧ Forall (fun x => (key x < key (max_from key best rest))%Q) pre
    ∧ Forall (fun x => (key x <= key (max_from key best rest))%Q) post.
Proof.
  revert best. induction rest as [|x rest IH]; intros best.
  - exists [], []. simpl. auto.
  - simpl. destruct (Qltb (key best) (key x)) eqn:E.
    + apply Qltb_lt in E.
      destruct (IH x) as (pre & post & Heq & Hpre & Hpost).
      exists (best :: pre), post. split; [simpl; congruence|]. split; [|exact Hpost].
      constructor; [|exact Hpre].
      destruct pre as [|y pre].
      * simpl in Heq. injection Heq as Hx _. rewrite <- Hx. exact E.
      * simpl in Heq. injection Heq as Hx _. subst y.
        apply Forall_cons in Hpre as [Hlt _].
        eapply Qlt_trans; eauto.
    + apply Qltb_ge in E.
      destruct (IH best) as (pre & post & Heq & Hpre & Hpost).
      destruct pre as [|y pre].
      * simpl in Heq. injection Heq as Hbest Hrest.
        exists [], (x :: post). simpl. split; [congruence|]. split; [constructor|].
        constructor; [|exact Hpost]. rewrite <- Hbest. exact E.
      * simpl in Heq. injection Heq as Hy Hrest. subst y.
        exists (best :: x :: pre), post. split; [simpl; congruence|].
        split; [|exact Hpost].
        apply Forall_cons in Hpre as [Hlt Hpre].
        constructor; [exact Hlt|]. constructor; [|exact Hpre].
        eapply Qle_lt_trans; eauto.
Qed.

End preset_plan.

Lemma Qtrunc_half_nonneg (c : Z) :
  0 <= c → Qtrunc ((5#2) * inject_Z c) = 5 * c / 2.
Proof.
  intros Hc. rewrite Qtrunc_nonneg.
  - unfold Qfloor. simpl. f_equal; lia.
  - simpl. lia.
Qed.

(** Each item of a [for] loop that returns has produced its row. *)
Lemma for_each_Forall2 {S A B} (body : A → M S B) (xs : list A) :
  ∀ s rows s',
    for_each xs body s = Value rows s' →
    Forall2 (fun x row => ∃ t t', body x t = Value row t') xs rows.
Proof.
  induction xs as [|x xs IH]; intros s rows s'; simpl.
  - intros [= <- _]. constructor.
  - unfold bind. destruct (body x s) as [b t| | |] eqn:Hb; try discriminate.
    destruct (for_each xs body t) as [rest t'| | |] eqn:Hrest; try discriminate.
    intros [= <- _]. constructor; [eauto|]. eapply IH, Hrest.
Qed.

Section preset_run.

Variable check_bracketed_host : string → bool.
Variable world : nat → run_env.

(** [run_preset] runs the sweep, derives the plan from its results, and
    then makes one call of [run_open] per target rate of the plan, in
    their order, each with the target as rate and the cap of the plan as
    concurrency; the row written for a target holds the summary of that
    call. *)
Lemma run_preset_follows_plan url profile timeout config calls rows calls' :
  run_preset check_bracketed_host world url profile timeout config calls = Value rows calls' →
  let preset := _preset_from_config profile config in
  let per_target := open_runs_per_summary (open_warmup_sec preset) (closed_repeat preset) in
  ∃ results mid plan sweep_rows open_rows,
    run_sweep check_bracketed_host world url (total_per_c preset) (concurrencies preset)
      timeout (closed_warmup preset) (closed_repeat preset) false calls = Value results mid
    ∧ plan_open_loop results = Ok plan
    ∧ rows = sweep_rows ++ open_rows
    ∧ length sweep_rows = length results
    ∧ length open_rows = length (open_targets_rps plan)
    ∧ ∀ i target r,
        open_targets_rps plan !! i = Some target → open_rows !! i = Some r →
        ∃ open_summary,
          run_open check_bracketed_host world url target (open_duration preset)
            (concurrency_cap plan) timeout (open_warmup_sec preset) (closed_repeat preset) false
            (mid + i * per_target)%nat
          = Value open_summary (mid + Datatypes.S i * per_target)%nat
          ∧ r = {| phase := "open_loop"; profile := profile; url := url;
                   concurrency := concurrency_cap plan;
                   total_requests := None;
                   open_duration_sec := Some (open_duration preset);
                   warmup := open_warmup_sec preset;
                   repeat := closed_repeat preset;
                   open_target_rps := Some target;
                   throughput_rps := Summary.throughput open_summary;
                   p50_ms := Summary.p50_ms open_summary;
                   p90_ms := Summary.p90_ms open_summary;
                   p99_ms := Summary.p99_ms open_summary;
                   errors := Summary.errors open_summary |}.
Proof.
  intros Hrun preset per_target. unfold run_preset, bind in Hrun. fold preset in Hrun.
  destruct (run_sweep _ _ _ _ _ _ _ _ _ calls) as [results mid| | |] eqn:Hsweep;
    try discriminate.
  unfold lift in Hrun.
  destruct (plan_open_loop results) as [plan|e] eqn:Hplan; [|discriminate].
  unfold ret at 1 in Hrun.
  match type of Hrun with
  | context [for_each ?xs ?body mid] =>
    destruct (for_each xs body mid) as [open_rows t| | |] eqn:Hopen; try discriminate;
    pose proof (for_each_calls body per_target) as Hcalls
  end.
  injection Hrun as <- _.
  destruct Hcalls with (2 := Hopen) as (_ & Hlen & Hitems).
  { intros target c r c'. unfold bind.
    destruct (run_open _ _ _ _ _ _ _ _ _ _ c) as [open_summary u| | |] eqn:Hone;
      try discriminate.
    intros [= _ <-].
    exact (proj1 (run_open_runs _ _ _ _ _ _ _ _ _ _ _ _ _ Hone)). }
  eexists results, mid, plan, _, open_rows.
  split; [reflexivity|]. split; [exact Hplan|]. split; [reflexivity|].
  split; [apply length_map|]. split; [exact Hlen|].
  intros i target r Htarget Hr. specialize (Hitems i target r Htarget Hr).
  unfold bind in Hitems.
  destruct (run_open _ _ _ _ _ _ _ _ _ _ (mid + i * per_target)%nat)
    as [open_summary u| | |] eqn:Hone; try discriminate.
  injection Hitems as Hrow Hcalls'. exists open_summary.
  split; [f_equal; exact Hcalls'|symmetry; exact Hrow].
Qed.

End preset_run.

(** C3, as the code has it.  On a non-empty sweep, [best] is the first
    of the sweep points with the largest median throughput; the three
    target rates are max(50, 0.5 T), max(50, 0.9 T) and max(50, 1.1 T) for
    its throughput T, so each is at least 50; the concurrency cap is
    min(int(2.5 C), 2000) for its concurrency C, the product being
    truncated to an integer: floor(5 C / 2) for the concurrencies C >= 0
    that a semaphore accepts.  A run of the preset that returns has made
    its open-loop runs with this plan, computed from the results of its
    own sweep: one call of [run_open] per target rate, in order, with
    that target as its rate and the cap of the plan as its concurrency,
    and the row written for the target holds the summary of that call. *)
Theorem preset_plan_best_targets_cap (results : list (Z * Summary.t)) :
  (∀ check_bracketed_host world url profile timeout config calls rows calls',
      run_preset check_bracketed_host world url profile timeout config calls
      = Value rows calls' →
      let preset := _preset_from_config profile config in
      let per_target := open_runs_per_summary (open_warmup_sec preset) (closed_repeat preset) in
      ∃ results mid plan sweep_rows open_rows,
        run_sweep check_bracketed_host world url (total_per_c preset) (concurrencies preset)
          timeout (closed_warmup preset) (closed_repeat preset) false calls
        = Value results mid
        ∧ plan_open_loop results = Ok plan
        ∧ rows = sweep_rows ++ open_rows
        ∧ length sweep_rows = length results
        ∧ length open_rows = length (open_targets_rps plan)
        ∧ ∀ i target r,
            open_targets_rps plan !! i = Some target → open_rows !! i = Some r →
            ∃ open_summary,
              run_open check_bracketed_host world url target (open_duration preset)
                (concurrency_cap plan) timeout (open_warmup_sec preset)
                (closed_repeat preset) false (mid + i * per_target)%nat
              = Value open_summary (mid + Datatypes.S i * per_target)%nat
              ∧ r = {| phase := "open_loop"; profile := profile; url := url;
                       concurrency := concurrency_cap plan;
                       total_requests := None;
                       open_duration_sec := Some (open_duration preset);
                       warmup := open_warmup_sec preset;
                       repeat := closed_repeat preset;
                       open_target_rps := Some target;
                       throughput_rps := Summary.throughput open_summary;
                       p50_ms := Summary.p50_ms open_summary;
                       p90_ms := Summary.p90_ms open_summary;
                       p99_ms := Summary.p99_ms open_summary;
                       errors := Summary.errors open_summary |})
  ∧ (results ≠ [] →
  ∃ plan pre best post,
    plan_open_loop results = Ok plan
    ∧ results = pre ++ best :: post
    ∧ Forall (fun r => (Summary.throughput (snd r) < Summary.throughput (snd best))%Q) pre
    ∧ Forall (fun r => (Summary.throughput (snd r) <= Summary.throughput (snd best))%Q) post
    ∧ best_concurrency plan = fst best
    ∧ calibrated_rps plan = Summary.throughput (snd best)
    ∧ (∃ under near over,
         open_targets_rps plan = [under; near; over]
         ∧ Qeq under (Qmax 50 ((1#2) * calibrated_rps plan))
         ∧ Qeq near (Qmax 50 ((9#10) * calibrated_rps plan))
         ∧ Qeq over (Qmax 50 ((11#10) * calibrated_rps plan)))
    ∧ Forall (fun target => (50 <= target)%Q) (open_targets_rps plan)
    ∧ concurrency_cap plan = Z.min (Qtrunc ((5#2) * inject_Z (best_concurrency plan))) 2000
    ∧ (0 <= best_concurrency plan →
       concurrency_cap plan = Z.min (5 * best_concurrency plan / 2) 2000)).
Proof.
  split.
  { intros ck world url profile timeout config calls rows calls' Hrun.
    exact (run_preset_follows_plan ck world url profile timeout config calls rows calls' Hrun). }
  intros Hne. destruct results as [|first rest]; [done|].
  destruct (max_from_first_maximal (fun x => Summary.throughput (snd x)) first rest)
    as (pre & post & Heq & Hpre & Hpost).
  set (best := max_from (fun x => Summary.throughput (snd x)) first rest) in *.
  unfold plan_open_loop, max_by. fold best.
  destruct best as [c summary] eqn:Hbest.
  eexists _, pre, (c, summary), post.
  split; [reflexivity|]. split; [exact Heq|].
  split; [exact Hpre|]. split; [exact Hpost|].
  simpl. split; [reflexivity|]. split; [reflexivity|].
  split.
  { eexists _, _, _. split; [reflexivity|]. repeat split; apply py_max_Qmax. }
  split.
  { repeat constructor; apply py_max_floor. }
  split; [reflexivity|].
  intros Hc. rewrite Qtrunc_half_nonneg by exact Hc. reflexivity.
Qed.

Lemma preset_plan_best_targets_cap_witness :
  let results := [sweep_point 1 40; sweep_point 5 90; sweep_point 10 90] in
  (results ≠ []
   ∧ ∃ plan, plan_open_loop results = Ok plan
             ∧ best_concurrency plan = 5
             ∧ concurrency_cap plan = 12
             ∧ Forall (fun target => (50 <= target)%Q) (open_targets_rps plan))
  ∧ ∃ rows sweep plan sweep_rows open_rows,
      run_preset no_bracket_check one_request_world "http://127.0.0.1:8000/" "smoke" 5
        tiny_smoke 0%nat = Value rows 4%nat
      ∧ plan_open_loop sweep = Ok plan
      ∧ rows = sweep_rows ++ open_rows
      ∧ length open_rows = length (open_targets_rps plan).
Proof.
  intros results.
  assert (Hne : results ≠ []) by discriminate.
  split.
  - split; [exact Hne|].
    destruct (proj2 (preset_plan_best_targets_cap results) Hne)
      as (plan & pre & best & post & Hplan & _ & _ & _ & _ & _ & _ & Hfloor & _ & _).
    exists plan. split; [exact Hplan|].
    vm_compute in Hplan. injection Hplan as <-.
    split; [reflexivity|]. split; [reflexivity|]. exact Hfloor.
  - assert (Hrun : ∃ rows,
      run_preset no_bracket_check one_request_world "http://127.0.0.1:8000/" "smoke" 5
        tiny_smoke 0%nat = Value rows 4%nat) by (eexists; vm_compute; reflexivity).
    destruct Hrun as [rows Hrun].
    destruct (proj1 (preset_plan_best_targets_cap results) _ _ _ _ _ _ _ _ _ Hrun)
      as (sweep & mid & plan & sweep_rows & open_rows & _ & Hplan & Hrows & _ & Hlen & _).
    exists rows, sweep, plan, sweep_rows, open_rows.
    split; [exact Hrun|]. split; [exact Hplan|]. split; [exact Hrows|exact Hlen].
Defined.

(** C3, as stated, fails where 2.5 times the best concurrency is not an
    integer: with a single sweep point of concurrency 1 the cap is 2,
    not min(2.5, 2000) = 2.5. *)
Lemma concurrency_cap_is_truncated :
  match plan_open_loop [sweep_point 1 100] with
  | Ok plan =>
    concurrency_cap plan = 2
    ∧ ¬ Qeq (inject_Z (concurrency_cap plan))
            (Qmin ((5#2) * inject_Z (best_concurrency plan)) 2000)
  | Err _ => False
  end.
Proof. vm_compute. split; [reflexivity|discriminate]. Qed.

(** ** Repeat counts *)

Section repeat_zero.

Variable check_bracketed_host : string → bool.
Variable world : nat → run_env.

Lemma run_closed_no_repeat url total concurrency timeout warmup quiet calls :
  (∀ s calls',
      run_closed check_bracketed_host world url total concurrency timeout warmup 0 quiet calls
      = Value s calls' → s = zero_summary)
  ∧ (warmup <= 0 →
     run_closed check_bracketed_host world url total concurrency timeout warmup 0 quiet calls
     = Value zero_summary calls).
Proof.
  unfold run_closed, bind. split.
  - intros s calls'. destruct (0 <? warmup).
    + destruct (_closed_once _ _ _ _ _ _ _ _) as [r n|e n| |]; simpl; try discriminate.
      intros [= <- _]. reflexivity.
    + simpl. intros [= <- _]. reflexivity.
  - intros Hw. destruct (Z.ltb_spec 0 warmup); [lia|]. reflexivity.
Qed.

Lemma run_open_no_repeat url rps duration concurrency timeout warmup_sec quiet calls :
  (∀ s calls',
      run_open check_bracketed_host world url rps duration concurrency timeout warmup_sec 0 quiet calls
      = Value s calls' → s = zero_summary)
  ∧ ((warmup_sec <= 0)%Q →
     run_open check_bracketed_host world url rps duration concurrency timeout warmup_sec 0 quiet calls
     = Value zero_summary calls).
Proof.
  unfold run_open, bind. split.
  - intros s calls'. destruct (Qltb 0 warmup_sec).
    + destruct (_open_once _ _ _ _ _ _ _ _ _) as [r n|e n| |]; simpl; try discriminate.
      intros [= <- _]. reflexivity.
    + simpl. intros [= <- _]. reflexivity.
  - intros Hw. apply Qltb_ge in Hw. rewrite Hw. reflexivity.
Qed.

End repeat_zero.

(** C4, as the code has it.  A repeat count of 0 is not rejected: the
    closed-loop and the open-loop runner make no measured run and
    return the summary whose fields are all zero (the median of no value
    is 0, and the sum of no error count is divided by max(repeat, 1));
    without a warm-up they return it without issuing a request. *)
Theorem repeat_zero_yields_zero_summary
    (check_bracketed_host : string → bool) (world : nat → run_env)
    (url : string) (total concurrency : Z) (timeout : Q) (warmup : Z)
    (rps duration warmup_sec : Q) (quiet : bool) (calls : nat) :
  (∀ s calls',
      run_closed check_bracketed_host world url total concurrency timeout warmup 0 quiet calls
      = Value s calls' → s = zero_summary)
  ∧ (warmup <= 0 →
     run_closed check_bracketed_host world url total concurrency timeout warmup 0 quiet calls
     = Value zero_summary calls)
  ∧ (∀ s calls',
      run_open check_bracketed_host world url rps duration concurrency timeout warmup_sec 0 quiet calls
      = Value s calls' → s = zero_summary)
  ∧ ((warmup_sec <= 0)%Q →
     run_open check_bracketed_host world url rps duration concurrency timeout warmup_sec 0 quiet calls
     = Value zero_summary calls).
Proof.
  destruct (run_closed_no_repeat check_bracketed_host world
              url total concurrency timeout warmup quiet calls) as [Hc1 Hc2].
  destruct (run_open_no_repeat check_bracketed_host world
              url rps duration concurrency timeout warmup_sec quiet calls) as [Ho1 Ho2].
  auto.
Qed.

Lemma repeat_zero_yields_zero_summary_witness :
  (0 <= 0)%Z ∧ (0 <= 0)%Q
  ∧ run_closed no_bracket_check three_requests_world "http://127.0.0.1:8000/" 1000 100 5 0 0 false 0%nat
    = Value zero_summary 0%nat
  ∧ run_open no_bracket_check open_loop_world "http://127.0.0.1:8000/" 1000 10 500 5 0 0 false 0%nat
    = Value zero_summary 0%nat.
Proof.
  assert (Hz : (0 <= 0)%Z) by lia.
  assert (Hq : (0 <= 0)%Q) by apply Qle_refl.
  split; [exact Hz|]. split; [exact Hq|].
  split.
  - exact (proj1 (proj2 (repeat_zero_yields_zero_summary no_bracket_check three_requests_world
             "http://127.0.0.1:8000/" 1000 100 5 0 1000 10 0 false 0%nat)) Hz).
  - exact (proj2 (proj2 (proj2 (repeat_zero_yields_zero_summary no_bracket_check open_loop_world
             "http://127.0.0.1:8000/" 1000 500 5 0 1000 10 0 false 0%nat))) Hq).
Defined.

(** C4, as stated, fails: called with repeat = 0 (the other arguments
    being the defaults of the command line), both runners return a
    result, the all-zero summary. *)
Lemma repeat_zero_is_accepted :
  run_closed no_bracket_check three_requests_world "http://127.0.0.1:8000/" 1000 100 5 0 0 false 0%nat
  = Value zero_summary 0%nat
  ∧ run_open no_bracket_check open_loop_world "http://127.0.0.1:8000/" 1000 10 500 5 0 0 false 0%nat
    = Value zero_summary 0%nat.
Proof. split; reflexivity. Qed.

(** ** One request and its timeouts *)

Section one_request.

Lemma wait_for_exceeds {A} (aw : awaited A) (timeout : Q) :
  exceeds aw timeout → wait_for aw timeout = Fails timeout TimeoutError.
Proof.
  destruct aw as [e v|e x|]; simpl; [| |reflexivity]; intros H;
    (destruct (Qle_bool e timeout) eqn:E; [|reflexivity]);
    apply Qle_bool_iff in E; exfalso; exact (Qlt_not_le _ _ H E).
Qed.

Lemma wait_for_in_time {A} (aw : awaited A) (timeout : Q) :
  completes_in_time aw timeout → wait_for aw timeout = aw.
Proof.
  destruct aw as [e v|e x|]; simpl; try contradiction.
  intros H. apply Qle_bool_iff in H. rewrite H. reflexivity.
Qed.

Lemma delivers_chunk (aw : awaited (list byte)) (timeout : Q) :
  delivers aw timeout →
  ∃ e b chunk, aw = Completes e (b :: chunk) ∧ wait_for aw timeout = aw.
Proof.
  destruct aw as [e [|b chunk]|e x|]; simpl; try contradiction.
  intros H. exists e, b, chunk. split; [reflexivity|].
  apply Qle_bool_iff in H. rewrite H. reflexivity.
Qed.

Variables (server : peer) (timeout : Q).

(** The read loop stops at the first [read] that exceeds the timeout. *)
Lemma read_until_eof_timeout (n : nat) :
  ∀ fuel k now,
    (∀ j, (j < n)%nat → delivers (read server (k + j)) timeout) →
    exceeds (read server (k + n)) timeout →
    (n < fuel)%nat →
    ∃ t, read_until_eof fuel server timeout k now = Raised TimeoutError t.
Proof.
  induction n as [|n IH]; intros fuel k now Hbefore Hlate Hfuel;
    (destruct fuel as [|fuel]; [lia|]); simpl; unfold bind.
  - rewrite Nat.add_0_r in Hlate. rewrite (wait_for_exceeds _ _ Hlate). simpl. eauto.
  - destruct (delivers_chunk _ _ (Hbefore 0%nat ltac:(lia))) as (e & b & chunk & Hread & Hwait).
    rewrite Nat.add_0_r in Hread, Hwait. rewrite Hwait, Hread. simpl.
    apply IH.
    + intros j Hj. replace (Datatypes.S k + j)%nat with (k + Datatypes.S j)%nat by lia.
      apply Hbefore. lia.
    + replace (Datatypes.S k + n)%nat with (k + Datatypes.S n)%nat by lia. exact Hlate.
    + lia.
Qed.

Variables (fuel : nat) (host : string) (port : Z) (request_bytes : list byte) (now : Q).

Lemma one_request_connect_timeout :
  exceeds (connect server) timeout →
  ∃ t, one_request server fuel host port request_bytes timeout now = Value (-1)%Q t.
Proof.
  intros H. unfold one_request, bind, try_except, perf_counter.
  rewrite (wait_for_exceeds _ _ H). simpl. eauto.
Qed.

Lemma one_request_read_timeout (k : nat) :
  completes_in_time (connect server) timeout →
  (∃ e v, drain server = Completes e v) →
  (∀ j, (j < k)%nat → delivers (read server j) timeout) →
  exceeds (read server k) timeout →
  (k < fuel)%nat →
  ∃ t, one_request server fuel host port request_bytes timeout now = Value (-1)%Q t.
Proof.
  intros Hconnect (e & v & Hdrain) Hbefore Hlate Hfuel.
  unfold one_request, bind, try_except, perf_counter.
  rewrite (wait_for_in_time _ _ Hconnect).
  destruct (connect server) as [c u|c x|]; simpl in Hconnect; try contradiction.
  simpl. rewrite Hdrain. simpl.
  destruct (read_until_eof_timeout k fuel 0%nat (now + c + e)%Q Hbefore Hlate Hfuel)
    as [t Ht].
  rewrite Ht. unfold ret. eauto.
Qed.

Lemma one_request_drain_never :
  completes_in_time (connect server) timeout →
  drain server = Never →
  one_request server fuel host port request_bytes timeout now = Hangs.
Proof.
  intros Hconnect Hdrain.
  unfold one_request, bind, try_except, perf_counter.
  rewrite (wait_for_in_time _ _ Hconnect).
  destruct (connect server) as [c u|c x|]; simpl in Hconnect; try contradiction.
  simpl. rewrite Hdrain. reflexivity.
Qed.

Lemma one_request_drain_late (c e r w : Q) (u v x : unit) :
  connect server = Completes c u → (c <= timeout)%Q →
  drain server = Completes e v →
  read server 0 = Completes r [] → (r <= timeout)%Q →
  wait_closed server = Completes w x →
  (0 < fuel)%nat →
  ∃ latency t,
    one_request server fuel host port request_bytes timeout now = Value latency t
    ∧ Qeq latency (c + e + r + w).
Proof.
  intros Hconnect Hc Hdrain Hread Hr Hclose Hfuel.
  unfold one_request, bind, try_except, perf_counter.
  rewrite Hconnect. simpl. apply Qle_bool_iff in Hc. rewrite Hc. simpl.
  rewrite Hdrain. simpl.
  destruct fuel as [|fuel']; [lia|]. simpl. unfold bind.
  rewrite Hread. simpl. apply Qle_bool_iff in Hr. rewrite Hr. simpl.
  rewrite Hclose. simpl. unfold ret.
  eexists _, _. split; [reflexivity|]. ring.
Qed.

End one_request.

(** The awaits of [one_request] and the timeout.  Connection
    establishment and each read call are wrapped in [wait_for]: exceeding
    the timeout at either yields Failure (the value -1).  The await of
    [drain] is not wrapped: while the write does not complete the request
    blocks, and when it completes late the request goes on, its latency
    including the wait. *)
Lemma one_request_timeouts
    (server : peer) (fuel : nat) (host : string) (port : Z)
    (request_bytes : list byte) (timeout now : Q) :
  (exceeds (connect server) timeout →
   ∃ t, one_request server fuel host port request_bytes timeout now = Value (-1)%Q t)
  ∧ (∀ k,
       completes_in_time (connect server) timeout →
       (∃ e v, drain server = Completes e v) →
       (∀ j, (j < k)%nat → delivers (read server j) timeout) →
       exceeds (read server k) timeout →
       (k < fuel)%nat →
       ∃ t, one_request server fuel host port request_bytes timeout now = Value (-1)%Q t)
  ∧ (completes_in_time (connect server) timeout →
     drain server = Never →
     one_request server fuel host port request_bytes timeout now = Hangs)
  ∧ (∀ c e r w u v x,
       connect server = Completes c u → (c <= timeout)%Q →
       drain server = Completes e v →
       read server 0 = Completes r [] → (r <= timeout)%Q →
       wait_closed server = Completes w x →
       (0 < fuel)%nat →
       ∃ latency t,
         one_request server fuel host port request_bytes timeout now = Value latency t
         ∧ Qeq latency (c + e + r + w)).
Proof.
  split; [apply one_request_connect_timeout|].
  split; [intros k; apply one_request_read_timeout|].
  split; [apply one_request_drain_never|].
  intros c e r w u v x. apply one_request_drain_late.
Qed.

Lemma one_request_timeouts_witness :
  (∃ t, one_request slow_accept_server 8 "127.0.0.1" 8000 [] 5 0%Q = Value (-1)%Q t)
  ∧ (∃ t, one_request silent_server 8 "127.0.0.1" 8000 [] 5 0%Q = Value (-1)%Q t)
  ∧ one_request stuck_drain_server 8 "127.0.0.1" 8000 [] 5 0%Q = Hangs
  ∧ (∃ latency t,
       one_request slow_drain_server 8 "127.0.0.1" 8000 [] 5 0%Q = Value latency t
       ∧ Qeq latency ((1#100) + 10 + (1#100) + 0)).
Proof.
  split; [|split; [|split]].
  - apply (proj1 (one_request_timeouts slow_accept_server 8 "127.0.0.1" 8000 [] 5 0%Q)).
    simpl. reflexivity.
  - apply (proj1 (proj2 (one_request_timeouts silent_server 8 "127.0.0.1" 8000 [] 5 0%Q)) 1%nat).
    + simpl. discriminate.
    + exists 0%Q, tt. reflexivity.
    + intros j Hj. assert (j = 0%nat) as -> by lia. simpl. discriminate.
    + simpl. exact I.
    + lia.
  - apply (proj1 (proj2 (proj2 (one_request_timeouts stuck_drain_server 8 "127.0.0.1" 8000 [] 5 0%Q)))).
    + simpl. discriminate.
    + reflexivity.
  - apply (proj2 (proj2 (proj2 (one_request_timeouts slow_drain_server 8 "127.0.0.1" 8000 [] 5 0%Q)))
             (1#100)%Q 10%Q (1#100)%Q 0%Q tt tt tt); try reflexivity; try discriminate.
    lia.
Defined.


(** ** The pool of tasks *)

Section pool.

Variables (host : string) (port : Z) (request_bytes : list byte) (timeout : Q).

(** Replacing one item of a list moves the count of a predicate by the
    difference between the old and the new item. *)
Lemma filter_insert_length (P : task_state → Prop) `{!∀ t, Decision (P t)}
    (l : list task_state) (i : nat) (x y : task_state) :
  l !! i = Some x →
  (length (filter P (<[i := y]> l)) + (if decide (P x) then 1 else 0)
   = length (filter P l) + (if decide (P y) then 1 else 0))%nat.
Proof.
  revert i. induction l as [|a l IH]; intros i Hi; [done|].
  destruct i as [|i]; simpl in *.
  - injection Hi as ->. rewrite !filter_cons.
    destruct (decide (P x)), (decide (P y)); simpl; lia.
  - specialize (IH i Hi). rewrite !filter_cons.
    destruct (decide (P a)); simpl; lia.
Qed.

Lemma pool_step_change (e : event) (s : pool) :
  pool_change s (pool_step host port request_bytes timeout e s).
Proof.
  destruct e as [task|task server fuel|task|now|]; simpl; try (now apply unchanged).
  - unfold perform_request_enter.
    destruct (tasks s !! task) as [[| |]|] eqn:Ht; try (now apply unchanged).
    destruct (semaphore s) as [|free] eqn:Hs; [now apply unchanged|].
    now apply (entered _ _ task).
  - unfold perform_request_leave.
    destruct (tasks s !! task) as [[| |]|] eqn:Ht; try (now apply unchanged).
    destruct (one_request _ _ _ _ _ _ _) as [duration t|x t| |]; try (now apply unchanged).
    apply (left _ _ task); simpl; try done.
    destruct (Qltb duration 0); [lia|]. rewrite length_app. simpl. lia.
Qed.

Lemma pool_change_inv (permits : nat) (s s' : pool) :
  pool_change s s' → pool_inv permits s →
  pool_inv permits s' ∧ length (tasks s') = length (tasks s).
Proof.
  intros Hchange [Hsem Hout]. unfold pool_inv, executing, completed in *.
  destruct Hchange as [->|task Ht Hs Hts Hl He|task Ht Hs Hts Hrec]; [done| |].
  - rewrite Hts, Hl, He, length_insert.
    pose proof (filter_insert_length (fun t => t = Executing) _ _ _ Executing Ht) as H1.
    pose proof (filter_insert_length (fun t => t = Done) _ _ _ Executing Ht) as H2.
    repeat case_decide; try congruence. lia.
  - rewrite Hts, length_insert.
    pose proof (filter_insert_length (fun t => t = Executing) _ _ _ Done Ht) as H1.
    pose proof (filter_insert_length (fun t => t = Done) _ _ _ Done Ht) as H2.
    repeat case_decide; try congruence. lia.
Qed.

Lemma closed_run_inv (permits : nat) (events : list event) :
  ∀ s, pool_inv permits s →
       pool_inv permits (closed_run host port request_bytes timeout events s)
       ∧ length (tasks (closed_run host port request_bytes timeout events s))
         = length (tasks s).
Proof.
  induction events as [|e events IH]; intros s Hinv; [done|]. simpl.
  destruct (pool_change_inv permits _ _ (pool_step_change e s) Hinv) as [Hinv' Hlen].
  destruct (IH _ Hinv') as [H1 H2]. split; [exact H1|congruence].
Qed.

Lemma closed_start_inv (permits : nat) (total_requests : Z) :
  pool_inv permits (closed_start permits total_requests)
  ∧ length (tasks (closed_start permits total_requests)) = Z.to_nat total_requests.
Proof.
  unfold pool_inv, executing, completed, closed_start. simpl.
  rewrite length_replicate.
  induction (Z.to_nat total_requests) as [|n [[IH1 IH2] _]]; [done|].
  simpl. rewrite !filter_cons. repeat case_decide; try congruence. auto.
Qed.

Lemma all_done_completed (ts : list task_state) :
  all_done ts = true → length (filter (fun t => t = Done) ts) = length ts.
Proof.
  unfold all_done. induction ts as [|t ts IH]; [done|]. simpl.
  intros [Ht Hts]%andb_true_iff. apply bool_decide_eq_true in Ht.
  rewrite filter_cons. case_decide; [|done]. simpl. rewrite IH; done.
Qed.

Lemma all_done_outstanding (ts : list task_state) :
  all_done ts = true → length (filter (fun t => t ≠ Done) ts) = 0%nat.
Proof.
  unfold all_done. induction ts as [|t ts IH]; [done|]. simpl.
  intros [Ht Hts]%andb_true_iff. apply bool_decide_eq_true in Ht.
  rewrite filter_cons. case_decide; [done|]. auto.
Qed.

End pool.

(** C6.  A closed-loop run asked for N >= 0 requests creates N tasks;
    at every moment each task that is done has contributed exactly one
    outcome, a latency sample or an error increment; the summary is
    computed once all N are done, and its error count plus its success
    count is N. *)
Theorem closed_once_counts_every_request
    (check_bracketed_host : string → bool) (world : nat → run_env)
    (url : string) (total_requests concurrency : Z) (timeout : Q) (verbose : bool)
    (calls : nat) :
  0 <= total_requests →
  (∀ host port request_bytes permits events,
      let s := closed_run host port request_bytes timeout events
                 (closed_start permits total_requests) in
      Z.of_nat (length (tasks s)) = total_requests
      ∧ (error_count s + length (latencies s) = completed s)%nat
      ∧ (all_done (tasks s) = true →
         Z.of_nat (error_count s + length (latencies s)) = total_requests))
  ∧ (∀ r calls',
      _closed_once check_bracketed_host world url total_requests concurrency timeout
        verbose calls = Value r calls' →
      Z.of_nat (Once.errors r + Stats.successful_requests (Once.stats r)) = total_requests).
Proof.
  intros Hn.
  assert (Hstates : ∀ host port request_bytes permits events,
      let s := closed_run host port request_bytes timeout events
                 (closed_start permits total_requests) in
      Z.of_nat (length (tasks s)) = total_requests
      ∧ (error_count s + length (latencies s) = completed s)%nat
      ∧ (all_done (tasks s) = true →
         Z.of_nat (error_count s + length (latencies s)) = total_requests)).
  { intros host port request_bytes permits events s.
    destruct (closed_start_inv permits total_requests) as [Hinv0 Hlen0].
    destruct (closed_run_inv host port request_bytes timeout permits events _ Hinv0)
      as [[_ Hout] Hlen].
    fold s in Hout, Hlen.
    assert (Hlen' : Z.of_nat (length (tasks s)) = total_requests) by lia.
    split; [exact Hlen'|]. split; [exact Hout|].
    intros Hdone. rewrite Hout. unfold completed.
    rewrite (all_done_completed _ Hdone). exact Hlen'. }
  split; [exact Hstates|].
  intros r calls'. unfold _closed_once, bind, lift.
  destruct (build_http_get check_bracketed_host url) as [[[host port] request_bytes]|e];
    [|discriminate]. simpl.
  destruct (Semaphore concurrency) as [permits|e]; [|discriminate]. simpl.
  unfold next_env.
  destruct (Hstates host port request_bytes permits (schedule (world calls)))
    as (_ & _ & Hall).
  destruct (all_done _) eqn:Hdone; [|discriminate].
  intros [= <- _]. simpl. rewrite sorted_length.
  apply Hall. reflexivity.
Qed.

Lemma closed_once_counts_every_request_witness :
  0 <= 3
  ∧ ∃ r calls',
      _closed_once no_bracket_check three_requests_world "http://127.0.0.1:8000/" 3 2 5
        false 0%nat = Value r calls'
      ∧ Once.errors r = 1%nat
      ∧ Stats.successful_requests (Once.stats r) = 2%nat
      ∧ Z.of_nat (Once.errors r + Stats.successful_requests (Once.stats r)) = 3.
Proof.
  assert (Hn : 0 <= 3) by lia.
  split; [exact Hn|].
  eexists _, _. split; [vm_compute; reflexivity|].
  split; [reflexivity|]. split; [reflexivity|].
  apply (proj2 (closed_once_counts_every_request no_bracket_check three_requests_world
                  "http://127.0.0.1:8000/" 3 2 5 false 0%nat Hn)
           _ 1%nat).
  vm_compute. reflexivity.
Defined.

(** ** The open loop *)

Section open_loop.

Variables (host : string) (port : Z) (request_bytes : list byte) (timeout : Q).
Variables (start_time duration_sec schedule_interval_seconds : Q) (concurrency_cap : Z).

Lemma pool_change_covered (X : gset nat) (s s' : pool) :
  pool_change s s' → covered X (tasks s) → covered X (tasks s').
Proof.
  intros Hchange Hcov.
  destruct Hchange as [->|task Ht Hs Hts Hl He|task Ht Hs Hts Hrec]; [done| |];
    intros i t Hi Hnd; rewrite Hts in Hi;
    apply list_lookup_insert_Some in Hi as [(-> & <- & _)|[_ Hi]]; eauto.
Qed.

(** No more tasks are outstanding than the covering set has members. *)
Lemma covered_outstanding (ts : list task_state) :
  ∀ X : gset nat, covered X ts → (length (filter (fun t => t ≠ Done) ts) <= size X)%nat.
Proof.
  induction ts as [|t ts IH] using rev_ind; intros X Hcov; [simpl; lia|].
  rewrite filter_app, length_app, filter_cons, filter_nil.
  assert (Hrest : ∀ Y : gset nat,
             (∀ i, i ∈ X → (i < length ts)%nat → i ∈ Y) → covered Y ts).
  { intros Y HY i u Hi Hu. apply HY.
    - apply (Hcov i u); [|exact Hu]. apply lookup_app_Some. left. exact Hi.
    - eapply lookup_lt_Some, Hi. }
  case_decide as Ht; simpl.
  - assert (Hin : length ts ∈ X).
    { apply (Hcov (length ts) t); [|exact Ht].
      apply lookup_app_Some. right. split; [lia|]. rewrite Nat.sub_diag. reflexivity. }
    specialize (IH (X ∖ {[length ts]})).
    assert (Hsize : (size (X ∖ {[length ts]}) = size X - 1)%nat).
    { rewrite size_difference by set_solver. rewrite size_singleton. reflexivity. }
    assert (Hpos : (0 < size X)%nat).
    { destruct (size X) eqn:E; [|lia]. apply size_empty_inv in E. set_solver. }
    enough (length (filter (fun t => t ≠ Done) ts) <= size (X ∖ {[length ts]}))%nat by lia.
    apply IH, Hrest. intros i Hi Hlt. apply elem_of_difference. split; [exact Hi|].
    rewrite elem_of_singleton. lia.
  - specialize (IH X). enough (length (filter (fun t => t ≠ Done) ts) <= size X)%nat by lia.
    apply IH, Hrest. auto.
Qed.

Lemma covered_empty_all_done (ts : list task_state) :
  covered ∅ ts → all_done ts = true.
Proof.
  intros Hcov. unfold all_done. apply forallb_forall. intros t Hin.
  apply bool_decide_eq_true. apply list_elem_of_In, list_elem_of_lookup in Hin as [i Hi].
  destruct (decide (t = Done)) as [|Hnd]; [done|].
  pose proof (Hcov i t Hi Hnd) as Hin. set_solver.
Qed.

Local Abbreviation step :=
  (open_step host port request_bytes timeout
     start_time duration_sec schedule_interval_seconds concurrency_cap).

Lemma open_step_inv (e : event) (s : open_loop) :
  open_inv concurrency_cap s → open_inv concurrency_cap (step e s).
Proof.
  intros Hinv. pose proof Hinv as (Hpool & Hcov & Hsize & Hphase).
  assert (Hworkers : ∀ e',
    open_inv concurrency_cap
      {| workers := pool_step host port request_bytes timeout e' (workers s);
         in_flight_tasks := in_flight_tasks s;
         next_scheduled_time := next_scheduled_time s;
         loop_phase := loop_phase s |}).
  { intros e'. pose proof (pool_step_change host port request_bytes timeout e' (workers s)) as Hch.
    destruct (pool_change_inv _ _ _ Hch Hpool) as [Hpool' _].
    split; [exact Hpool'|]. simpl. split; [|split; [exact Hsize|]].
    - eapply pool_change_covered; eauto.
    - destruct (loop_phase s); [done| |]; eapply pool_change_covered; eauto. }
  destruct e as [task|task server fuel|task|now|]; simpl.
  - apply (Hworkers (Enter task)).
  - apply (Hworkers (Leave task server fuel)).
  - destruct (tasks (workers s) !! task) as [[| |]|] eqn:Ht; try exact Hinv.
    split; [exact Hpool|]. simpl. split; [|split; [|exact Hphase]].
    + intros i t Hi Hnd. apply elem_of_difference. split; [eauto|].
      rewrite elem_of_singleton. intros ->. congruence.
    + assert (Hsub : in_flight_tasks s ∖ {[task]} ⊆ in_flight_tasks s).
      { intros x Hx. apply elem_of_difference in Hx. tauto. }
      apply subseteq_size in Hsub. lia.
  - unfold loop_iteration.
    destruct (loop_phase s) eqn:Hph; try exact Hinv.
    destruct (Qle_bool duration_sec (now - start_time)).
    { split; [exact Hpool|]. simpl. auto. }
    destruct (Qle_bool (next_scheduled_time s) now
              && (Z.of_nat (size (in_flight_tasks s)) <? 4 * concurrency_cap)) eqn:Hgo;
      [|exact Hinv].
    apply andb_true_iff in Hgo as [_ Hlt]. apply Z.ltb_lt in Hlt.
    destruct Hpool as [Hsem Hout]. unfold executing, completed in *.
    split; [split|split; [|split; [|exact I]]]; simpl.
    + unfold executing. simpl. rewrite filter_app, length_app, filter_cons, filter_nil.
      case_decide; [congruence|]. simpl. lia.
    + unfold completed. simpl. rewrite filter_app, length_app, filter_cons, filter_nil.
      case_decide; [congruence|]. simpl. lia.
    + intros i t Hi Hnd. apply lookup_app_Some in Hi as [Hi|[Hge Hi]].
      * apply elem_of_union. right. eauto.
      * apply elem_of_union. left. apply elem_of_singleton.
        destruct (i - length (tasks (workers s)))%nat eqn:E; [lia|discriminate].
    + pose proof (size_union_alt {[length (tasks (workers s))]} (in_flight_tasks s)) as Hu.
      assert (Hsub : in_flight_tasks s ∖ {[length (tasks (workers s))]} ⊆ in_flight_tasks s).
      { intros x Hx. apply elem_of_difference in Hx. tauto. }
      apply subseteq_size in Hsub. rewrite size_singleton in Hu. lia.
  - destruct (loop_phase s) as [|awaited_tasks|] eqn:Hph; try exact Hinv.
    case_bool_decide as Hall; [|exact Hinv].
    split; [exact Hpool|]. simpl. split; [exact Hcov|split; [exact Hsize|]].
    intros i t Hi Hnd. exfalso. specialize (Hall i (Hphase i t Hi Hnd)). simpl in Hall.
    congruence.
Qed.

Lemma open_run_inv (events : list event) :
  ∀ s, open_inv concurrency_cap s →
       open_inv concurrency_cap
         (open_run host port request_bytes timeout
            start_time duration_sec schedule_interval_seconds concurrency_cap events s).
Proof.
  induction events as [|e events IH]; intros s Hinv; [done|].
  simpl. apply IH, open_step_inv, Hinv.
Qed.

Lemma open_start_inv :
  0 <= concurrency_cap → open_inv concurrency_cap (open_start (Z.to_nat concurrency_cap) start_time).
Proof.
  intros Hcap. split; [split; unfold executing, completed; simpl; lia|].
  split; [intros i t Hi; discriminate Hi|]. split; [|exact I].
  change (in_flight_tasks (open_start (Z.to_nat concurrency_cap) start_time))
    with (∅ : gset nat).
  rewrite size_empty. lia.
Qed.

Lemma open_inv_bounds (s : open_loop) :
  0 <= concurrency_cap →
  open_inv concurrency_cap s →
  Z.of_nat (outstanding (workers s)) <= 4 * concurrency_cap
  ∧ Z.of_nat (executing (workers s)) <= concurrency_cap
  ∧ (loop_phase s = Finished →
     all_done (tasks (workers s)) = true ∧ outstanding (workers s) = 0%nat).
Proof.
  intros Hcap ([Hsem Hout] & Hcov & Hsize & Hphase).
  split; [|split].
  - pose proof (covered_outstanding _ _ Hcov). unfold outstanding. lia.
  - lia.
  - intros Hfin. rewrite Hfin in Hphase.
    pose proof (covered_empty_all_done _ Hphase) as Hdone.
    split; [exact Hdone|]. apply all_done_outstanding, Hdone.
Qed.

End open_loop.

(** C9.  In an open-loop run with cap [concurrency_cap] >= 0, whatever
    the order of events: at most 4 * cap requests are outstanding
    (dispatched and not completed), at most cap of them hold the semaphore
    and execute [one_request], and the loop is finished, so that the
    summary can be computed, only when no request is outstanding.  The
    summary that [_open_once] returns is computed in such a state: its
    error count plus its success count is the number of requests
    dispatched. *)
Theorem open_loop_bounds
    (check_bracketed_host : string → bool) (world : nat → run_env)
    (url : string) (target_rps duration_sec : Q) (concurrency_cap : Z)
    (timeout : Q) (verbose : bool) (calls : nat) :
  0 <= concurrency_cap →
  (∀ host port request_bytes start_time schedule_interval_seconds events,
      let s := open_run host port request_bytes timeout
                 start_time duration_sec schedule_interval_seconds concurrency_cap
                 events (open_start (Z.to_nat concurrency_cap) start_time) in
      Z.of_nat (outstanding (workers s)) <= 4 * concurrency_cap
      ∧ Z.of_nat (executing (workers s)) <= concurrency_cap
      ∧ (loop_phase s = Finished → outstanding (workers s) = 0%nat))
  ∧ (∀ r calls',
      _open_once check_bracketed_host world url target_rps duration_sec concurrency_cap
        timeout verbose calls = Value r calls' →
      ∃ host port request_bytes s,
        s = open_run host port request_bytes timeout
              (started (world calls)) duration_sec
              (1 / py_max target_rps (1 # 1000000000))%Q concurrency_cap
              (schedule (world calls))
              (open_start (Z.to_nat concurrency_cap) (started (world calls)))
        ∧ loop_phase s = Finished
        ∧ outstanding (workers s) = 0%nat
        ∧ r = once_result (workers s) (finished (world calls) - started (world calls))%Q
        ∧ (Once.errors r + Stats.successful_requests (Once.stats r)
           = length (tasks (workers s)))%nat).
Proof.
  intros Hcap.
  assert (Hreach : ∀ host port request_bytes start_time schedule_interval_seconds events,
    open_inv concurrency_cap
      (open_run host port request_bytes timeout
         start_time duration_sec schedule_interval_seconds concurrency_cap
         events (open_start (Z.to_nat concurrency_cap) start_time))).
  { intros. apply open_run_inv, open_start_inv, Hcap. }
  split.
  - intros host port request_bytes start_time schedule_interval_seconds events s.
    destruct (open_inv_bounds concurrency_cap s Hcap (Hreach _ _ _ _ _ _))
      as (Hout & Hexec & Hfin).
    split; [exact Hout|]. split; [exact Hexec|]. intros H. apply Hfin, H.
  - intros r calls'. unfold _open_once, bind, lift.
    destruct (build_http_get check_bracketed_host url) as [[[host port] request_bytes]|e];
      [|discriminate]. simpl.
    unfold Semaphore. destruct (Z.ltb_spec concurrency_cap 0); [lia|]. simpl.
    unfold next_env.
    set (s := open_run _ _ _ _ _ _ _ _ _ _).
    destruct (loop_phase s) eqn:Hph; try discriminate.
    intros [= <- _]. exists host, port, request_bytes, s.
    pose proof (Hreach host port request_bytes (started (world calls))
                  (1 / py_max target_rps (1 # 1000000000))%Q (schedule (world calls)))
      as Hinv.
    fold s in Hinv.
    destruct (open_inv_bounds concurrency_cap s Hcap Hinv) as (_ & _ & Hfin).
    destruct (Hfin Hph) as [Hdone Hzero].
    split; [reflexivity|]. split; [exact Hph|]. split; [exact Hzero|].
    split; [reflexivity|]. simpl. rewrite sorted_length.
    destruct Hinv as ([_ Hcount] & _). rewrite Hcount. unfold completed.
    apply all_done_completed, Hdone.
Qed.

Lemma open_loop_bounds_witness :
  0 <= 1
  ∧ (let s := open_run "127.0.0.1" 8000 [] 5 0 1 (1#100) 1
                (schedule (open_loop_world 0)) (open_start (Z.to_nat 1) 0) in
     Z.of_nat (outstanding (workers s)) <= 4 * 1
     ∧ Z.of_nat (executing (workers s)) <= 1
     ∧ (loop_phase s = Finished → outstanding (workers s) = 0%nat)).
Proof.
  assert (Hcap : 0 <= 1) by lia.
  split; [exact Hcap|].
  exact (proj1 (open_loop_bounds no_bracket_check open_loop_world "http://127.0.0.1:8000/"
                  100 1 1 5 false 0%nat Hcap)
           "127.0.0.1"%string 8000 [] 0%Q (1#100)%Q (schedule (open_loop_world 0))).
Defined.

(** ** The request builder *)

Section builder.

Local Open Scope string_scope.

Lemma char_lower_idem (c : ascii) : Url.char_lower (Url.char_lower c) = Url.char_lower c.
Proof. destruct c as [[] [] [] [] [] [] [] []]; reflexivity. Qed.

Lemma lower_idem (s : string) : Url.lower (Url.lower s) = Url.lower s.
Proof. induction s as [|c s IH]; simpl; [reflexivity|]. now rewrite char_lower_idem, IH. Qed.

Lemma split_scheme_lower (url : string) :
  Url.lower (fst (Url.split_scheme url)) = fst (Url.split_scheme url).
Proof.
  unfold Url.split_scheme.
  destruct (Url.partition ":" url) as [[[|c0 cs] rest]|]; try reflexivity.
  destruct (_ && _); [|reflexivity]. cbn [fst]. apply lower_idem.
Qed.

Variable check_bracketed_host : string → bool.

Lemma urlparse_scheme_lower (url : string) (parsed : Url.ParseResult) :
  Url.urlparse check_bracketed_host url = Ok parsed →
  Url.lower (Url.scheme parsed) = Url.scheme parsed.
Proof.
  unfold Url.urlparse.
  set (u := Url.str_filter _ (Url.lstrip _ url)).
  pose proof (split_scheme_lower u) as Hlow.
  destruct (Url.split_scheme u) as [scheme rest]. cbn [fst] in Hlow.
  destruct (Url.split_netloc _ rest) as [[netloc rest']|e]; [|discriminate].
  unfold Url.split_rest.
  destruct (Url.partition "#" rest') as [[u1 f]|];
    destruct (Url.partition "?" _) as [[u2 q]|];
    destruct (_ && _); try destruct (Url._splitparams _);
    intros [= <-]; exact Hlow.
Qed.

Lemma port_error (parsed : Url.ParseResult) (e : exn) :
  Url.port parsed = Err e →
  e = ValueError "Port out of range 0-65535"
  ∨ ∃ port, e = ValueError ("Port could not be cast to integer value as " ++ Url.repr port).
Proof.
  unfold Url.port. destruct (snd (Url._hostinfo (Url.netloc parsed))) as [port|]; [|discriminate].
  destruct (Url.str_all _ _); [|intros [= <-]; eauto].
  destruct (_ && _); [discriminate|]. intros [= <-]. auto.
Qed.

Lemma nonempty_true (s : string) : Url.nonempty s = true ↔ s ≠ "".
Proof. destruct s; simpl; split; try done. Qed.

(** The scheme check of [build_http_get] in terms of the parsed scheme. *)
Lemma scheme_check (parsed : Url.ParseResult) :
  Url.lower (Url.scheme parsed) = Url.scheme parsed →
  Url.nonempty (Url.scheme parsed)
  && negb (String.eqb (Url.lower (Url.scheme parsed)) "http") = true
  ↔ Url.scheme parsed ≠ "" ∧ Url.scheme parsed ≠ "http".
Proof.
  intros ->. rewrite andb_true_iff, negb_true_iff, nonempty_true, String.eqb_neq. tauto.
Qed.

Lemma build_unsupported_scheme (url : string) (parsed : Url.ParseResult) :
  Url.urlparse check_bracketed_host url = Ok parsed →
  (build_http_get check_bracketed_host url = Err unsupported_scheme
   ↔ Url.scheme parsed ≠ "" ∧ Url.scheme parsed ≠ "http").
Proof.
  intros Hparse. pose proof (urlparse_scheme_lower _ _ Hparse) as Hlow.
  rewrite <- (scheme_check parsed Hlow).
  unfold build_http_get. rewrite Hparse.
  destruct (_ && _); [done|].
  split; [|discriminate].
  destruct (Url.port parsed) as [p|e] eqn:Hport.
  - destruct (Url.encode_ascii _) as [b|e] eqn:Henc; [discriminate|].
    unfold Url.encode_ascii in Henc.
    destruct (Url.isascii _); [discriminate|]. injection Henc as <-. discriminate.
  - destruct (port_error _ _ Hport) as [-> | [port ->]]; discriminate.
Qed.

Lemma isascii_app (a b : string) :
  Url.isascii (a ++ b) = Url.isascii a && Url.isascii b.
Proof.
  unfold Url.isascii. induction a as [|c a IH]; simpl; [reflexivity|].
  rewrite IH. apply andb_assoc.
Qed.

(** A URL that parses, whose scheme is absent or [http], whose port
    reads and whose path, query and authority are ASCII is accepted;
    the host and the port are the parsed ones or their defaults. *)
Lemma build_accepts (url : string) (parsed : Url.ParseResult) (p : option Z) :
  Url.urlparse check_bracketed_host url = Ok parsed →
  Url.scheme parsed = "" ∨ Url.scheme parsed = "http" →
  Url.port parsed = Ok p →
  Url.isascii (Url.path parsed) = true →
  Url.isascii (Url.query parsed) = true →
  Url.isascii (Url.netloc parsed) = true →
  ∃ request_bytes,
    build_http_get check_bracketed_host url
    = Ok (default "127.0.0.1" (Url.hostname parsed),
          match p with Some 0%Z | None => 80%Z | Some n => n end,
          request_bytes).
Proof.
  intros Hparse Hscheme Hport Hpath Hquery Hnetloc.
  unfold build_http_get. rewrite Hparse, Hport.
  assert (Hcheck : Url.nonempty (Url.scheme parsed)
                   && negb (String.eqb (Url.lower (Url.scheme parsed)) "http") = false).
  { destruct Hscheme as [-> | ->]; reflexivity. }
  rewrite Hcheck.
  assert (Hhost : Url.nonempty (Url.netloc parsed) = false → Url.hostname parsed = None).
  { destruct (Url.netloc parsed) eqn:E; [|discriminate]. intros _.
    unfold Url.hostname. rewrite E. reflexivity. }
  unfold Url.encode_ascii.
  assert (Hascii : ∀ target header,
             Url.isascii target = true → Url.isascii header = true →
             Url.isascii ("GET " ++ target ++ " HTTP/1.1" ++ CRLF ++ "Host: " ++ header
                          ++ CRLF ++ "Connection: close" ++ CRLF ++ CRLF) = true).
  { intros target header Ht Hh.
    change ("GET " ++ target ++ " HTTP/1.1" ++ CRLF ++ "Host: " ++ header
            ++ CRLF ++ "Connection: close" ++ CRLF ++ CRLF)
      with ("GET " ++ (target ++ ((" HTTP/1.1" ++ CRLF ++ "Host: ")
            ++ (header ++ (CRLF ++ "Connection: close" ++ CRLF ++ CRLF))))).
    rewrite !isascii_app, Ht, Hh. reflexivity. }
  rewrite Hascii.
  - destruct (Url.hostname parsed), p as [[| |]|]; eexists; reflexivity.
  - destruct (Url.nonempty (Url.path parsed)), (Url.nonempty (Url.query parsed));
      rewrite ?isascii_app, ?Hpath, ?Hquery; reflexivity.
  - destruct (Url.nonempty (Url.netloc parsed)) eqn:E; [exact Hnetloc|].
    rewrite (Hhost eq_refl). reflexivity.
Qed.

(** A failure of the builder ends [_closed_once] and [_open_once]
    before the environment is consulted: no request is issued. *)
Lemma build_failure_is_fatal (world : nat → run_env) (url : string) (e : exn) :
  build_http_get check_bracketed_host url = Err e →
  ∀ calls,
    (∀ total_requests concurrency timeout verbose,
        _closed_once check_bracketed_host world url total_requests concurrency timeout
          verbose calls = Raised e calls)
    ∧ (∀ target_rps duration_sec concurrency_cap timeout verbose,
        _open_once check_bracketed_host world url target_rps duration_sec concurrency_cap
          timeout verbose calls = Raised e calls)
    ∧ (∀ total concurrency timeout warmup repeat quiet,
        0 < warmup ∨ 0 < repeat →
        run_closed check_bracketed_host world url total concurrency timeout warmup repeat
          quiet calls = Raised e calls)
    ∧ (∀ rps duration concurrency timeout warmup_sec repeat quiet,
        (0 < warmup_sec)%Q ∨ 0 < repeat →
        run_open check_bracketed_host world url rps duration concurrency timeout warmup_sec
          repeat quiet calls = Raised e calls).
Proof.
  intros Hbuild calls.
  assert (Hclosed : ∀ total_requests concurrency timeout verbose,
        _closed_once check_bracketed_host world url total_requests concurrency timeout
          verbose calls = Raised e calls).
  { intros. unfold _closed_once, bind, lift. rewrite Hbuild. reflexivity. }
  assert (Hopen : ∀ target_rps duration_sec concurrency_cap timeout verbose,
        _open_once check_bracketed_host world url target_rps duration_sec concurrency_cap
          timeout verbose calls = Raised e calls).
  { intros. unfold _open_once, bind, lift. rewrite Hbuild. reflexivity. }
  split; [exact Hclosed|]. split; [exact Hopen|]. split.
  - intros total concurrency timeout warmup repeat quiet Hsome.
    unfold run_closed, bind. destruct (Z.ltb_spec 0 warmup) as [Hw|Hw].
    + rewrite Hclosed. reflexivity.
    + unfold ret. destruct (Z.to_nat repeat) as [|n] eqn:Hn; [lia|].
      simpl. unfold bind. rewrite Hclosed. reflexivity.
  - intros rps duration concurrency timeout warmup_sec repeat quiet Hsome.
    unfold run_open, bind. destruct (Qltb 0 warmup_sec) eqn:Hw.
    + rewrite Hopen. reflexivity.
    + unfold ret. apply Qltb_ge in Hw.
      destruct Hsome as [Hlt|Hrep]; [exfalso; exact (Qlt_not_le _ _ Hlt Hw)|].
      destruct (Z.to_nat repeat) as [|n] eqn:Hn; [lia|].
      simpl. unfold bind. rewrite Hopen. reflexivity.
Qed.

End builder.

(** ** Texts and bytes *)

Section texts.

Local Open Scope string_scope.

Lemma str_all_app (p : ascii → bool) (a b : string) :
  Url.str_all p (a ++ b) = Url.str_all p a && Url.str_all p b.
Proof.
  induction a as [|c a IH]; simpl; [reflexivity|]. rewrite IH. apply andb_assoc.
Qed.

Lemma str_all_impl (p q : ascii → bool) (s : string) :
  (∀ c, p c = true → q c = true) → Url.str_all p s = true → Url.str_all q s = true.
Proof.
  intros Hpq. induction s as [|c s IH]; simpl; [reflexivity|].
  intros [Hc Hs]%andb_true_iff. rewrite (Hpq c Hc), (IH Hs). reflexivity.
Qed.

Lemma str_filter_id (p : ascii → bool) (s : string) :
  Url.str_all p s = true → Url.str_filter p s = s.
Proof.
  induction s as [|c s IH]; simpl; [reflexivity|].
  intros [Hc Hs]%andb_true_iff. rewrite Hc, (IH Hs). reflexivity.
Qed.

Lemma break_at_app (p : ascii → bool) (a b : string) :
  Url.str_all (fun c => negb (p c)) a = true →
  match b with EmptyString => true | String c _ => p c end = true →
  Url.break_at p (a ++ b) = (a, b).
Proof.
  intros Ha Hb. induction a as [|c a IH]; simpl in *.
  - destruct b as [|c b]; [reflexivity|]. simpl. rewrite Hb. reflexivity.
  - apply andb_true_iff in Ha as [Hc Ha]. apply negb_true_iff in Hc.
    rewrite Hc, (IH Ha). reflexivity.
Qed.

Lemma append_assoc (a b c : string) : (a ++ b) ++ c = a ++ (b ++ c).
Proof.
  induction a as [|x a IH]; [reflexivity|].
  change (String x ((a ++ b) ++ c) = String x (a ++ (b ++ c))). f_equal. exact IH.
Qed.

Lemma bytes_of_app (a b : string) : bytes_of (a ++ b) = (bytes_of a ++ bytes_of b)%list.
Proof.
  unfold bytes_of, list_byte_of_string.
  induction a as [|x a IH]; [reflexivity|].
  change (byte_of_ascii x :: map byte_of_ascii (list_ascii_of_string (a ++ b))
          = byte_of_ascii x
            :: (map byte_of_ascii (list_ascii_of_string a)
                ++ map byte_of_ascii (list_ascii_of_string b))%list).
  f_equal. exact IH.
Qed.

Lemma is_prefix_app (needle rest : list byte) : is_prefix needle (needle ++ rest)%list = true.
Proof.
  induction needle as [|b needle IH]; simpl; [reflexivity|].
  rewrite (Byte.byte_dec_lb (x := b) (y := b) eq_refl), IH. reflexivity.
Qed.

Lemma contains_bytes_prefix (needle haystack : list byte) :
  is_prefix needle haystack = true → contains_bytes needle haystack = true.
Proof. destruct haystack; simpl; intros ->; reflexivity. Qed.

Lemma contains_bytes_app (before needle rest : list byte) :
  contains_bytes needle (before ++ needle ++ rest)%list = true.
Proof.
  induction before as [|b before IH].
  - change ([] ++ needle ++ rest)%list with (needle ++ rest)%list.
    apply contains_bytes_prefix, is_prefix_app.
  - simpl. rewrite IH. apply orb_true_r.
Qed.

End texts.

(** ** From a URL to the request *)

Section round_trip.

Local Open Scope string_scope.

Variable check_bracketed_host : string → bool.

(** What [urlparse] makes of the text after the scheme, when it starts
    with [//], an authority made of [authority_char]s, and a path, query
    or fragment: the authority is the [netloc], character for character. *)
Lemma split_netloc_authority (authority rest url' netloc : string) :
  Url.str_all authority_char authority = true →
  after_authority rest = true →
  Url.split_netloc check_bracketed_host
    (String "/" (String "/"
       (Url.str_filter
          (fun c => negb (Ascii.eqb c "009" || Ascii.eqb c "013" || Ascii.eqb c "010"))
          (authority ++ rest))))
  = Ok (netloc, url') →
  netloc = authority ∧ url' = rest.
Proof.
  intros Hauth [Hstart Hrest]%andb_true_iff.
  rewrite str_filter_id.
  2:{ rewrite str_all_app, Hrest, andb_true_r.
      revert Hauth. apply str_all_impl. intros c. unfold authority_char.
      rewrite !negb_true_iff, !orb_false_iff. tauto. }
  unfold Url.split_netloc, Url._splitnetloc. rewrite break_at_app.
  2:{ revert Hauth. apply str_all_impl. intros c. unfold authority_char.
      rewrite !negb_true_iff, !orb_false_iff. tauto. }
  2:{ exact Hstart. }
  destruct (_ || _); [discriminate|].
  destruct (_ && _); [destruct (Url._check_bracketed_netloc _ _); [|discriminate]|];
    intros [= <- <-]; auto.
Qed.

(** After [http://], and after [//] without a scheme. *)
Lemma urlparse_http_authority (authority rest : string) (parsed : Url.ParseResult) :
  Url.str_all authority_char authority = true →
  after_authority rest = true →
  Url.urlparse check_bracketed_host ("http://" ++ authority ++ rest) = Ok parsed →
  parsed = Url.split_rest "http" authority rest.
Proof.
  intros Hauth Hrest. unfold Url.urlparse.
  change ("http://" ++ authority ++ rest)
    with (String "h" (String "t" (String "t" (String "p" (String ":"
            (String "/" (String "/" (authority ++ rest)))))))).
  cbn [Url.lstrip Url.code nat_of_ascii]. simpl Url.lstrip.
  simpl Url.str_filter.
  set (body := Url.str_filter _ (authority ++ rest)).
  assert (Hscheme :
    Url.split_scheme
      (String "h" (String "t" (String "t" (String "p" (String ":"
         (String "/" (String "/" body)))))))
    = ("http"%string, String "/" (String "/" body))) by reflexivity.
  rewrite Hscheme. subst body.
  destruct (Url.split_netloc _ _) as [[netloc url']|e] eqn:Hsplit; [|discriminate].
  destruct (split_netloc_authority _ _ _ _ Hauth Hrest Hsplit) as [-> ->].
  intros [= <-]. reflexivity.
Qed.

Lemma urlparse_bare_authority (authority rest : string) (parsed : Url.ParseResult) :
  Url.str_all authority_char authority = true →
  after_authority rest = true →
  Url.urlparse check_bracketed_host ("//" ++ authority ++ rest) = Ok parsed →
  parsed = Url.split_rest "" authority rest.
Proof.
  intros Hauth Hrest. unfold Url.urlparse.
  change ("//" ++ authority ++ rest)
    with (String "/" (String "/" (authority ++ rest))).
  simpl Url.lstrip. simpl Url.str_filter.
  set (body := Url.str_filter _ (authority ++ rest)).
  assert (Hscheme : Url.split_scheme (String "/" (String "/" body))
                    = (""%string, String "/" (String "/" body))).
  { unfold Url.split_scheme.
    destruct (Url.partition ":" _) as [[[|c0 cs] after]|] eqn:Hp; try reflexivity.
    simpl in Hp. destruct (Url.partition ":" body) as [[b a]|]; [|discriminate].
    injection Hp as <- _ _. reflexivity. }
  rewrite Hscheme. subst body.
  destruct (Url.split_netloc _ _) as [[netloc url']|e] eqn:Hsplit; [|discriminate].
  destruct (split_netloc_authority _ _ _ _ Hauth Hrest Hsplit) as [-> ->].
  intros [= <-]. reflexivity.
Qed.

(** The shape of the request that [build_http_get] renders. *)
Lemma build_renders (url host : string) (port : Z) (request_bytes : list byte) :
  build_http_get check_bracketed_host url = Ok (host, port, request_bytes) →
  ∃ parsed parsed_port,
    Url.urlparse check_bracketed_host url = Ok parsed
    ∧ Url.port parsed = Ok parsed_port
    ∧ host = default "127.0.0.1" (Url.hostname parsed)
    ∧ port = match parsed_port with Some 0%Z | None => 80%Z | Some n => n end
    ∧ request_bytes =
      bytes_of ("GET "
                ++ (if Url.nonempty (Url.path parsed) then Url.path parsed else "/")
                ++ (if Url.nonempty (Url.query parsed) then "?" ++ Url.query parsed else "")
                ++ " HTTP/1.1" ++ CRLF
                ++ "Host: "
                ++ (if Url.nonempty (Url.netloc parsed) then Url.netloc parsed else host)
                ++ CRLF ++ "Connection: close" ++ CRLF ++ CRLF).
Proof.
  unfold build_http_get.
  destruct (Url.urlparse check_bracketed_host url) as [parsed|e]; [|discriminate].
  destruct (_ && _); [discriminate|].
  destruct (Url.port parsed) as [parsed_port|e] eqn:Hport; [|discriminate].
  unfold Url.encode_ascii. destruct (Url.isascii _); [|discriminate].
  intros [= <- <- <-]. exists parsed, parsed_port.
  split; [reflexivity|]. split; [exact Hport|].
  split; [destruct (Url.hostname parsed); reflexivity|].
  split; [destruct parsed_port as [[| |]|]; reflexivity|].
  unfold bytes_of. f_equal.
  destruct (Url.nonempty (Url.query parsed)); [|reflexivity].
  rewrite !append_assoc. reflexivity.
Qed.

End round_trip.

(** ** What the parts of a parsed URL are made of *)

Section builder_output.

Local Open Scope string_scope.

Variable q : ascii → bool.

Lemma str_all_lstrip (p : ascii → bool) (s : string) :
  Url.str_all q s = true → Url.str_all q (Url.lstrip p s) = true.
Proof.
  induction s as [|c s IH]; simpl; [done|]. intros H.
  destruct (p c); [|exact H]. apply andb_true_iff in H as [_ H]. apply IH, H.
Qed.

Lemma str_all_filter (s : string) : Url.str_all q (Url.str_filter q s) = true.
Proof.
  induction s as [|c s IH]; simpl; [done|].
  destruct (q c) eqn:E; [simpl; rewrite E; exact IH|exact IH].
Qed.

Lemma partition_all (c : ascii) (s a b : string) :
  Url.partition c s = Some (a, b) →
  Url.str_all q s = true → Url.str_all q a = true ∧ Url.str_all q b = true.
Proof.
  revert a b. induction s as [|x s IH]; simpl; intros a b; [discriminate|].
  destruct (Ascii.eqb x c).
  - intros [= <- <-] H. apply andb_true_iff in H as [_ H]. split; [reflexivity|exact H].
  - destruct (Url.partition c s) as [[a' b']|]; [|discriminate].
    intros [= <- <-] H. apply andb_true_iff in H as [Hx H].
    destruct (IH _ _ eq_refl H) as [Ha Hb]. simpl. rewrite Hx. auto.
Qed.

Lemma rpartition_all (c : ascii) (s a b : string) :
  Url.rpartition c s = Some (a, b) →
  Url.str_all q s = true → Url.str_all q a = true ∧ Url.str_all q b = true.
Proof.
  revert a b. induction s as [|x s IH]; simpl; intros a b; [discriminate|].
  destruct (Url.rpartition c s) as [[a' b']|].
  - intros [= <- <-] H. apply andb_true_iff in H as [Hx H].
    destruct (IH _ _ eq_refl H) as [Ha Hb]. simpl. rewrite Hx. auto.
  - destruct (Ascii.eqb x c); [|discriminate].
    intros [= <- <-] H. apply andb_true_iff in H as [_ H]. split; [reflexivity|exact H].
Qed.

Lemma break_at_all (p : ascii → bool) (s a b : string) :
  Url.break_at p s = (a, b) →
  Url.str_all q s = true → Url.str_all q a = true ∧ Url.str_all q b = true.
Proof.
  revert a b. induction s as [|x s IH]; simpl; intros a b.
  - intros [= <- <-] _. auto.
  - destruct (p x).
    + intros [= <- <-] H. split; [reflexivity|exact H].
    + destruct (Url.break_at p s) as [a' b']. intros [= <- <-] H.
      apply andb_true_iff in H as [Hx H].
      destruct (IH _ _ eq_refl H) as [Ha Hb]. simpl. rewrite Hx. auto.
Qed.

Lemma splitparams_all (url a b : string) :
  q "/" = true →
  Url._splitparams url = (a, b) →
  Url.str_all q url = true → Url.str_all q a = true ∧ Url.str_all q b = true.
Proof.
  intros Hslash. unfold Url._splitparams.
  destruct (Url.rpartition "/" url) as [[head tail]|] eqn:Hr.
  - intros Hsplit Hurl. destruct (rpartition_all _ _ _ _ Hr Hurl) as [Hhead Htail].
    destruct (Url.partition ";" tail) as [[before after]|] eqn:Hp.
    + injection Hsplit as <- <-.
      destruct (partition_all _ _ _ _ Hp Htail) as [Hbefore Hafter].
      split; [|exact Hafter].
      rewrite !str_all_app, Hhead, Hbefore. simpl. rewrite Hslash. reflexivity.
    + injection Hsplit as <- <-. auto.
  - destruct (Url.partition ";" url) as [[before after]|] eqn:Hp.
    + intros [= <- <-] Hurl. exact (partition_all _ _ _ _ Hp Hurl).
    + intros [= <- <-] Hurl. auto.
Qed.

Lemma split_rest_all (scheme netloc url : string) :
  q "/" = true →
  Url.str_all q url = true →
  Url.str_all q (Url.path (Url.split_rest scheme netloc url)) = true
  ∧ Url.str_all q (Url.query (Url.split_rest scheme netloc url)) = true.
Proof.
  intros Hslash Hurl. unfold Url.split_rest.
  assert (H1 : ∃ u f,
    match Url.partition "#" url with Some (u, f) => (u, f) | None => (url, "") end = (u, f)
    ∧ Url.str_all q u = true).
  { destruct (Url.partition "#" url) as [[u f]|] eqn:Hp.
    - exists u, f. split; [reflexivity|]. exact (proj1 (partition_all _ _ _ _ Hp Hurl)).
    - exists url, "". auto. }
  destruct H1 as (u1 & f & -> & Hu1).
  assert (H2 : ∃ u qy,
    match Url.partition "?" u1 with Some (u, qy) => (u, qy) | None => (u1, "") end = (u, qy)
    ∧ Url.str_all q u = true ∧ Url.str_all q qy = true).
  { destruct (Url.partition "?" u1) as [[u qy]|] eqn:Hp.
    - exists u, qy. split; [reflexivity|]. exact (partition_all _ _ _ _ Hp Hu1).
    - exists u1, "". auto. }
  destruct H2 as (u2 & qy & -> & Hu2 & Hqy).
  destruct (bool_decide (scheme ∈ Url.uses_params) && Url.contains_char ";" u2).
  - destruct (Url._splitparams u2) as [u3 params] eqn:Hs. simpl.
    split; [|exact Hqy]. exact (proj1 (splitparams_all _ _ _ Hslash Hs Hu2)).
  - simpl. auto.
Qed.

Lemma split_scheme_all (url scheme rest : string) :
  Url.split_scheme url = (scheme, rest) →
  Url.str_all q url = true → Url.str_all q rest = true.
Proof.
  unfold Url.split_scheme.
  destruct (Url.partition ":" url) as [[[|c0 cs] after]|] eqn:Hp.
  - intros [= _ <-]. auto.
  - destruct (_ && _).
    + intros [= _ <-] Hurl. exact (proj2 (partition_all _ _ _ _ Hp Hurl)).
    + intros [= _ <-]. auto.
  - intros [= _ <-]. auto.
Qed.

Lemma split_netloc_cases (check_bracketed_host : string → bool) (url : string) :
  (∃ body, url = String "/" (String "/" body))
  ∨ Url.split_netloc check_bracketed_host url = Ok ("", url).
Proof.
  destruct url as [|c1 [|c2 body]].
  - right. reflexivity.
  - right. destruct c1 as [[] [] [] [] [] [] [] []]; reflexivity.
  - destruct (Ascii.ascii_dec c1 "/") as [->|Hc1].
    + destruct (Ascii.ascii_dec c2 "/") as [->|Hc2]; [left; eauto|].
      right. destruct c2 as [[] [] [] [] [] [] [] []]; try reflexivity. contradiction.
    + right. destruct c1 as [[] [] [] [] [] [] [] []]; try reflexivity. contradiction.
Qed.

Lemma split_netloc_all (check_bracketed_host : string → bool) (url netloc rest : string) :
  Url.split_netloc check_bracketed_host url = Ok (netloc, rest) →
  Url.str_all q url = true →
  Url.str_all q netloc = true ∧ Url.str_all q rest = true.
Proof.
  destruct (split_netloc_cases check_bracketed_host url) as [[body ->]|Hplain].
  - unfold Url.split_netloc, Url._splitnetloc.
    destruct (Url.break_at _ body) as [n u] eqn:Hb.
    intros Hsplit Hurl. simpl in Hurl.
    apply andb_true_iff in Hurl as [_ Hurl]. apply andb_true_iff in Hurl as [_ Hurl].
    destruct (break_at_all _ _ _ _ Hb Hurl) as [Hn Hu].
    destruct (_ || _); [discriminate|].
    destruct (_ && _).
    + destruct (Url._check_bracketed_netloc _ _); [|discriminate].
      injection Hsplit as <- <-. auto.
    + injection Hsplit as <- <-. auto.
  - rewrite Hplain. intros [= <- <-]. auto.
Qed.

End builder_output.

Lemma split_rest_netloc (scheme netloc rest : string) :
  Url.netloc (Url.split_rest scheme netloc rest) = netloc.
Proof.
  unfold Url.split_rest.
  destruct (Url.partition "#" rest) as [[u1 f]|];
    destruct (Url.partition "?" _) as [[u2 q]|];
    destruct (_ && _); try destruct (Url._splitparams _); reflexivity.
Qed.

Lemma urlparse_line_safe (check_bracketed_host : string → bool) (url : string)
    (parsed : Url.ParseResult) :
  Url.urlparse check_bracketed_host url = Ok parsed →
  Url.str_all line_safe (Url.netloc parsed) = true
  ∧ Url.str_all line_safe (Url.path parsed) = true
  ∧ Url.str_all line_safe (Url.query parsed) = true.
Proof.
  unfold Url.urlparse.
  set (stripped := Url.lstrip _ url).
  pose proof (str_all_filter line_safe stripped) as Hclean.
  change (Url.str_filter _ stripped) with (Url.str_filter line_safe stripped).
  destruct (Url.split_scheme (Url.str_filter line_safe stripped)) as [scheme rest] eqn:Hs.
  pose proof (split_scheme_all line_safe _ _ _ Hs Hclean) as Hrest.
  destruct (Url.split_netloc check_bracketed_host rest) as [[netloc rest']|e] eqn:Hn;
    [|discriminate].
  destruct (split_netloc_all line_safe _ _ _ _ Hn Hrest) as [Hnetloc Hrest'].
  intros [= <-].
  destruct (split_rest_all line_safe scheme netloc rest' eq_refl Hrest') as [Hpath Hquery].
  split; [|split; assumption].
  rewrite split_rest_netloc. exact Hnetloc.
Qed.

Lemma hostname_nonempty (parsed : Url.ParseResult) (h : string) :
  Url.hostname parsed = Some h → h ≠ ""%string.
Proof.
  unfold Url.hostname.
  destruct (fst (Url._hostinfo (Url.netloc parsed))) as [|c raw]; [discriminate|].
  cbn [Url.nonempty].
  destruct (Url.partition "%" (String c raw)) as [[before zone]|].
  - intros [= <-]. destruct (Url.lower before); simpl; discriminate.
  - intros [= <-]. simpl. discriminate.
Qed.

Lemma port_in_range (parsed : Url.ParseResult) (p : Z) :
  Url.port parsed = Ok (Some p) → 0 <= p <= 65535.
Proof.
  unfold Url.port. destruct (snd (Url._hostinfo (Url.netloc parsed))) as [text|]; [|discriminate].
  destruct (Url.str_all _ text); [|discriminate].
  destruct (_ && _) eqn:E; [|discriminate].
  intros [= <-]. apply andb_true_iff in E as [E1 E2]. lia.
Qed.

Lemma encoded_bytes_ascii (s : string) :
  Url.isascii s = true →
  Forall (fun b => (Byte.to_nat b < 128)%nat) (bytes_of s).
Proof.
  unfold bytes_of, list_byte_of_string.
  induction s as [|c s IH]; simpl; [constructor|].
  intros H. apply andb_true_iff in H as [Hc Hs]. constructor; [|apply IH, Hs].
  unfold Url.char_isascii, Url.code in Hc. apply Nat.ltb_lt in Hc.
  pose proof (byte_of_ascii_via_nat c) as Hvia. symmetry in Hvia.
  apply Byte.to_of_nat in Hvia. rewrite Hvia. exact Hc.
Qed.


Section request_text.

Local Open Scope string_scope.

Lemma contains_text (before needle rest : string) :
  contains_bytes (bytes_of needle) (bytes_of (before ++ needle ++ rest)) = true.
Proof. rewrite !bytes_of_app. apply contains_bytes_app. Qed.

Lemma prefix_text (needle rest : string) :
  is_prefix (bytes_of needle) (bytes_of (needle ++ rest)) = true.
Proof. rewrite bytes_of_app. apply is_prefix_app. Qed.

End request_text.

Section authority.

Local Open Scope string_scope.

Lemma contains_char_app (c : ascii) (a b : string) :
  Url.contains_char c (a ++ b) = Url.contains_char c a || Url.contains_char c b.
Proof.
  induction a as [|x a IH]; simpl; [reflexivity|]. rewrite IH. apply orb_assoc.
Qed.

Lemma str_all_excludes (p : ascii → bool) (c : ascii) (s : string) :
  p c = false → Url.str_all p s = true → Url.contains_char c s = false.
Proof.
  intros Hc. induction s as [|x s IH]; simpl; [reflexivity|].
  intros [Hx Hs]%andb_true_iff. rewrite (IH Hs), orb_false_r.
  destruct (Ascii.eqb_spec x c) as [->|]; [congruence|reflexivity].
Qed.

Lemma partition_absent (c : ascii) (s : string) :
  Url.contains_char c s = false → Url.partition c s = None.
Proof.
  induction s as [|x s IH]; simpl; [reflexivity|].
  intros [Hx Hs]%orb_false_iff. rewrite Hx, (IH Hs). reflexivity.
Qed.

Lemma rpartition_absent (c : ascii) (s : string) :
  Url.contains_char c s = false → Url.rpartition c s = None.
Proof.
  induction s as [|x s IH]; simpl; [reflexivity|].
  intros [Hx Hs]%orb_false_iff. rewrite Hx, (IH Hs). reflexivity.
Qed.

Lemma partition_first (c : ascii) (a b : string) :
  Url.contains_char c a = false → Url.partition c (a ++ String c b) = Some (a, b).
Proof.
  induction a as [|x a IH]; simpl.
  - intros _. rewrite Ascii.eqb_refl. reflexivity.
  - intros [Hx Ha]%orb_false_iff. rewrite Hx, (IH Ha). reflexivity.
Qed.

Lemma int_of_digits_nonneg (s : string) :
  ∀ acc, 0 <= acc → 0 <= Url.int_of_digits acc s.
Proof.
  induction s as [|c s IH]; intros acc Hacc; simpl; [exact Hacc|]. apply IH. lia.
Qed.

Lemma host_char_authority (c : ascii) : host_char c = true → authority_char c = true.
Proof.
  unfold host_char, authority_char. intros [_ H]%andb_true_iff.
  apply negb_true_iff in H. rewrite !orb_false_iff in H. apply negb_true_iff.
  rewrite !orb_false_iff. tauto.
Qed.

Lemma host_char_ascii (c : ascii) : host_char c = true → Url.char_isascii c = true.
Proof. unfold host_char. intros [H _]%andb_true_iff. exact H. Qed.

Lemma digit_host_char (c : ascii) : Url.char_isdigit_ascii c = true → host_char c = true.
Proof. destruct c as [[] [] [] [] [] [] [] []]; vm_compute; intros H; congruence. Qed.

(** The text of a port satisfies what is asked of it. *)
Lemma port_text_digits (digits : string) :
  port_text_ok (Some digits) = true →
  Url.str_all Url.char_isdigit_ascii digits = true
  ∧ Url.str_all host_char digits = true
  ∧ 0 <= Url.int_of_digits 0 digits <= 65535.
Proof.
  unfold port_text_ok. intros [Hd Hv]%andb_true_iff.
  split; [exact Hd|]. split.
  - revert Hd. apply str_all_impl, digit_host_char.
  - split; [apply int_of_digits_nonneg; lia|lia].
Qed.

Variables (host : string) (port_text : option string).
Hypothesis Hhost : Url.str_all host_char host = true.
Hypothesis Hport : port_text_ok port_text = true.

(** An authority made of a host and a port is made of the characters
    of an authority, all ASCII, and has no bracket. *)
Lemma authority_text_chars :
  Url.str_all authority_char (authority_text host port_text) = true
  ∧ Url.isascii (authority_text host port_text) = true
  ∧ Url.contains_char "[" (authority_text host port_text) = false
  ∧ Url.contains_char "]" (authority_text host port_text) = false.
Proof.
  assert (Hall : Url.str_all host_char (match port_text with
                                        | Some digits => host ++ digits
                                        | None => host
                                        end) = true).
  { destruct port_text as [digits|]; [|exact Hhost].
    rewrite str_all_app, Hhost. exact (proj1 (proj2 (port_text_digits _ Hport))). }
  unfold authority_text, Url.isascii.
  destruct port_text as [digits|].
  - rewrite str_all_app in Hall. apply andb_true_iff in Hall as [_ Hdigits].
    rewrite !str_all_app, !contains_char_app.
    change (":" ++ digits) with (String ":" digits). cbn [Url.str_all Url.contains_char].
    rewrite (str_all_impl _ _ _ host_char_authority Hhost),
            (str_all_impl _ _ _ host_char_authority Hdigits),
            (str_all_impl _ _ _ host_char_ascii Hhost),
            (str_all_impl _ _ _ host_char_ascii Hdigits),
            (str_all_excludes host_char "[" host eq_refl Hhost),
            (str_all_excludes host_char "[" digits eq_refl Hdigits),
            (str_all_excludes host_char "]" host eq_refl Hhost),
            (str_all_excludes host_char "]" digits eq_refl Hdigits).
    repeat split.
  - rewrite (str_all_impl _ _ _ host_char_authority Hhost),
            (str_all_impl _ _ _ host_char_ascii Hhost),
            (str_all_excludes host_char "[" host eq_refl Hhost),
            (str_all_excludes host_char "]" host eq_refl Hhost).
    repeat split.
Qed.

(** The host and the port that the parsed URL reads in it. *)
Lemma hostinfo_authority_text :
  Url._hostinfo (authority_text host port_text)
  = (host, match port_text with
           | Some digits => if Url.nonempty digits then Some digits else None
           | None => None
           end).
Proof.
  unfold Url._hostinfo, authority_text. destruct port_text as [digits|].
  - destruct (port_text_digits _ Hport) as (_ & Hdigits & _).
    assert (Hno : ∀ c, host_char c = false →
                       Url.contains_char c (host ++ ":" ++ digits) = false
                       ∨ c = ":"%char).
    { intros c Hc. destruct (Ascii.eqb_spec c ":") as [->|Hne]; [right; reflexivity|].
      constructor 1. rewrite contains_char_app.
      change (":" ++ digits) with (String ":" digits). cbn [Url.contains_char].
      rewrite (str_all_excludes host_char c host Hc Hhost),
              (str_all_excludes host_char c digits Hc Hdigits).
      destruct (Ascii.eqb_spec ":" c) as [E|_]; [congruence|reflexivity]. }
    destruct (Hno "@"%char eq_refl) as [Hat|]; [|discriminate].
    destruct (Hno "["%char eq_refl) as [Hopen|]; [|discriminate].
    rewrite (rpartition_absent _ _ Hat), (partition_absent _ _ Hopen).
    change (host ++ ":" ++ digits) with (host ++ String ":" digits).
    rewrite (partition_first ":" host digits (str_all_excludes host_char ":" host eq_refl Hhost)).
    reflexivity.
  - rewrite (rpartition_absent _ _ (str_all_excludes host_char "@" host eq_refl Hhost)),
            (partition_absent _ _ (str_all_excludes host_char "[" host eq_refl Hhost)),
            (partition_absent _ _ (str_all_excludes host_char ":" host eq_refl Hhost)).
    reflexivity.
Qed.

Lemma port_authority_text (parsed : Url.ParseResult) :
  Url.netloc parsed = authority_text host port_text →
  ∃ p, Url.port parsed = Ok p
       ∧ match p with Some 0 | None => 80 | Some n => n end = port_number port_text.
Proof.
  intros Hnetloc. unfold Url.port. rewrite Hnetloc, hostinfo_authority_text. cbn [snd].
  unfold port_number. destruct port_text as [digits|]; [|exists None; auto].
  destruct (port_text_digits _ Hport) as (Hdigits & _ & Hlo & Hhi).
  destruct (Url.nonempty digits) eqn:Hne.
  - assert (Hd : Url.str_all (fun c => Url.char_isdigit_ascii c) digits = true)
      by exact Hdigits.
    rewrite Hd. cbv zeta.
    destruct (Z.leb_spec 0 (Url.int_of_digits 0 digits)); [|lia].
    destruct (Z.leb_spec (Url.int_of_digits 0 digits) 65535); [|lia].
    eexists. split; [reflexivity|]. simpl.
    destruct (Url.int_of_digits 0 digits); reflexivity.
  - exists None. split; [reflexivity|]. destruct digits; [reflexivity|discriminate].
Qed.

Lemma hostname_authority_text (parsed : Url.ParseResult) :
  host ≠ "" →
  Url.netloc parsed = authority_text host port_text →
  Url.hostname parsed = Some (Url.lower host).
Proof.
  intros Hne Hnetloc. unfold Url.hostname. rewrite Hnetloc, hostinfo_authority_text. cbn [fst].
  apply nonempty_true in Hne. rewrite Hne.
  rewrite (partition_absent _ _ (str_all_excludes host_char "%" host eq_refl Hhost)).
  reflexivity.
Qed.

End authority.

Section rendered.

Local Open Scope string_scope.

Variable check_bracketed_host : string → bool.

(** The authority of a URL is read back as it is written. *)
Lemma split_netloc_authority_ok (authority rest : string) :
  Url.str_all authority_char authority = true →
  Url.contains_char "[" authority = false →
  Url.contains_char "]" authority = false →
  after_authority rest = true →
  Url.split_netloc check_bracketed_host
    (String "/" (String "/"
       (Url.str_filter
          (fun c => negb (Ascii.eqb c "009" || Ascii.eqb c "013" || Ascii.eqb c "010"))
          (authority ++ rest))))
  = Ok (authority, rest).
Proof.
  intros Hauth Hopen Hclose [Hstart Hrest]%andb_true_iff.
  rewrite str_filter_id.
  2:{ rewrite str_all_app, Hrest, andb_true_r.
      revert Hauth. apply str_all_impl. intros c. unfold authority_char.
      rewrite !negb_true_iff, !orb_false_iff. tauto. }
  unfold Url.split_netloc, Url._splitnetloc. rewrite break_at_app.
  2:{ revert Hauth. apply str_all_impl. intros c. unfold authority_char.
      rewrite !negb_true_iff, !orb_false_iff. tauto. }
  2:{ exact Hstart. }
  rewrite Hopen, Hclose. reflexivity.
Qed.

Lemma urlparse_http_ok (authority rest : string) :
  Url.str_all authority_char authority = true →
  Url.contains_char "[" authority = false →
  Url.contains_char "]" authority = false →
  after_authority rest = true →
  Url.urlparse check_bracketed_host ("http://" ++ authority ++ rest)
  = Ok (Url.split_rest "http" authority rest).
Proof.
  intros Hauth Hopen Hclose Hrest. unfold Url.urlparse.
  change ("http://" ++ authority ++ rest)
    with (String "h" (String "t" (String "t" (String "p" (String ":"
            (String "/" (String "/" (authority ++ rest)))))))).
  cbn [Url.lstrip Url.code nat_of_ascii]. simpl Url.lstrip.
  simpl Url.str_filter.
  set (body := Url.str_filter _ (authority ++ rest)).
  assert (Hscheme :
    Url.split_scheme
      (String "h" (String "t" (String "t" (String "p" (String ":"
         (String "/" (String "/" body)))))))
    = ("http"%string, String "/" (String "/" body))) by reflexivity.
  rewrite Hscheme. subst body.
  rewrite (split_netloc_authority_ok _ _ Hauth Hopen Hclose Hrest). reflexivity.
Qed.

Lemma urlparse_bare_ok (authority rest : string) :
  Url.str_all authority_char authority = true →
  Url.contains_char "[" authority = false →
  Url.contains_char "]" authority = false →
  after_authority rest = true →
  Url.urlparse check_bracketed_host ("//" ++ authority ++ rest)
  = Ok (Url.split_rest "" authority rest).
Proof.
  intros Hauth Hopen Hclose Hrest. unfold Url.urlparse.
  change ("//" ++ authority ++ rest)
    with (String "/" (String "/" (authority ++ rest))).
  simpl Url.lstrip. simpl Url.str_filter.
  set (body := Url.str_filter _ (authority ++ rest)).
  assert (Hscheme : Url.split_scheme (String "/" (String "/" body))
                    = (""%string, String "/" (String "/" body))).
  { unfold Url.split_scheme.
    destruct (Url.partition ":" _) as [[[|c0 cs] after]|] eqn:Hp; try reflexivity.
    simpl in Hp. destruct (Url.partition ":" body) as [[b a]|]; [|discriminate].
    injection Hp as <- _ _. reflexivity. }
  rewrite Hscheme. subst body.
  rewrite (split_netloc_authority_ok _ _ Hauth Hopen Hclose Hrest). reflexivity.
Qed.

(** What the builder returns for a URL that parses, passes the scheme
    check, has a port that reads and is ASCII: the host and the port of
    the parsed URL or their defaults, and the request made of the
    request target and of the authority (of the host when there is no
    authority). *)
Lemma build_value (url : string) (parsed : Url.ParseResult) (p : option Z) :
  Url.urlparse check_bracketed_host url = Ok parsed →
  Url.scheme parsed = "" ∨ Url.scheme parsed = "http" →
  Url.port parsed = Ok p →
  Url.isascii (Url.path parsed) = true →
  Url.isascii (Url.query parsed) = true →
  Url.isascii (Url.netloc parsed) = true →
  build_http_get check_bracketed_host url
  = Ok (default "127.0.0.1" (Url.hostname parsed),
        match p with Some 0%Z | None => 80%Z | Some n => n end,
        bytes_of (request_text (request_target parsed)
                    (if Url.nonempty (Url.netloc parsed) then Url.netloc parsed
                     else default "127.0.0.1" (Url.hostname parsed)))).
Proof.
  intros Hparse Hscheme Hport Hpath Hquery Hnetloc.
  destruct (build_accepts _ _ _ _ Hparse Hscheme Hport Hpath Hquery Hnetloc)
    as [request_bytes Hbuild].
  destruct (build_renders _ _ _ _ _ Hbuild)
    as (parsed' & parsed_port & Hparse' & _ & _ & _ & Hbytes).
  rewrite Hparse in Hparse'. injection Hparse' as <-.
  rewrite Hbuild. do 2 f_equal. rewrite Hbytes.
  unfold request_text, request_target. rewrite !append_assoc. reflexivity.
Qed.

End rendered.

Lemma split_rest_scheme (scheme netloc rest : string) :
  Url.scheme (Url.split_rest scheme netloc rest) = scheme.
Proof.
  unfold Url.split_rest.
  destruct (Url.partition "#" rest) as [[u1 f]|];
    destruct (Url.partition "?" _) as [[u2 q]|];
    destruct (_ && _); try destruct (Url._splitparams _); reflexivity.
Qed.

Lemma split_rest_empty (scheme netloc : string) :
  Url.split_rest scheme netloc ""
  = {| Url.scheme := scheme; Url.netloc := netloc; Url.path := ""; Url.params := "";
       Url.query := ""; Url.fragment := "" |}.
Proof. unfold Url.split_rest. simpl. rewrite andb_false_r. reflexivity. Qed.



(** ** What the builder accepts and what it refuses *)

Section builder_outcomes.

Local Open Scope string_scope.

Variable check_bracketed_host : string → bool.

(** The errors of [urlsplit] are not the error of the scheme check. *)
Lemma urlparse_error (url : string) (e : exn) :
  Url.urlparse check_bracketed_host url = Err e → e ≠ unsupported_scheme.
Proof.
  unfold Url.urlparse.
  destruct (Url.split_scheme _) as [scheme rest].
  destruct (Url.split_netloc check_bracketed_host rest) as [[netloc rest']|e'] eqn:Hsplit;
    [discriminate|].
  intros [= <-]. revert Hsplit. unfold Url.split_netloc.
  destruct (split_netloc_cases check_bracketed_host rest) as [[body ->]|Hplain].
  - destruct (Url._splitnetloc body) as [netloc url'].
    destruct (_ || _); [intros [= <-]; discriminate|].
    destruct (_ && _); [|discriminate].
    unfold Url._check_bracketed_netloc.
    destruct (Url.partition "[" _) as [[before bracketed]|].
    + destruct (Url.nonempty before); [intros [= <-]; discriminate|].
      destruct (match Url.partition "]" bracketed with
                | Some (h, p) => (h, p) | None => (bracketed, "") end) as [hostname port].
      destruct (_ && _); [intros [= <-]; discriminate|].
      destruct (check_bracketed_host hostname); [discriminate|]. intros [= <-]. discriminate.
    + destruct (check_bracketed_host _); [discriminate|]. intros [= <-]. discriminate.
  - unfold Url.split_netloc in Hplain. rewrite Hplain. discriminate.
Qed.

(** The request is ASCII exactly when the path, the query and the
    authority of the URL are. *)
Lemma request_isascii (parsed : Url.ParseResult) :
  let host := match Url.hostname parsed with Some h => h | None => "127.0.0.1" end in
  let path := if Url.nonempty (Url.path parsed) then Url.path parsed else "/" in
  let path := if Url.nonempty (Url.query parsed)
              then path ++ "?" ++ Url.query parsed else path in
  let host_header := if Url.nonempty (Url.netloc parsed) then Url.netloc parsed else host in
  Url.isascii ("GET " ++ path ++ " HTTP/1.1" ++ CRLF ++ "Host: " ++ host_header ++ CRLF
               ++ "Connection: close" ++ CRLF ++ CRLF)
  = Url.isascii (Url.path parsed) && Url.isascii (Url.query parsed)
    && Url.isascii (Url.netloc parsed).
Proof.
  cbv zeta.
  set (path := if Url.nonempty (Url.query parsed) then _ else _).
  set (header := if Url.nonempty (Url.netloc parsed) then _ else _).
  change ("GET " ++ path ++ " HTTP/1.1" ++ CRLF ++ "Host: " ++ header
          ++ CRLF ++ "Connection: close" ++ CRLF ++ CRLF)
    with ("GET " ++ (path ++ ((" HTTP/1.1" ++ CRLF ++ "Host: ")
          ++ (header ++ (CRLF ++ "Connection: close" ++ CRLF ++ CRLF))))).
  rewrite !isascii_app.
  change (Url.isascii "GET ") with true.
  change (Url.isascii (" HTTP/1.1" ++ CRLF ++ "Host: ")) with true.
  change (Url.isascii (CRLF ++ "Connection: close" ++ CRLF ++ CRLF)) with true.
  rewrite !andb_true_r. cbn [andb].
  assert (Hpath : Url.isascii path
                  = Url.isascii (Url.path parsed) && Url.isascii (Url.query parsed)).
  { subst path.
    destruct (Url.path parsed) as [|c p] eqn:Ep; destruct (Url.query parsed) as [|d q] eqn:Eq;
      cbn [Url.nonempty]; rewrite ?isascii_app;
      change (Url.isascii "") with true; change (Url.isascii "?") with true;
      change (Url.isascii "/") with true; cbn [andb]; rewrite ?andb_true_r; reflexivity. }
  assert (Hheader : Url.isascii header = Url.isascii (Url.netloc parsed)).
  { subst header. destruct (Url.netloc parsed) as [|c n] eqn:En; [|reflexivity].
    cbn [Url.nonempty]. unfold Url.hostname. rewrite En. reflexivity. }
  rewrite Hpath, Hheader. reflexivity.
Qed.

(** Every outcome of the builder, by what the URL is. *)
Lemma build_outcomes (url : string) :
  match Url.urlparse check_bracketed_host url with
  | Err e => build_http_get check_bracketed_host url = Err e
  | Ok parsed =>
    if Url.nonempty (Url.scheme parsed)
       && negb (String.eqb (Url.lower (Url.scheme parsed)) "http")
    then build_http_get check_bracketed_host url = Err unsupported_scheme
    else
      match Url.port parsed with
      | Err e => build_http_get check_bracketed_host url = Err e
      | Ok p =>
        if Url.isascii (Url.path parsed) && Url.isascii (Url.query parsed)
           && Url.isascii (Url.netloc parsed)
        then ∃ host port request_bytes,
            build_http_get check_bracketed_host url = Ok (host, port, request_bytes)
        else build_http_get check_bracketed_host url = Err UnicodeEncodeError
      end
  end.
Proof.
  unfold build_http_get.
  destruct (Url.urlparse check_bracketed_host url) as [parsed|e]; [|reflexivity].
  destruct (_ && negb _); [reflexivity|].
  destruct (Url.port parsed) as [p|e]; [|reflexivity].
  unfold Url.encode_ascii. rewrite (request_isascii parsed).
  destruct (_ && _ && _); [eauto|reflexivity].
Qed.

End builder_outcomes.




(** ** A URL without a host *)

Section bare_paths.

Local Open Scope string_scope.

Variable check_bracketed_host : string → bool.

(** A bare path parses as a path: no scheme, no authority. *)
Lemma urlparse_bare_path (url : string) :
  bare_path url = true →
  Url.str_all line_safe url = true →
  Url.urlparse check_bracketed_host url = Ok (Url.split_rest "" "" url).
Proof.
  intros Hbare Hsafe. unfold Url.urlparse.
  assert (Hstrip : Url.lstrip (fun c => (Url.code c <=? 32)%nat) url = url).
  { destruct url as [|c rest]; [reflexivity|]. simpl.
    assert (Hc : c = "/"%char).
    { destruct rest as [|d rest]; simpl in Hbare.
      - apply Ascii.eqb_eq, Hbare.
      - apply andb_true_iff in Hbare as [Hc _]. apply Ascii.eqb_eq, Hc. }
    subst c. reflexivity. }
  rewrite Hstrip.
  change (Url.str_filter _ url) with (Url.str_filter line_safe url).
  rewrite (str_filter_id line_safe url Hsafe).
  assert (Hscheme : Url.split_scheme url = ("", url)).
  { unfold Url.split_scheme.
    destruct (Url.partition ":" url) as [[[|c0 cs] rest]|] eqn:Hp; try reflexivity.
    assert (Hc0 : c0 = "/"%char).
    { destruct url as [|c u]; [discriminate|]. simpl in Hp.
      assert (Hc : c = "/"%char).
      { destruct u as [|d u]; simpl in Hbare.
        - apply Ascii.eqb_eq, Hbare.
        - apply andb_true_iff in Hbare as [Hc _]. apply Ascii.eqb_eq, Hc. }
      subst c. simpl in Hp.
      destruct (Url.partition ":" u) as [[b a]|]; [|discriminate].
      injection Hp as <- _ _. reflexivity. }
    subst c0. reflexivity. }
  rewrite Hscheme.
  destruct (split_netloc_cases check_bracketed_host url) as [[body ->]|Hplain].
  - simpl in Hbare. discriminate.
  - rewrite Hplain. reflexivity.
Qed.

End bare_paths.




(** ** Runs that return *)

Section liveness.

Variables (host : string) (port : Z) (request_bytes : list byte) (timeout : Q).

(** [one_request] catches every exception: it returns, blocks, or
    reads on for ever; it never raises. *)
Lemma one_request_never_raises (server : peer) (fuel : nat) (now : Q) (e : exn) (t : Q) :
  one_request server fuel host port request_bytes timeout now ≠ Raised e t.
Proof.
  unfold one_request. unfold bind at 1. unfold perf_counter at 1. unfold try_except.
  match goal with
  | |- match ?body with _ => _ end ≠ _ => destruct body
  end; discriminate.
Qed.

(** With at least one permit, serving the tasks one after the other
    brings every task to its end, provided each request returns. *)
Lemma sequential_schedule_completes (servers : list (peer * nat)) :
  ∀ finished_tasks permits samples failures,
    Forall (fun '(server, fuel) =>
              ∃ duration t,
                one_request server fuel host port request_bytes timeout 0%Q
                = Value duration t) servers →
    ∃ samples' failures',
      closed_run host port request_bytes timeout
        (sequential_schedule finished_tasks servers)
        {| semaphore := Datatypes.S permits;
           tasks := replicate finished_tasks Done ++ replicate (length servers) Waiting;
           latencies := samples;
           error_count := failures |}
      = {| semaphore := Datatypes.S permits;
           tasks := replicate (finished_tasks + length servers) Done;
           latencies := samples';
           error_count := failures' |}.
Proof.
  induction servers as [|[server fuel] servers IH];
    intros finished_tasks permits samples failures Hreturn.
  - simpl. rewrite app_nil_r, Nat.add_0_r. eauto.
  - apply Forall_cons in Hreturn as [(duration & t & Hone) Hreturn].
    assert (Hlookup : ∀ x : task_state,
              (replicate finished_tasks Done ++ x :: replicate (length servers) Waiting)
                !! finished_tasks = Some x).
    { intros x. rewrite lookup_app_r by (rewrite length_replicate; lia).
      rewrite length_replicate, Nat.sub_diag. reflexivity. }
    assert (Hinsert : ∀ x y : task_state,
              <[finished_tasks := y]>
                (replicate finished_tasks Done ++ x :: replicate (length servers) Waiting)
              = replicate finished_tasks Done ++ y :: replicate (length servers) Waiting).
    { intros x y. rewrite insert_app_r_alt by (rewrite length_replicate; lia).
      rewrite length_replicate, Nat.sub_diag. reflexivity. }
    assert (Hstep :
      pool_step host port request_bytes timeout (Leave finished_tasks server fuel)
        (pool_step host port request_bytes timeout (Enter finished_tasks)
           {| semaphore := Datatypes.S permits;
              tasks := replicate finished_tasks Done
                       ++ Waiting :: replicate (length servers) Waiting;
              latencies := samples;
              error_count := failures |})
      = {| semaphore := Datatypes.S permits;
           tasks := replicate (Datatypes.S finished_tasks) Done
                    ++ replicate (length servers) Waiting;
           latencies := if Qltb duration 0 then samples else samples ++ [duration];
           error_count := if Qltb duration 0 then Datatypes.S failures else failures |}).
    { cbn [pool_step]. unfold perform_request_enter.
      cbn [tasks semaphore latencies error_count]. rewrite Hlookup, Hinsert.
      unfold perform_request_leave.
      cbn [tasks semaphore latencies error_count]. rewrite Hlookup, Hinsert, Hone.
      f_equal. rewrite replicate_S_end, <- app_assoc. reflexivity. }
    destruct (IH (Datatypes.S finished_tasks) permits
                (if Qltb duration 0 then samples else samples ++ [duration])
                (if Qltb duration 0 then Datatypes.S failures else failures)
                Hreturn) as (samples' & failures' & Hrun).
    exists samples', failures'.
    cbn [sequential_schedule length replicate]. unfold closed_run in *.
    cbn [fold_left]. rewrite Hstep, Hrun. f_equal. f_equal. lia.
Qed.

Lemma replicate_all_done (n : nat) : all_done (replicate n Done) = true.
Proof. induction n as [|n IH]; [reflexivity|]. simpl. exact IH. Qed.

End liveness.

(** X5.  A closed-loop run returns under the sequential schedule: with a
    valid URL, a concurrency of at least one and servers that all let
    the request return (with a latency or with a failure), the run
    produces its summary. *)
Lemma closed_once_returns
    (check_bracketed_host : string → bool) (world : nat → run_env)
    (url : string) (total_requests concurrency : Z) (timeout : Q) (verbose : bool)
    (calls : nat) (servers : list (peer * nat)) host port request_bytes :
  build_http_get check_bracketed_host url = Ok (host, port, request_bytes) →
  0 < concurrency →
  length servers = Z.to_nat total_requests →
  Forall (fun '(server, fuel) =>
            ∃ duration t,
              one_request server fuel host port request_bytes timeout 0%Q
              = Value duration t) servers →
  schedule (world calls) = sequential_schedule 0 servers →
  ∃ r,
    _closed_once check_bracketed_host world url total_requests concurrency timeout verbose
      calls = Value r (Datatypes.S calls).
Proof.
  intros Hbuild Hc Hlen Hreturn Hschedule.
  unfold _closed_once, bind, lift. rewrite Hbuild. simpl.
  unfold Semaphore. destruct (Z.ltb_spec concurrency 0); [lia|]. simpl.
  unfold next_env. rewrite Hschedule.
  destruct (Z.to_nat concurrency) as [|permits] eqn:Hpermits; [lia|].
  destruct (sequential_schedule_completes host port request_bytes timeout servers
              0%nat permits [] 0%nat Hreturn) as (samples & failures & Hrun).
  unfold closed_start. rewrite <- Hlen.
  change (replicate 0 Done ++ replicate (length servers) Waiting)
    with (replicate (length servers) Waiting) in Hrun.
  rewrite Hrun. cbn [tasks]. rewrite replicate_all_done. eauto.
Qed.

(** ** Worked examples *)

(** With ten sorted values, p90 picks index round(0.9 * 9) = 8. *)
Example p90_of_ten_values :
  nearest_rank_index (9#10) 10 = 8%nat
  ∧ percentile [1; 2; 3; 4; 5; 6; 7; 8; 9; 10]%Q (9#10) = 9%Q.
Proof. split; reflexivity. Qed.

(** The nearest-rank median of two values is the upper one, not their
    mean; the median of repeats is their mean. *)
Example percentile_is_not_interpolated :
  percentile [1; 2]%Q (1#2) = 2%Q ∧ Qeq (median [1; 2]%Q) (3#2).
Proof. split; reflexivity. Qed.

(** A quantile outside [0, 1] is clamped to the ends of the list. *)
Example percentile_is_clamped :
  percentile [1; 2; 3]%Q (-5) = 1%Q ∧ percentile [1; 2; 3]%Q 7 = 3%Q.
Proof. split; reflexivity. Qed.

Example urlparse_full_url :
  Url.urlparse no_bracket_check "HTTP://User@Host:8080/a/b;x=1?y#frag"
  = Ok {| Url.scheme := "http"; Url.netloc := "User@Host:8080"; Url.path := "/a/b";
          Url.params := "x=1"; Url.query := "y"; Url.fragment := "frag" |}
  ∧ Url.hostname (Url.split_rest "http" "User@Host:8080" "/a/b;x=1?y#frag") = Some "host"%string
  ∧ Url.port (Url.split_rest "http" "User@Host:8080" "/a/b;x=1?y#frag") = Ok (Some 8080).
Proof. repeat split; reflexivity. Qed.

Example urlparse_host_and_port_without_scheme :
  Url.urlparse no_bracket_check "localhost:8000/x"
  = Ok {| Url.scheme := "localhost"; Url.netloc := ""; Url.path := "8000/x";
          Url.params := ""; Url.query := ""; Url.fragment := "" |}
  ∧ build_http_get no_bracket_check "localhost:8000/x" = Err unsupported_scheme.
Proof. split; reflexivity. Qed.

Example build_http_get_port_zero :
  ∃ request_bytes,
    build_http_get no_bracket_check "http://h:0/a;b?c#d" = Ok ("h"%string, 80, request_bytes)
    ∧ request_bytes
      = bytes_of ("GET /a?c HTTP/1.1" ++ CRLF ++ "Host: h:0" ++ CRLF
                  ++ "Connection: close" ++ CRLF ++ CRLF)%string.
Proof. eexists. split; reflexivity. Qed.

Example build_http_get_ipv6_literal :
  ∃ request_bytes,
    build_http_get no_bracket_check "http://[::1]:8080/" = Ok ("::1"%string, 8080, request_bytes)
    ∧ contains_bytes (bytes_of "Host: [::1]:8080") request_bytes = true.
Proof. eexists. split; reflexivity. Qed.

Example one_request_outcomes :
  (∃ latency t,
      one_request prompt_server 8 "127.0.0.1" 8000 [] 5 0%Q = Value latency t
      ∧ Qeq latency (4#100))
  ∧ (∃ t, one_request silent_server 8 "127.0.0.1" 8000 [] 5 0%Q = Value (-1)%Q t)
  ∧ one_request prompt_server 1 "127.0.0.1" 8000 [] 5 0%Q = OutOfFuel.
Proof.
  split; [|split].
  - eexists _, _. split; [vm_compute; reflexivity|]. reflexivity.
  - eexists. vm_compute. reflexivity.
  - reflexivity.
Qed.

(** A whole preset, end to end: one sweep row, then three open-loop rows
    at the floor rate of 50 requests per second under a cap of 2. *)
Example run_preset_end_to_end :
  ∃ rows,
    run_preset no_bracket_check one_request_world "http://127.0.0.1:8000/" "smoke" 5
      tiny_smoke 0%nat = Value rows 4%nat
    ∧ map phase rows = ["closed_sweep"; "open_loop"; "open_loop"; "open_loop"]%string
    ∧ map concurrency rows = [1; 2; 2; 2]
    ∧ map open_target_rps rows = [None; Some 50%Q; Some 50%Q; Some 50%Q]
    ∧ Forall (fun r => Qeq (throughput_rps r) (1#2) ∧ Qeq (errors r) 0) rows.
Proof.
  eexists. split; [vm_compute; reflexivity|].
  split; [reflexivity|]. split; [reflexivity|]. split; [reflexivity|].
  repeat constructor.
Qed.

(** * Further properties of the code *)

(** ** One request: its value, and the server that never closes *)

Section one_request_value.

Variables (server : peer) (timeout : Q).

Lemma await_clock {A} (aw : awaited A) (now t : Q) (v : A) :
  takes_time aw → await aw now = Value v t → (now <= t)%Q.
Proof.
  destruct aw as [e x|e x|]; simpl; try discriminate.
  intros He [= _ <-]. rewrite <- (Qplus_0_r now) at 1.
  apply Qplus_le_r, He.
Qed.

Lemma wait_for_takes_time {A} (aw : awaited A) (now t : Q) (v : A) :
  takes_time aw → await (wait_for aw timeout) now = Value v t → (now <= t)%Q.
Proof.
  intros Haw. destruct aw as [e x|e x|]; simpl; try discriminate;
    destruct (Qle_bool e timeout); simpl; try discriminate.
  intros [= _ <-]. rewrite <- (Qplus_0_r now) at 1. apply Qplus_le_r, Haw.
Qed.

(** The clock does not go back while the response is read. *)
Lemma read_until_eof_clock (fuel : nat) :
  ∀ k now t,
    (∀ j, takes_time (read server j)) →
    read_until_eof fuel server timeout k now = Value tt t → (now <= t)%Q.
Proof.
  induction fuel as [|fuel IH]; intros k now t Hreads; simpl; [discriminate|].
  unfold bind.
  destruct (await (wait_for (read server k) timeout) now) as [chunk t1|e t1| |] eqn:Hread;
    try discriminate.
  pose proof (wait_for_takes_time _ _ _ _ (Hreads k) Hread) as H1.
  destruct chunk as [|b chunk].
  - intros [= <-]. exact H1.
  - intros Hrest. apply (Qle_trans _ t1); [exact H1|]. eapply IH; eauto.
Qed.

(** When every [read] hands over a chunk in time, the loop goes on
    whatever the fuel: the request never returns. *)
Lemma read_until_eof_forever (fuel : nat) :
  ∀ k now,
    (∀ j, delivers (read server j) timeout) →
    read_until_eof fuel server timeout k now = OutOfFuel.
Proof.
  induction fuel as [|fuel IH]; intros k now Hreads; simpl; [reflexivity|].
  unfold bind.
  destruct (delivers_chunk _ _ (Hreads k)) as (e & b & chunk & Hread & Hwait).
  rewrite Hwait, Hread. simpl. apply IH, Hreads.
Qed.

End one_request_value.

(** X1.  [one_request] never raises, whatever the server does; and when
    no awaited operation takes negative time, the value it returns is
    either the failure value -1 or a latency that is not negative, so
    that the test [duration < 0] of the callers tells the two apart. *)
Theorem one_request_failure_or_latency
    (server : peer) (fuel : nat) (host : string) (port : Z)
    (request_bytes : list byte) (timeout now : Q) :
  (∀ e t, one_request server fuel host port request_bytes timeout now ≠ Raised e t)
  ∧ (well_timed server →
     ∀ duration t,
       one_request server fuel host port request_bytes timeout now = Value duration t →
       duration = (-1)%Q ∨ (0 <= duration)%Q).
Proof.
  split; [intros e t; apply one_request_never_raises|].
  intros (Hconnect & Hdrain & Hreads & Hclose) duration t.
  unfold one_request. unfold bind at 1. unfold perf_counter at 1. unfold try_except at 1.
  unfold bind at 1.
  destruct (await (wait_for (connect server) timeout) now) as [u t1|e t1| |] eqn:H1;
    try discriminate; [|intros [= <- _]; auto].
  pose proof (wait_for_takes_time _ _ _ _ _ Hconnect H1) as L1.
  unfold bind at 1.
  destruct (await (drain server) t1) as [u2 t2|e t2| |] eqn:H2;
    try discriminate; [|intros [= <- _]; auto].
  pose proof (await_clock _ _ _ _ Hdrain H2) as L2.
  unfold bind at 1.
  destruct (read_until_eof fuel server timeout 0 t2) as [[] t3|e t3| |] eqn:H3;
    try discriminate; [|intros [= <- _]; auto].
  pose proof (read_until_eof_clock _ _ _ _ _ _ Hreads H3) as L3.
  unfold bind at 1. unfold try_except.
  destruct (await (wait_closed server) t3) as [u4 t4|e t4| |] eqn:H4; try discriminate.
  - pose proof (await_clock _ _ _ _ Hclose H4) as L4.
    unfold bind, perf_counter, ret. intros [= <- _]. right.
    apply (Qplus_le_l _ _ now). ring_simplify.
    apply (Qle_trans _ t1); [exact L1|]. apply (Qle_trans _ t2); [exact L2|].
    apply (Qle_trans _ t3); [exact L3|exact L4].
  - assert (L4 : (t3 <= t4)%Q).
    { destruct (wait_closed server) as [e' x|e' x|]; simpl in *; try discriminate.
      injection H4 as _ <-. rewrite <- (Qplus_0_r t3) at 1. apply Qplus_le_r, Hclose. }
    unfold ret, bind, perf_counter. intros [= <- _]. right.
    apply (Qplus_le_l _ _ now). ring_simplify.
    apply (Qle_trans _ t1); [exact L1|]. apply (Qle_trans _ t2); [exact L2|].
    apply (Qle_trans _ t3); [exact L3|exact L4].
Qed.

Lemma well_timed_prompt_server : well_timed prompt_server.
Proof.
  split; [discriminate|]. split; [discriminate|]. split; [|discriminate].
  intros [|k]; discriminate.
Qed.

Lemma one_request_failure_or_latency_witness :
  well_timed prompt_server
  ∧ ∃ duration t,
      one_request prompt_server 8 "127.0.0.1" 8000 [] 5 0%Q = Value duration t
      ∧ (duration = (-1)%Q ∨ (0 <= duration)%Q).
Proof.
  split; [exact well_timed_prompt_server|].
  eexists _, _. split; [vm_compute; reflexivity|].
  eapply (proj2 (one_request_failure_or_latency prompt_server 8 "127.0.0.1" 8000 [] 5 0%Q)
            well_timed_prompt_server).
  vm_compute. reflexivity.
Defined.

(** X2.  The read loop has no deadline of its own: against a server
    that accepts the connection, takes the request and then hands over
    a non-empty chunk within the timeout at every [read], without ever
    closing, [one_request] never returns, however long it is run. *)
Theorem one_request_reads_forever
    (server : peer) (host : string) (port : Z)
    (request_bytes : list byte) (timeout now : Q) :
  completes_in_time (connect server) timeout →
  (∃ e v, drain server = Completes e v) →
  (∀ k, delivers (read server k) timeout) →
  ∀ fuel, one_request server fuel host port request_bytes timeout now = OutOfFuel.
Proof.
  intros Hconnect (e & v & Hdrain) Hreads fuel.
  unfold one_request, bind, try_except, perf_counter.
  rewrite (wait_for_in_time _ _ Hconnect).
  destruct (connect server) as [c u|c x|]; simpl in Hconnect; try contradiction.
  simpl. rewrite Hdrain. simpl.
  rewrite (read_until_eof_forever server timeout fuel 0%nat _ Hreads). reflexivity.
Qed.

Lemma one_request_reads_forever_witness :
  completes_in_time (connect trickling_server) 5
  ∧ ∀ fuel, one_request trickling_server fuel "127.0.0.1" 8000 [] 5 0%Q = OutOfFuel.
Proof.
  assert (Hconnect : completes_in_time (connect trickling_server) 5) by discriminate.
  split; [exact Hconnect|].
  apply (one_request_reads_forever trickling_server "127.0.0.1" 8000 [] 5 0%Q Hconnect).
  - exists 0%Q, tt. reflexivity.
  - intros k. simpl. discriminate.
Defined.

(** ** The closed loop: bounded concurrency, runs that end and runs that do not *)

(** X3.  In a closed-loop run with [permits] permits, whatever the
    order of events: the permits that are free and the requests inside
    [one_request] always add up to [permits], so that no more than
    [permits] requests are in flight and no exit, success or failure,
    leaks a permit. *)
Theorem closed_loop_bounded_concurrency
    (host : string) (port : Z) (request_bytes : list byte) (timeout : Q)
    (permits : nat) (total_requests : Z) (events : list event) :
  let s := closed_run host port request_bytes timeout events
             (closed_start permits total_requests) in
  (semaphore s + executing s = permits)%nat
  ∧ (executing s <= permits)%nat
  ∧ (all_done (tasks s) = true → semaphore s = permits).
Proof.
  intros s.
  destruct (closed_start_inv permits total_requests) as [Hinv0 _].
  destruct (closed_run_inv host port request_bytes timeout permits events _ Hinv0)
    as [[Hsem _] _].
  fold s in Hsem. split; [exact Hsem|]. split; [lia|].
  intros Hdone. unfold executing in Hsem.
  assert (Hnone : length (filter (fun t => t = Executing) (tasks s)) = 0%nat).
  { clear Hsem. revert Hdone. unfold all_done.
    induction (tasks s) as [|t ts IH]; [reflexivity|]. simpl.
    intros [Ht Hts]%andb_true_iff. apply bool_decide_eq_true in Ht. subst t.
    rewrite filter_cons. case_decide; [discriminate|]. auto. }
  lia.
Qed.

Section zero_concurrency.

Variables (host : string) (port : Z) (request_bytes : list byte) (timeout : Q).

(** Without a permit no task ever starts. *)
Lemma closed_run_stuck (n : nat) (events : list event) :
  closed_run host port request_bytes timeout events
    {| semaphore := 0; tasks := replicate n Waiting; latencies := []; error_count := 0 |}
  = {| semaphore := 0; tasks := replicate n Waiting; latencies := []; error_count := 0 |}.
Proof.
  induction events as [|e events IH]; [reflexivity|].
  unfold closed_run in *. cbn [fold_left].
  replace (pool_step host port request_bytes timeout e _)
    with {| semaphore := 0; tasks := replicate n Waiting; latencies := []; error_count := 0 |};
    [exact IH|].
  destruct e as [task|task server fuel|task|now|]; try reflexivity; simpl.
  - unfold perform_request_enter. simpl.
    destruct (replicate n Waiting !! task) as [[| |]|]; reflexivity.
  - unfold perform_request_leave. simpl.
    destruct (replicate n Waiting !! task) as [t|] eqn:Ht; [|reflexivity].
    apply lookup_replicate in Ht as [-> _]. reflexivity.
Qed.

End zero_concurrency.

(** X4.  A closed-loop run with concurrency 0 and at least one request
    never returns: the semaphore is created without a permit, no request
    ever starts, and [gather] waits for ever. *)
Theorem closed_once_zero_concurrency_hangs
    (check_bracketed_host : string → bool) (world : nat → run_env)
    (url : string) (total_requests : Z) (timeout : Q) (verbose : bool) (calls : nat)
    (target : string * Z * list byte) :
  build_http_get check_bracketed_host url = Ok target →
  0 < total_requests →
  _closed_once check_bracketed_host world url total_requests 0 timeout verbose calls = Hangs.
Proof.
  intros Hbuild Hn. unfold _closed_once, bind, lift. rewrite Hbuild.
  destruct target as [[host port] request_bytes]. simpl.
  unfold next_env, closed_start. rewrite closed_run_stuck. simpl.
  destruct (Z.to_nat total_requests) as [|n] eqn:E; [lia|]. reflexivity.
Qed.

Lemma closed_once_zero_concurrency_hangs_witness :
  0 < 3
  ∧ _closed_once no_bracket_check three_requests_world "http://127.0.0.1:8000/" 3 0 5 false 0%nat
    = Hangs.
Proof.
  assert (Hn : 0 < 3) by lia.
  split; [exact Hn|].
  eapply (closed_once_zero_concurrency_hangs no_bracket_check three_requests_world
            "http://127.0.0.1:8000/" 3 5 false 0%nat _ eq_refl Hn).
Defined.

Lemma closed_once_returns_witness :
  0 < 1
  ∧ ∃ r,
      _closed_once no_bracket_check sequential_world "http://127.0.0.1:8000/" 2 1 5 false 0%nat
      = Value r 1%nat.
Proof.
  assert (Hc : 0 < 1) by lia.
  split; [exact Hc|].
  eapply (closed_once_returns no_bracket_check sequential_world "http://127.0.0.1:8000/"
            2 1 5 false 0%nat two_servers _ _ _ eq_refl Hc eq_refl).
  - repeat constructor; eexists _, _; vm_compute; reflexivity.
  - reflexivity.
Defined.

(** X6.  The summary of a closed-loop run that returns: the wall time
    is the clock difference around the batch; the throughput times the
    wall time is the number of successes when the wall time is positive,
    and the throughput is 0 otherwise; and a run without a single success
    still returns a summary, with an error count equal to the number of
    requests (when that is not negative), throughput 0 and every latency
    field 0. *)
Theorem closed_once_summary
    (check_bracketed_host : string → bool) (world : nat → run_env)
    (url : string) (total_requests concurrency : Z) (timeout : Q) (verbose : bool)
    (calls calls' : nat) (r : Once.t) :
  _closed_once check_bracketed_host world url total_requests concurrency timeout verbose calls
  = Value r calls' →
  let successes := Stats.successful_requests (Once.stats r) in
  Once.wall r = (finished (world calls) - started (world calls))%Q
  ∧ ((0 < Once.wall r)%Q →
     Qeq (Once.throughput r * Once.wall r) (inject_Z (Z.of_nat successes)))
  ∧ ((Once.wall r <= 0)%Q → Once.throughput r = 0%Q)
  ∧ (successes = 0%nat →
     Qeq (Once.throughput r) 0
     ∧ Once.stats r = _summarize_latencies []
     ∧ (0 <= total_requests → Z.of_nat (Once.errors r) = total_requests)).
Proof.
  intros Hrun successes.
  unfold _closed_once, bind, lift in Hrun.
  destruct (build_http_get check_bracketed_host url) as [[[host port] request_bytes]|e];
    [|discriminate]. simpl in Hrun.
  destruct (Semaphore concurrency) as [permits|e]; [|discriminate]. simpl in Hrun.
  unfold next_env in Hrun.
  destruct (all_done _) eqn:Hdone; [|discriminate].
  injection Hrun as Hr _.
  set (s := closed_run _ _ _ _ _ _) in *.
  set (wall := (finished (world calls) - started (world calls))%Q) in *.
  assert (Hwall : Once.wall r = wall) by (rewrite <- Hr; reflexivity).
  assert (Hthr : Once.throughput r
                 = if Qltb 0 wall then (inject_Z (Z.of_nat successes) / wall)%Q else 0%Q).
  { subst successes. rewrite <- Hr. reflexivity. }
  split; [exact Hwall|]. rewrite Hwall, Hthr. split; [|split].
  - intros Hpos. pose proof Hpos as Hb. apply Qltb_lt in Hb. rewrite Hb.
    field. intros Hz. rewrite Hz in Hpos. exact (Qlt_irrefl 0 Hpos).
  - intros Hle. apply Qltb_ge in Hle. rewrite Hle. reflexivity.
  - intros Hzero. rewrite Hzero.
    assert (Hlat : latencies s = []).
    { apply length_zero_iff_nil. rewrite <- (sorted_length (latencies s)).
      subst successes. rewrite <- Hr in Hzero. exact Hzero. }
    split; [|split].
    + destruct (Qltb 0 wall); [|reflexivity]. unfold Qdiv. apply Qmult_0_l.
    + rewrite <- Hr. simpl. rewrite Hlat. reflexivity.
    + intros Hn. rewrite <- Hr. simpl.
      destruct (closed_start_inv permits total_requests) as [Hinv0 Hlen0].
      destruct (closed_run_inv host port request_bytes timeout permits
                  (schedule (world calls)) _ Hinv0) as [[_ Hcount] Hlen].
      fold s in Hcount, Hlen. unfold completed in Hcount.
      rewrite (all_done_completed _ Hdone), Hlat in Hcount. simpl in Hcount. lia.
Qed.

Lemma closed_once_summary_witness :
  ∃ r,
    _closed_once no_bracket_check three_requests_world "http://127.0.0.1:8000/" 3 2 5 false 0%nat
    = Value r 1%nat
    ∧ Once.wall r = (2 - 0)%Q
    ∧ Qeq (Once.throughput r) 1.
Proof.
  eexists. split; [vm_compute; reflexivity|].
  split.
  - eapply (proj1 (closed_once_summary no_bracket_check three_requests_world
                     "http://127.0.0.1:8000/" 3 2 5 false 0%nat 1%nat _ _)).
  - reflexivity.
  Unshelve. vm_compute. reflexivity.
Defined.

(** ** Latency statistics: order of the fields *)

Section ordered_statistics.

Lemma sorted_items_ordered (s : list Q) :
  StronglySorted Qle s →
  ∀ i j x y, s !! i = Some x → s !! j = Some y → (i <= j)%nat → (x <= y)%Q.
Proof.
  induction 1 as [|a l Hl IH Ha]; intros i j x y Hi Hj Hij; [discriminate|].
  destruct i as [|i], j as [|j]; simpl in *; try lia.
  - injection Hi as <-. injection Hj as <-. apply Qle_refl.
  - injection Hi as <-. rewrite Forall_lookup in Ha. eapply Ha, Hj.
  - eapply IH; eauto. lia.
Qed.

Lemma item_ordered (s : list Q) (i j : nat) :
  Sorted Qle s → (i <= j)%nat → (j < length s)%nat → (item s i <= item s j)%Q.
Proof.
  intros Hs Hij Hj. apply (Sorted_StronglySorted Qle) in Hs.
  destruct (item_split s i ltac:(lia)) as [_ Hi].
  destruct (item_split s j Hj) as [_ Hj'].
  eapply sorted_items_ordered; eauto.
Qed.

(** The nearest-rank index grows with the quantile. *)
Lemma nearest_rank_index_mono (q1 q2 : Q) (n : nat) :
  (q1 <= q2)%Q → (nearest_rank_index q1 n <= nearest_rank_index q2 n)%nat.
Proof.
  intros Hq. unfold nearest_rank_index, round_nearest.
  destruct n as [|n]; [simpl; lia|].
  assert (Hfloor : Qfloor (q1 * inject_Z (Z.of_nat (Datatypes.S n) - 1) + (1#2))
                   <= Qfloor (q2 * inject_Z (Z.of_nat (Datatypes.S n) - 1) + (1#2))).
  { apply Qfloor_resp_le, Qplus_le_l, Qmult_le_compat_r; [exact Hq|].
    change 0%Q with (inject_Z 0). rewrite <- Zle_Qle. lia. }
  lia.
Qed.

Lemma nearest_rank_index_low (q : Q) (n : nat) :
  (q <= 0)%Q → nearest_rank_index q n = 0%nat.
Proof.
  intros Hq. unfold nearest_rank_index, round_nearest.
  destruct n as [|n]; [simpl; lia|].
  assert (Hfloor : Qfloor (q * inject_Z (Z.of_nat (Datatypes.S n) - 1) + (1#2)) <= 0).
  { change 0 with (Qfloor (1#2)). apply Qfloor_resp_le.
    rewrite <- (Qplus_0_l (1#2)) at 2. apply Qplus_le_l.
    rewrite <- (Qmult_0_l (inject_Z (Z.of_nat (Datatypes.S n) - 1))).
    apply Qmult_le_compat_r; [exact Hq|].
    change 0%Q with (inject_Z 0). rewrite <- Zle_Qle. lia. }
  lia.
Qed.

Lemma nearest_rank_index_high (q : Q) (n : nat) :
  (1 <= q)%Q → nearest_rank_index q n = (n - 1)%nat.
Proof.
  intros Hq. unfold nearest_rank_index, round_nearest.
  destruct n as [|n]; [simpl; lia|].
  set (last := Z.of_nat (Datatypes.S n) - 1).
  assert (Hfloor : last <= Qfloor (q * inject_Z last + (1#2))).
  { rewrite <- (Qfloor_Z last) at 1. apply Qfloor_resp_le.
    apply (Qle_trans _ (1 * inject_Z last + 0)).
    - rewrite Qmult_1_l, Qplus_0_r. apply Qle_refl.
    - apply Qplus_le_compat; [|discriminate].
      apply Qmult_le_compat_r; [exact Hq|].
      change 0%Q with (inject_Z 0). rewrite <- Zle_Qle. subst last. lia. }
  subst last. lia.
Qed.

(** In a sorted list every item lies between the first and the last. *)
Lemma sorted_between_ends (s : list Q) :
  Sorted Qle s →
  Forall (fun x => (item s 0 <= x)%Q ∧ (x <= item s (length s - 1))%Q) s.
Proof.
  intros Hs. apply Forall_lookup. intros i x Hi.
  pose proof (lookup_lt_Some _ _ _ Hi) as Hlt.
  assert (Hx : item s i = x) by (unfold item; rewrite Hi; reflexivity).
  rewrite <- Hx. split; apply item_ordered; try assumption; lia.
Qed.

End ordered_statistics.

(** X8.  On a list sorted in ascending order, the percentile grows with
    the quantile; a quantile of 0 or less gives the first item (the
    minimum) and a quantile of 1 or more the last (the maximum). *)
Theorem percentile_monotone (sorted_values : list Q) (q1 q2 : Q) :
  Sorted Qle sorted_values →
  ((q1 <= q2)%Q → (percentile sorted_values q1 <= percentile sorted_values q2)%Q)
  ∧ ((q1 <= 0)%Q → percentile sorted_values q1 = item sorted_values 0)
  ∧ ((1 <= q1)%Q →
     percentile sorted_values q1 = item sorted_values (length sorted_values - 1)).
Proof.
  intros Hs. rewrite !percentile_index. split; [|split].
  - intros Hq. destruct sorted_values as [|x l]; [apply Qle_refl|].
    apply item_ordered; [exact Hs|apply nearest_rank_index_mono, Hq|].
    apply nearest_rank_index_lt. simpl. lia.
  - intros Hq. rewrite nearest_rank_index_low by exact Hq. reflexivity.
  - intros Hq. rewrite nearest_rank_index_high by exact Hq. reflexivity.
Qed.

Lemma percentile_monotone_witness :
  Sorted Qle [1; 2; 4; 8]%Q
  ∧ (percentile [1; 2; 4; 8]%Q (1#4) <= percentile [1; 2; 4; 8]%Q (3#4))%Q
  ∧ percentile [1; 2; 4; 8]%Q 0 = 1%Q
  ∧ percentile [1; 2; 4; 8]%Q 1 = 8%Q.
Proof.
  assert (Hs : Sorted Qle [1; 2; 4; 8]%Q).
  { repeat constructor; discriminate. }
  split; [exact Hs|].
  destruct (percentile_monotone [1; 2; 4; 8]%Q (1#4) (3#4) Hs) as (Hmono & _ & _).
  destruct (percentile_monotone [1; 2; 4; 8]%Q 0 1 Hs) as (_ & Hlow & _).
  destruct (percentile_monotone [1; 2; 4; 8]%Q 1 1 Hs) as (_ & _ & Hhigh).
  split; [apply Hmono; discriminate|].
  split; [apply Hlow; discriminate|apply Hhigh; discriminate].
Defined.

(** X7.  The statistics of a non-empty list of latencies are
    ordered: min <= p50 <= p90 <= p99 <= max; the success count is the
    number of latencies, and every latency (in milliseconds) lies
    between [min_ms] and [max_ms].  (Nothing is said of [avg_ms]: the
    mean is computed in floating point, and its rounding can carry it a
    last digit beyond the largest latency.) *)
Theorem summary_fields_ordered (latencies : list Q) :
  latencies ≠ [] →
  let stats := _summarize_latencies latencies in
  Stats.successful_requests stats = length latencies
  ∧ (Stats.min_ms stats <= Stats.p50_ms stats)%Q
  ∧ (Stats.p50_ms stats <= Stats.p90_ms stats)%Q
  ∧ (Stats.p90_ms stats <= Stats.p99_ms stats)%Q
  ∧ (Stats.p99_ms stats <= Stats.max_ms stats)%Q
  ∧ Forall (fun x => (Stats.min_ms stats <= x * 1000)%Q ∧ (x * 1000 <= Stats.max_ms stats)%Q)
      latencies.
Proof.
  intros Hne stats. subst stats. unfold _summarize_latencies.
  set (s := sorted latencies).
  assert (Hs : Sorted Qle s) by apply sorted_Sorted.
  assert (Hlen : length s = length latencies) by apply sorted_length.
  assert (Hpos : (0 < length s)%nat).
  { rewrite Hlen. destruct latencies; [done|simpl; lia]. }
  destruct (length s =? 0)%nat eqn:E; [apply Nat.eqb_eq in E; lia|]. simpl. clear E.
  assert (Hscale : ∀ a b : Q, (a <= b)%Q → (a * 1000 <= b * 1000)%Q).
  { intros a b Hab. apply Qmult_le_compat_r; [exact Hab|discriminate]. }
  assert (Hpct : ∀ q1 q2, (q1 <= q2)%Q → (percentile s q1 <= percentile s q2)%Q).
  { intros q1 q2 Hq. rewrite !percentile_index.
    apply item_ordered; [exact Hs|apply nearest_rank_index_mono, Hq|].
    apply nearest_rank_index_lt, Hpos. }
  pose proof (sorted_between_ends s Hs) as Hends.
  split; [exact Hlen|].
  split.
  { apply Hscale. rewrite percentile_index. apply item_ordered; [exact Hs|lia|].
    apply nearest_rank_index_lt, Hpos. }
  split; [apply Hscale, Hpct; discriminate|].
  split; [apply Hscale, Hpct; discriminate|].
  split.
  { apply Hscale. rewrite percentile_index. apply item_ordered; [exact Hs| |lia].
    pose proof (nearest_rank_index_lt (99#100) (length s) Hpos). lia. }
  apply Forall_forall. intros x Hx.
  assert (Hin : x ∈ s) by (unfold s; rewrite sorted_Permutation; exact Hx).
  rewrite Forall_forall in Hends. destruct (Hends x Hin) as [H1 H2].
  split; apply Hscale; assumption.
Qed.

Lemma summary_fields_ordered_witness :
  let stats := _summarize_latencies [3; 1; 2]%Q in
  [3; 1; 2]%Q ≠ []
  ∧ (Stats.min_ms stats <= Stats.p50_ms stats)%Q
  ∧ (Stats.p99_ms stats <= Stats.max_ms stats)%Q.
Proof.
  intros stats.
  assert (Hne : [3; 1; 2]%Q ≠ []) by discriminate.
  destruct (summary_fields_ordered [3; 1; 2]%Q Hne)
    as (_ & Hmin & _ & _ & Hmax & _).
  split; [exact Hne|]. split; [exact Hmin|exact Hmax].
Defined.

(** ** The runners: warm-up, repeats and sweep *)

(** X9.  A call of [run_closed] that returns has made exactly
    one warm-up run if [warmup > 0] and then [repeat] measured runs; the
    summary is built from the measured runs alone, in the order they
    were made: the result of the warm-up is thrown away. *)
Theorem run_closed_measures_after_warmup
    (check_bracketed_host : string → bool) (world : nat → run_env)
    (url : string) (total concurrency : Z) (timeout : Q) (warmup repeat : Z) (quiet : bool)
    (calls calls' : nat) (summary : Summary.t) :
  run_closed check_bracketed_host world url total concurrency timeout warmup repeat quiet calls
  = Value summary calls' →
  let first := (calls + if (0 <? warmup)%Z then 1 else 0)%nat in
  calls' = (calls + closed_runs_per_summary warmup repeat)%nat
  ∧ ∃ run_summaries,
      length run_summaries = Z.to_nat repeat
      ∧ (∀ i r, run_summaries !! i = Some r →
           _closed_once check_bracketed_host world url total concurrency timeout (negb quiet)
             (first + i)%nat = Value r (Datatypes.S (first + i)))
      ∧ summary = summary_of run_summaries repeat.
Proof. apply run_closed_runs. Qed.

Lemma run_closed_measures_after_warmup_witness :
  ∃ summary,
    run_closed no_bracket_check three_requests_world "http://127.0.0.1:8000/" 3 2 5 1 2 true 0%nat
    = Value summary 3%nat
    ∧ 3%nat = (0 + closed_runs_per_summary 1 2)%nat.
Proof.
  assert (Hrun : ∃ r, run_closed no_bracket_check three_requests_world "http://127.0.0.1:8000/" 3 2 5 1 2 true 0%nat = Value r 3%nat)
    by (eexists; vm_compute; reflexivity).
  destruct Hrun as [r Hrun]. exists r. split; [exact Hrun|].
  exact (proj1 (run_closed_measures_after_warmup _ _ _ _ _ _ _ _ _ _ _ _ Hrun)).
Defined.

(** X10.  The same for [run_open]: one warm-up run if
    [warmup_sec > 0], then [repeat] measured runs of [duration] seconds,
    and a summary of the measured runs alone. *)
Theorem run_open_measures_after_warmup
    (check_bracketed_host : string → bool) (world : nat → run_env)
    (url : string) (rps duration : Q) (concurrency : Z) (timeout warmup_sec : Q) (repeat : Z)
    (quiet : bool) (calls calls' : nat) (summary : Summary.t) :
  run_open check_bracketed_host world url rps duration concurrency timeout warmup_sec repeat
    quiet calls = Value summary calls' →
  let first := (calls + if Qltb 0 warmup_sec then 1 else 0)%nat in
  calls' = (calls + open_runs_per_summary warmup_sec repeat)%nat
  ∧ ∃ run_summaries,
      length run_summaries = Z.to_nat repeat
      ∧ (∀ i r, run_summaries !! i = Some r →
           _open_once check_bracketed_host world url rps duration concurrency timeout
             (negb quiet) (first + i)%nat = Value r (Datatypes.S (first + i)))
      ∧ summary = summary_of run_summaries repeat.
Proof. apply run_open_runs. Qed.

Lemma run_open_measures_after_warmup_witness :
  ∃ summary,
    run_open no_bracket_check open_loop_world "http://127.0.0.1:8000/" 2 1 1 5 1 2 true 0%nat
    = Value summary 3%nat
    ∧ 3%nat = (0 + open_runs_per_summary 1 2)%nat.
Proof.
  assert (Hrun : ∃ r, run_open no_bracket_check open_loop_world "http://127.0.0.1:8000/" 2 1 1 5 1 2 true 0%nat = Value r 3%nat)
    by (eexists; vm_compute; reflexivity).
  destruct Hrun as [r Hrun]. exists r. split; [exact Hrun|].
  exact (proj1 (run_open_measures_after_warmup _ _ _ _ _ _ _ _ _ _ _ _ _ Hrun)).
Defined.

(** X11.  A sweep that returns gives one result per concurrency
    of its argument, in the same order and labelled with it; each is the
    summary of a [run_closed] at that concurrency, and the sweep makes
    the runs of its points one after the other. *)
Theorem run_sweep_keeps_order
    (check_bracketed_host : string → bool) (world : nat → run_env)
    (url : string) (total : Z) (concurrencies : list Z) (timeout : Q) (warmup repeat : Z)
    (quiet : bool) (calls calls' : nat) (results : list (Z * Summary.t)) :
  run_sweep check_bracketed_host world url total concurrencies timeout warmup repeat quiet
    calls = Value results calls' →
  map fst results = concurrencies
  ∧ calls' = (calls + length concurrencies * closed_runs_per_summary warmup repeat)%nat
  ∧ ∀ i concurrency summary,
      results !! i = Some (concurrency, summary) →
      run_closed check_bracketed_host world url total concurrency timeout warmup repeat true
        (calls + i * closed_runs_per_summary warmup repeat)%nat
      = Value summary (calls + Datatypes.S i * closed_runs_per_summary warmup repeat)%nat.
Proof. apply run_sweep_points. Qed.

Lemma run_sweep_keeps_order_witness :
  ∃ results,
    run_sweep no_bracket_check three_requests_world "http://127.0.0.1:8000/" 3 [2; 3] 5 1 1 false
      0%nat = Value results 4%nat
    ∧ map fst results = [2; 3].
Proof.
  assert (Hrun : ∃ r, run_sweep no_bracket_check three_requests_world "http://127.0.0.1:8000/" 3 [2; 3] 5 1 1 false
      0%nat = Value r 4%nat)
    by (eexists; vm_compute; reflexivity).
  destruct Hrun as [r Hrun]. exists r. split; [exact Hrun|].
  exact (proj1 (run_sweep_keeps_order _ _ _ _ _ _ _ _ _ _ _ _ Hrun)).
Defined.

(** ** Presets: the sweep, the plan and the configuration file *)

Section presets.

Variable check_bracketed_host : string → bool.
Variable world : nat → run_env.

(** The three built-in presets sweep a non-empty list of positive
    concurrencies, with a warm-up and at least two measured runs. *)
Lemma preset_defaults_positive (profile : string) :
  concurrencies (_preset_defaults profile) ≠ []
  ∧ Forall (fun c => 1 <= c) (concurrencies (_preset_defaults profile))
  ∧ 0 < closed_warmup (_preset_defaults profile)
  ∧ 2 <= closed_repeat (_preset_defaults profile).
Proof.
  unfold _preset_defaults.
  destruct (String.eqb profile "smoke"); [|destruct (String.eqb profile "stress")]; simpl;
    (split; [discriminate|]); (split; [repeat constructor; lia|]); lia.
Qed.

Lemma max_by_elem {A} (key : A → Q) (items : list A) (best : A) :
  max_by key items = Ok best → best ∈ items.
Proof.
  destruct items as [|x rest]; [discriminate|]. intros [= <-].
  destruct (max_from_first_maximal key x rest) as (pre & post & Heq & _).
  rewrite Heq. apply elem_of_app. right. left.
Qed.

Lemma run_sweep_raises_at_first url total concurrency rest timeout warmup repeat quiet calls e :
  build_http_get check_bracketed_host url = Err e →
  0 < warmup ∨ 0 < repeat →
  run_sweep check_bracketed_host world url total (concurrency :: rest) timeout warmup repeat
    quiet calls = Raised e calls.
Proof.
  intros Hbuild Hruns. unfold run_sweep. simpl. unfold bind at 1 2.
  destruct (build_failure_is_fatal check_bracketed_host world url e Hbuild calls)
    as (_ & _ & Hclosed & _).
  rewrite (Hclosed total concurrency timeout warmup repeat true Hruns). reflexivity.
Qed.

End presets.

(** X12.  A URL that [build_http_get] refuses stops a preset
    before its first run: when the sweep has a concurrency to try and a
    warm-up or a measured run to make, [run_preset] raises the builder's
    exception and no run has been started.  This holds for the three
    built-in presets. *)
Theorem preset_rejects_bad_url
    (check_bracketed_host : string → bool) (world : nat → run_env)
    (url profile : string) (timeout : Q) (config : option (list (string * preset_override)))
    (calls : nat) (e : exn) :
  build_http_get check_bracketed_host url = Err e →
  (let preset := _preset_from_config profile config in
   concurrencies preset ≠ [] →
   0 < closed_warmup preset ∨ 0 < closed_repeat preset →
   run_preset check_bracketed_host world url profile timeout config calls = Raised e calls)
  ∧ run_preset check_bracketed_host world url profile timeout None calls = Raised e calls.
Proof.
  intros Hbuild.
  assert (Hgen : ∀ config',
    concurrencies (_preset_from_config profile config') ≠ [] →
    0 < closed_warmup (_preset_from_config profile config')
    ∨ 0 < closed_repeat (_preset_from_config profile config') →
    run_preset check_bracketed_host world url profile timeout config' calls = Raised e calls).
  { intros config' Hne Hruns. unfold run_preset.
    destruct (concurrencies (_preset_from_config profile config')) as [|c cs] eqn:Hcs; [done|].
    unfold bind at 1.
    rewrite (run_sweep_raises_at_first check_bracketed_host world url _ c cs timeout _ _ false
               calls e Hbuild Hruns).
    reflexivity. }
  split; [exact (Hgen config)|].
  destruct (preset_defaults_positive profile) as (Hne & _ & Hwarm & _).
  apply Hgen; simpl; [exact Hne|left; exact Hwarm].
Qed.

Lemma preset_rejects_bad_url_witness :
  run_preset no_bracket_check one_request_world "https://127.0.0.1:8000/" "smoke" 5 None 0%nat
  = Raised unsupported_scheme 0%nat.
Proof.
  exact (proj2 (preset_rejects_bad_url no_bracket_check one_request_world
                  "https://127.0.0.1:8000/" "smoke" 5 None 0%nat unsupported_scheme eq_refl)).
Defined.

(** X13.  A preset whose list of concurrencies is empty (a
    configuration file can make it so) makes no run at all and fails
    with the [ValueError] of [max] on an empty sequence, whatever the
    URL: the URL is not even parsed. *)
Theorem preset_empty_sweep_raises
    (check_bracketed_host : string → bool) (world : nat → run_env)
    (url profile : string) (timeout : Q) (config : option (list (string * preset_override)))
    (calls : nat) :
  concurrencies (_preset_from_config profile config) = [] →
  run_preset check_bracketed_host world url profile timeout config calls
  = Raised (ValueError "max() arg is an empty sequence") calls.
Proof.
  intros Hcs. unfold run_preset, run_sweep. rewrite Hcs. reflexivity.
Qed.

Lemma preset_empty_sweep_raises_witness :
  run_preset no_bracket_check one_request_world "not a url" "smoke" 5 empty_sweep 0%nat
  = Raised (ValueError "max() arg is an empty sequence") 0%nat.
Proof.
  exact (preset_empty_sweep_raises no_bracket_check one_request_world "not a url" "smoke" 5
           empty_sweep 0%nat eq_refl).
Defined.

(** X14.  When the sweep of a preset with a non-empty list of
    concurrencies, all at least 1, returns, the plan for the open-loop
    phase exists: its best concurrency is one of the preset's, and its
    concurrency cap lies between 2 and 2000, so that the semaphore of
    the open-loop runs has permits.  The three built-in presets meet the
    two conditions. *)
Theorem preset_plan_from_sweep
    (check_bracketed_host : string → bool) (world : nat → run_env)
    (url : string) (preset : preset) (timeout : Q) (quiet : bool) (calls calls' : nat)
    (results : list (Z * Summary.t)) :
  concurrencies preset ≠ [] →
  Forall (fun c => 1 <= c) (concurrencies preset) →
  run_sweep check_bracketed_host world url (total_per_c preset) (concurrencies preset) timeout
    (closed_warmup preset) (closed_repeat preset) quiet calls = Value results calls' →
  ∃ plan,
    plan_open_loop results = Ok plan
    ∧ best_concurrency plan ∈ concurrencies preset
    ∧ 2 <= concurrency_cap plan <= 2000
    ∧ Semaphore (concurrency_cap plan) = Ok (Z.to_nat (concurrency_cap plan))
    ∧ Forall (fun target => (50 <= target)%Q) (open_targets_rps plan).
Proof.
  intros Hne Hpos Hsweep.
  destruct (run_sweep_points _ _ _ _ _ _ _ _ _ _ _ _ Hsweep) as (Hfst & _ & _).
  unfold plan_open_loop.
  destruct (max_by _ results) as [[best_c best_s]|e] eqn:Hmax.
  - eexists. split; [reflexivity|]. simpl.
    assert (Hin : best_c ∈ concurrencies preset).
    { rewrite <- Hfst. apply max_by_elem in Hmax.
      apply (list_elem_of_fmap_2 fst) in Hmax. exact Hmax. }
    assert (Hc : 1 <= best_c) by (rewrite Forall_forall in Hpos; apply Hpos, Hin).
    assert (Hcap : 2 <= Z.min (Qtrunc ((5#2) * inject_Z best_c)) 2000 <= 2000).
    { rewrite Qtrunc_half_nonneg by lia.
      assert (2 <= 5 * best_c / 2) by (apply Z.div_le_lower_bound; lia). lia. }
    split; [exact Hin|]. split; [exact Hcap|]. split.
    + unfold Semaphore. destruct (Z.ltb_spec (Z.min (Qtrunc ((5#2) * inject_Z best_c)) 2000) 0);
        [lia|reflexivity].
    + repeat constructor; apply py_max_floor.
  - exfalso. destruct results as [|r rs]; [|discriminate].
    simpl in Hfst. congruence.
Qed.

Lemma preset_plan_from_sweep_witness :
  ∃ plan results,
    run_sweep no_bracket_check one_request_world "http://127.0.0.1:8000/" 1 [1] 5 0 1 false 0%nat
    = Value results 1%nat
    ∧ plan_open_loop results = Ok plan
    ∧ 2 <= concurrency_cap plan <= 2000.
Proof.
  assert (Hrun : ∃ results,
    run_sweep no_bracket_check one_request_world "http://127.0.0.1:8000/" 1 [1] 5 0 1 false 0%nat
    = Value results 1%nat) by (eexists; vm_compute; reflexivity).
  destruct Hrun as [results Hrun].
  assert (Hne : [1] ≠ ([] : list Z)) by discriminate.
  assert (Hpos : Forall (fun c => 1 <= c) [1]) by (repeat constructor; lia).
  destruct (preset_plan_from_sweep no_bracket_check one_request_world "http://127.0.0.1:8000/"
              {| concurrencies := [1]; total_per_c := 1; closed_warmup := 0; closed_repeat := 1;
                 open_duration := 1; open_warmup_sec := 0 |}
              5 false 0%nat 1%nat results Hne Hpos Hrun) as (plan & Hplan & _ & Hcap & _).
  exists plan, results. split; [exact Hrun|]. split; [exact Hplan|exact Hcap].
Defined.

(** X15.  A configuration file without an entry for the chosen
    profile changes nothing: the preset is the built-in one and
    [run_preset] does what it does without a file. *)
Theorem preset_config_without_profile
    (check_bracketed_host : string → bool) (world : nat → run_env)
    (url profile : string) (timeout : Q) (presets : list (string * preset_override))
    (calls : nat) :
  Forall (fun entry => fst entry ≠ profile) presets →
  _preset_from_config profile (Some presets) = _preset_defaults profile
  ∧ run_preset check_bracketed_host world url profile timeout (Some presets) calls
    = run_preset check_bracketed_host world url profile timeout None calls.
Proof.
  intros Hnone.
  assert (Hpreset : _preset_from_config profile (Some presets) = _preset_defaults profile).
  { unfold _preset_from_config.
    assert (Hfind : list_find (fun entry => String.eqb (fst entry) profile = true) presets = None).
    { apply list_find_None. eapply Forall_impl; [exact Hnone|].
      intros entry Hentry Heq. apply String.eqb_eq in Heq. contradiction. }
    rewrite Hfind. reflexivity. }
  split; [exact Hpreset|].
  unfold run_preset. rewrite Hpreset. reflexivity.
Qed.

Lemma preset_config_without_profile_witness :
  _preset_from_config "stress" tiny_smoke = _preset_defaults "stress".
Proof.
  assert (Hnone : Forall (fun entry : string * preset_override => fst entry ≠ "stress"%string)
                    [("smoke"%string,
                      {| set_concurrencies := Some [1]; set_total_per_c := Some 1;
                         set_warmup := Some 0; set_repeat := Some 1;
                         set_duration := Some 1%Q; set_warmup_sec := Some 0%Q |})]).
  { repeat constructor. discriminate. }
  exact (proj1 (preset_config_without_profile no_bracket_check one_request_world
                  "http://127.0.0.1:8000/" "stress" 5 _ 0%nat Hnone)).
Defined.

(** ** The open loop without permits or without time *)

Section open_loop_pace.

Variables (host : string) (port : Z) (request_bytes : list byte) (timeout : Q).
Variables (start_time duration_sec schedule_interval_seconds : Q) (concurrency_cap : Z).

Lemma pool_step_length (e : event) (s : pool) :
  length (tasks (pool_step host port request_bytes timeout e s)) = length (tasks s).
Proof.
  destruct (pool_step_change host port request_bytes timeout e s)
    as [->|task _ _ Hts _ _|task _ _ Hts _]; [reflexivity| |];
    rewrite Hts; apply length_insert.
Qed.

(** Without a permit to give, the loop never dispatches. *)
Lemma open_step_no_dispatch (e : event) (s : open_loop) :
  concurrency_cap <= 0 →
  tasks (workers s) = [] →
  tasks (workers (open_step host port request_bytes timeout
                    start_time duration_sec schedule_interval_seconds concurrency_cap e s)) = [].
Proof.
  intros Hcap Hnil.
  assert (Hworkers : ∀ e' : event,
    length (tasks (pool_step host port request_bytes timeout e' (workers s))) = 0%nat).
  { intros e'. rewrite pool_step_length, Hnil. reflexivity. }
  destruct e as [task|task server fuel|task|now|]; simpl.
  - apply length_zero_iff_nil. exact (Hworkers (Enter task)).
  - apply length_zero_iff_nil. exact (Hworkers (Leave task server fuel)).
  - destruct (tasks (workers s) !! task) as [[| |]|]; exact Hnil.
  - unfold loop_iteration. destruct (loop_phase s); try exact Hnil.
    destruct (Qle_bool duration_sec (now - start_time)); [exact Hnil|].
    destruct (Z.ltb_spec (Z.of_nat (size (in_flight_tasks s))) (4 * concurrency_cap)); [lia|].
    rewrite andb_false_r. exact Hnil.
  - destruct (loop_phase s); try exact Hnil. case_bool_decide; exact Hnil.
Qed.

Lemma open_run_no_dispatch (events : list event) :
  concurrency_cap <= 0 →
  ∀ s, tasks (workers s) = [] →
       tasks (workers (open_run host port request_bytes timeout
                         start_time duration_sec schedule_interval_seconds concurrency_cap
                         events s)) = [].
Proof.
  intros Hcap. induction events as [|e events IH]; intros s Hnil; [exact Hnil|].
  simpl. apply IH, open_step_no_dispatch; assumption.
Qed.

(** Without time to run, the loop never dispatches either: a dispatch
    needs a clock reading at or after the start and before the end. *)
Lemma open_step_no_time (e : event) (s : open_loop) :
  (duration_sec <= 0)%Q →
  tasks (workers s) = [] ∧ next_scheduled_time s = start_time →
  tasks (workers (open_step host port request_bytes timeout
                    start_time duration_sec schedule_interval_seconds concurrency_cap e s)) = []
  ∧ next_scheduled_time (open_step host port request_bytes timeout
                           start_time duration_sec schedule_interval_seconds concurrency_cap
                           e s) = start_time.
Proof.
  intros Hduration [Hnil Hnext].
  assert (Hworkers : ∀ e' : event,
    length (tasks (pool_step host port request_bytes timeout e' (workers s))) = 0%nat).
  { intros e'. rewrite pool_step_length, Hnil. reflexivity. }
  destruct e as [task|task server fuel|task|now|]; simpl.
  - split; [|exact Hnext]. apply length_zero_iff_nil. exact (Hworkers (Enter task)).
  - split; [|exact Hnext]. apply length_zero_iff_nil.
    exact (Hworkers (Leave task server fuel)).
  - destruct (tasks (workers s) !! task) as [[| |]|]; split; assumption.
  - unfold loop_iteration. destruct (loop_phase s); try (split; assumption).
    destruct (Qle_bool duration_sec (now - start_time)) eqn:Hover; [split; assumption|].
    assert (Hearly : Qle_bool (next_scheduled_time s) now = false).
    { rewrite Hnext. destruct (Qle_bool start_time now) eqn:Hle; [exfalso|reflexivity].
      apply Qle_bool_iff in Hle.
      assert (Hfalse : Qle_bool duration_sec (now - start_time) = true).
      { apply Qle_bool_iff. lra. }
      congruence. }
    rewrite Hearly. simpl. split; assumption.
  - destruct (loop_phase s); try (split; assumption).
    case_bool_decide; split; assumption.
Qed.

Lemma open_run_no_time (events : list event) :
  (duration_sec <= 0)%Q →
  ∀ s, tasks (workers s) = [] ∧ next_scheduled_time s = start_time →
       tasks (workers (open_run host port request_bytes timeout
                         start_time duration_sec schedule_interval_seconds concurrency_cap
                         events s)) = [].
Proof.
  intros Hduration. induction events as [|e events IH]; intros s Hinv; [exact (proj1 Hinv)|].
  simpl. apply IH, open_step_no_time; assumption.
Qed.

End open_loop_pace.

(** What [_open_once] returns is computed in a finished state of the
    loop, reached from the start by the events of the run. *)
Lemma open_once_finished
    (check_bracketed_host : string → bool) (world : nat → run_env)
    (url : string) (target_rps duration_sec : Q) (concurrency_cap : Z)
    (timeout : Q) (verbose : bool) (calls calls' : nat) (r : Once.t) :
  _open_once check_bracketed_host world url target_rps duration_sec concurrency_cap
    timeout verbose calls = Value r calls' →
  0 <= concurrency_cap
  ∧ ∃ host port request_bytes,
      let s := open_run host port request_bytes timeout
                 (started (world calls)) duration_sec
                 (1 / py_max target_rps (1 # 1000000000))%Q concurrency_cap
                 (schedule (world calls))
                 (open_start (Z.to_nat concurrency_cap) (started (world calls))) in
      r = once_result (workers s) (finished (world calls) - started (world calls))%Q
      ∧ (error_count (workers s) + length (latencies (workers s))
         = length (tasks (workers s)))%nat.
Proof.
  unfold _open_once, bind, lift.
  destruct (build_http_get check_bracketed_host url) as [[[host port] request_bytes]|e];
    [|discriminate]. simpl.
  unfold Semaphore. destruct (Z.ltb_spec concurrency_cap 0) as [|Hcap]; [discriminate|]. simpl.
  unfold next_env.
  set (s := open_run _ _ _ _ _ _ _ _ _ _).
  destruct (loop_phase s) eqn:Hph; try discriminate.
  intros [= <- _]. split; [exact Hcap|]. exists host, port, request_bytes. fold s.
  split; [reflexivity|].
  pose proof (open_run_inv host port request_bytes timeout (started (world calls)) duration_sec
                (1 / py_max target_rps (1 # 1000000000))%Q concurrency_cap
                (schedule (world calls)) _
                (open_start_inv (started (world calls)) concurrency_cap Hcap)) as Hinv.
  fold s in Hinv.
  destruct (open_inv_bounds concurrency_cap s Hcap Hinv) as (_ & _ & Hfin).
  destruct (Hfin Hph) as [Hdone _].
  destruct Hinv as ([_ Hcount] & _). rewrite Hcount. unfold completed.
  apply all_done_completed, Hdone.
Qed.

(** X17.  An open-loop run without time to run makes no
    request: when [duration_sec] is not positive, whatever the events and
    the readings of the clock, nothing is dispatched, and a run that
    returns gives the summary of an empty run: no error, no success, a
    throughput of 0. *)
Theorem open_once_without_duration
    (check_bracketed_host : string → bool) (world : nat → run_env)
    (url : string) (target_rps duration_sec : Q) (concurrency_cap : Z)
    (timeout : Q) (verbose : bool) (calls : nat) :
  (duration_sec <= 0)%Q →
  (∀ host port request_bytes start_time schedule_interval_seconds permits events,
      tasks (workers (open_run host port request_bytes timeout
                        start_time duration_sec schedule_interval_seconds concurrency_cap
                        events (open_start permits start_time))) = [])
  ∧ (∀ r calls',
      _open_once check_bracketed_host world url target_rps duration_sec concurrency_cap
        timeout verbose calls = Value r calls' →
      Once.errors r = 0%nat
      ∧ Once.stats r = _summarize_latencies []
      ∧ Qeq (Once.throughput r) 0).
Proof.
  intros Hduration.
  assert (Hnone : ∀ host port request_bytes start_time schedule_interval_seconds permits events,
      tasks (workers (open_run host port request_bytes timeout
                        start_time duration_sec schedule_interval_seconds concurrency_cap
                        events (open_start permits start_time))) = []).
  { intros. apply open_run_no_time; [exact Hduration|]. split; reflexivity. }
  split; [exact Hnone|].
  intros r calls' Hrun.
  destruct (open_once_finished _ _ _ _ _ _ _ _ _ _ _ Hrun)
    as (_ & host & port & request_bytes & Hr & Hcount).
  rewrite Hnone in Hcount. simpl in Hcount.
  assert (Herr : error_count (workers (open_run host port request_bytes timeout
                   (started (world calls)) duration_sec
                   (1 / py_max target_rps (1 # 1000000000))%Q concurrency_cap
                   (schedule (world calls))
                   (open_start (Z.to_nat concurrency_cap) (started (world calls))))) = 0%nat)
    by lia.
  assert (Hlat : latencies (workers (open_run host port request_bytes timeout
                   (started (world calls)) duration_sec
                   (1 / py_max target_rps (1 # 1000000000))%Q concurrency_cap
                   (schedule (world calls))
                   (open_start (Z.to_nat concurrency_cap) (started (world calls))))) = []).
  { apply length_zero_iff_nil. lia. }
  rewrite Hr. unfold once_result. rewrite Hlat, Herr. simpl.
  split; [reflexivity|]. split; [reflexivity|].
  destruct (Qltb 0 _); [|reflexivity]. unfold Qdiv. apply Qmult_0_l.
Qed.

Lemma open_once_without_duration_witness :
  (0 <= 0)%Q
  ∧ ∃ r,
      _open_once no_bracket_check open_loop_world "http://127.0.0.1:8000/" 2 0 1 5 false 0%nat
      = Value r 1%nat
      ∧ Once.errors r = 0%nat.
Proof.
  assert (Hduration : (0 <= 0)%Q) by apply Qle_refl.
  split; [exact Hduration|].
  assert (Hrun : ∃ r,
    _open_once no_bracket_check open_loop_world "http://127.0.0.1:8000/" 2 0 1 5 false 0%nat
    = Value r 1%nat) by (eexists; vm_compute; reflexivity).
  destruct Hrun as [r Hrun]. exists r. split; [exact Hrun|].
  exact (proj1 (proj2 (open_once_without_duration no_bracket_check open_loop_world
                         "http://127.0.0.1:8000/" 2 0 1 5 false 0%nat Hduration) r 1%nat Hrun)).
Defined.

(** X18.  An open loop whose cap is 0 or less never dispatches
    a request, whatever the events; where the closed loop with no permit
    hangs, [_open_once] with a cap of 0 that returns gives the summary of
    an empty run: no error, no success, a throughput of 0. *)
Theorem open_loop_without_permits
    (check_bracketed_host : string → bool) (world : nat → run_env)
    (url : string) (target_rps duration_sec : Q) (concurrency_cap : Z)
    (timeout : Q) (verbose : bool) (calls : nat) :
  concurrency_cap <= 0 →
  (∀ host port request_bytes start_time schedule_interval_seconds permits events,
      tasks (workers (open_run host port request_bytes timeout
                        start_time duration_sec schedule_interval_seconds concurrency_cap
                        events (open_start permits start_time))) = [])
  ∧ (∀ r calls',
      _open_once check_bracketed_host world url target_rps duration_sec concurrency_cap
        timeout verbose calls = Value r calls' →
      Once.errors r = 0%nat
      ∧ Once.stats r = _summarize_latencies []
      ∧ Qeq (Once.throughput r) 0).
Proof.
  intros Hcap.
  assert (Hnone : ∀ host port request_bytes start_time schedule_interval_seconds permits events,
      tasks (workers (open_run host port request_bytes timeout
                        start_time duration_sec schedule_interval_seconds concurrency_cap
                        events (open_start permits start_time))) = []).
  { intros. apply open_run_no_dispatch; [exact Hcap|reflexivity]. }
  split; [exact Hnone|].
  intros r calls' Hrun.
  destruct (open_once_finished _ _ _ _ _ _ _ _ _ _ _ Hrun)
    as (_ & host & port & request_bytes & Hr & Hcount).
  rewrite Hnone in Hcount. simpl in Hcount.
  assert (Herr : error_count (workers (open_run host port request_bytes timeout
                   (started (world calls)) duration_sec
                   (1 / py_max target_rps (1 # 1000000000))%Q concurrency_cap
                   (schedule (world calls))
                   (open_start (Z.to_nat concurrency_cap) (started (world calls))))) = 0%nat)
    by lia.
  assert (Hlat : latencies (workers (open_run host port request_bytes timeout
                   (started (world calls)) duration_sec
                   (1 / py_max target_rps (1 # 1000000000))%Q concurrency_cap
                   (schedule (world calls))
                   (open_start (Z.to_nat concurrency_cap) (started (world calls))))) = []).
  { apply length_zero_iff_nil. lia. }
  rewrite Hr. unfold once_result. rewrite Hlat, Herr. simpl.
  split; [reflexivity|]. split; [reflexivity|].
  destruct (Qltb 0 _); [|reflexivity]. unfold Qdiv. apply Qmult_0_l.
Qed.

Lemma open_loop_without_permits_witness :
  0 <= 0
  ∧ ∃ r,
      _open_once no_bracket_check open_loop_world "http://127.0.0.1:8000/" 2 1 0 5 false 0%nat
      = Value r 1%nat
      ∧ Once.errors r = 0%nat.
Proof.
  assert (Hcap : 0 <= 0) by lia.
  split; [exact Hcap|].
  assert (Hrun : ∃ r,
    _open_once no_bracket_check open_loop_world "http://127.0.0.1:8000/" 2 1 0 5 false 0%nat
    = Value r 1%nat) by (eexists; vm_compute; reflexivity).
  destruct Hrun as [r Hrun]. exists r. split; [exact Hrun|].
  exact (proj1 (proj2 (open_loop_without_permits no_bracket_check open_loop_world
                         "http://127.0.0.1:8000/" 2 1 0 5 false 0%nat Hcap) r 1%nat Hrun)).
Defined.

(** ** The request builder: what it hands to the client *)

(** X19.  What the builder returns is fit for a connection:
    the host is not empty, the port lies between 1 and 65535, and the
    request is made of ASCII bytes only. *)
Theorem builder_output_sound
    (check_bracketed_host : string → bool) (url host : string) (port : Z)
    (request_bytes : list byte) :
  build_http_get check_bracketed_host url = Ok (host, port, request_bytes) →
  host ≠ ""%string
  ∧ 1 <= port <= 65535
  ∧ Forall (fun b => (Byte.to_nat b < 128)%nat) request_bytes.
Proof.
  intros Hbuild.
  destruct (build_renders _ _ _ _ _ Hbuild)
    as (parsed & parsed_port & Hparse & Hport & Hhost & Hp & _).
  split; [|split].
  - rewrite Hhost. destruct (Url.hostname parsed) as [h|] eqn:Hh; [|discriminate].
    simpl. eapply hostname_nonempty, Hh.
  - rewrite Hp. destruct parsed_port as [p|]; [|lia].
    apply port_in_range in Hport. destruct p; lia.
  - revert Hbuild. unfold build_http_get. rewrite Hparse.
    destruct (_ && _); [discriminate|]. rewrite Hport.
    unfold Url.encode_ascii. destruct (Url.isascii _) eqn:Hascii; [|discriminate].
    intros [= _ _ <-]. apply (encoded_bytes_ascii _ Hascii).
Qed.

Lemma builder_output_sound_witness :
  ∃ request_bytes,
    build_http_get no_bracket_check "//EXAMPLE.org:0/index.html?a=1"
    = Ok ("example.org"%string, 80, request_bytes)
    ∧ "example.org"%string ≠ ""%string
    ∧ 1 <= 80 <= 65535.
Proof.
  eexists. split; [reflexivity|].
  destruct (builder_output_sound no_bracket_check "//EXAMPLE.org:0/index.html?a=1"
              "example.org" 80 _ eq_refl) as (Hhost & Hport & _).
  split; [exact Hhost|exact Hport].
Defined.

(** X20.  A URL cannot smuggle a line into the request: the
    request is the request line, the [Host] header, [Connection: close]
    and an empty line, and neither the request target nor the [Host]
    value holds a carriage return, a line feed or a tab; neither is
    empty. *)
Theorem builder_no_line_breaks
    (check_bracketed_host : string → bool) (url host : string) (port : Z)
    (request_bytes : list byte) :
  build_http_get check_bracketed_host url = Ok (host, port, request_bytes) →
  ∃ target header,
    request_bytes = bytes_of (request_text target header)
    ∧ Url.str_all line_safe target = true
    ∧ Url.str_all line_safe header = true
    ∧ target ≠ ""%string ∧ header ≠ ""%string.
Proof.
  intros Hbuild.
  destruct (build_renders _ _ _ _ _ Hbuild)
    as (parsed & parsed_port & Hparse & Hport & Hhost & Hp & Hbytes).
  destruct (urlparse_line_safe _ _ _ Hparse) as (Hnetloc & Hpath & Hquery).
  exists ((if Url.nonempty (Url.path parsed) then Url.path parsed else "/")
          ++ (if Url.nonempty (Url.query parsed) then "?" ++ Url.query parsed else ""))%string,
         (if Url.nonempty (Url.netloc parsed) then Url.netloc parsed else host).
  split; [|split; [|split; [|split]]].
  - rewrite Hbytes. unfold request_text. rewrite !append_assoc. reflexivity.
  - rewrite str_all_app.
    assert (Hp' : Url.str_all line_safe
                    (if Url.nonempty (Url.path parsed) then Url.path parsed else "/") = true).
    { destruct (Url.nonempty (Url.path parsed)); [exact Hpath|reflexivity]. }
    assert (Hq' : Url.str_all line_safe
                    (if Url.nonempty (Url.query parsed)
                     then ("?" ++ Url.query parsed)%string else ""%string) = true).
    { destruct (Url.nonempty (Url.query parsed)); [|reflexivity].
      change ("?" ++ Url.query parsed)%string with (String "?" (Url.query parsed)).
      cbn [Url.str_all]. rewrite Hquery. reflexivity. }
    rewrite Hp', Hq'. reflexivity.
  - destruct (Url.nonempty (Url.netloc parsed)) eqn:E; [exact Hnetloc|].
    assert (Hnone : Url.hostname parsed = None).
    { destruct (Url.netloc parsed) eqn:En; [|discriminate].
      unfold Url.hostname. rewrite En. reflexivity. }
    rewrite Hhost, Hnone. reflexivity.
  - destruct (Url.path parsed) as [|c rest]; simpl; discriminate.
  - destruct (Url.netloc parsed) as [|c rest] eqn:En; simpl; [|discriminate].
    destruct (build_renders _ _ _ _ _ Hbuild) as (parsed' & port' & Hparse' & _ & Hhost' & _).
    rewrite Hparse in Hparse'. injection Hparse' as <-.
    rewrite Hhost'. destruct (Url.hostname parsed) as [h|] eqn:Hh; [|discriminate].
    simpl. eapply hostname_nonempty, Hh.
Qed.

Lemma builder_no_line_breaks_witness :
  ∃ target header request_bytes,
    build_http_get no_bracket_check
      (String "h" (String "t" (String "t" (String "p" (String ":" (String "/" (String "/"
        (String "a" (String "013" (String "010" (String "b" (String "/" (String "x"
          EmptyString)))))))))))))
    = Ok ("ab"%string, 80, request_bytes)
    ∧ request_bytes = bytes_of (request_text target header)
    ∧ Url.str_all line_safe header = true.
Proof.
  destruct (builder_no_line_breaks no_bracket_check
              (String "h" (String "t" (String "t" (String "p" (String ":" (String "/" (String "/"
                (String "a" (String "013" (String "010" (String "b" (String "/" (String "x"
                  EmptyString)))))))))))))
              "ab" 80 _ eq_refl) as (target & header & Hbytes & _ & Hheader & _).
  exists target, header. eexists. split; [reflexivity|]. split; [exact Hbytes|exact Hheader].
Defined.

(** ** The median: the order of the runs does not matter *)

Section order_statistics.

Lemma filter_length_le (P R : Q → Prop) `{!∀ y, Decision (P y)} `{!∀ y, Decision (R y)}
    (l : list Q) :
  (∀ y, P y → R y) → (length (filter P l) <= length (filter R l))%nat.
Proof.
  intros Himpl. induction l as [|a l IH]; [reflexivity|].
  rewrite !filter_cons. destruct (decide (P a)) as [HP|HP].
  - destruct (decide (R a)) as [HR|HR]; [simpl; lia|]. exfalso. apply HR, Himpl, HP.
  - destruct (decide (R a)); simpl; lia.
Qed.

Lemma filter_length_all (P : Q → Prop) `{!∀ y, Decision (P y)} (l : list Q) :
  Forall P l → length (filter P l) = length l.
Proof.
  induction 1 as [|a l Ha Hl IH]; [reflexivity|].
  rewrite filter_cons. destruct (decide (P a)); [simpl; lia|contradiction].
Qed.

Lemma filter_length_none (P : Q → Prop) `{!∀ y, Decision (P y)} (l : list Q) :
  Forall (fun y => ¬ P y) l → length (filter P l) = 0%nat.
Proof.
  induction 1 as [|a l Ha Hl IH]; [reflexivity|].
  rewrite filter_cons. destruct (decide (P a)); [contradiction|exact IH].
Qed.

(** In a sorted list, more than [i] items are at most the item of
    index [i], and at most [i] items are below it. *)
Lemma count_le_sorted (s : list Q) (i : nat) (x : Q) :
  StronglySorted Qle s → s !! i = Some x → (i < count_le x s)%nat.
Proof.
  intros Hs Hi. unfold count_le.
  pose proof (lookup_lt_Some _ _ _ Hi) as Hlt.
  rewrite <- (take_drop (Datatypes.S i) s) at 1. rewrite filter_app, length_app.
  rewrite filter_length_all.
  - rewrite length_take. lia.
  - apply Forall_lookup. intros j y Hj.
    apply lookup_take_Some in Hj as [Hj Hji].
    eapply (sorted_items_ordered s Hs j i); eauto. lia.
Qed.

Lemma count_lt_sorted (s : list Q) (i : nat) (x : Q) :
  StronglySorted Qle s → s !! i = Some x → (count_lt x s <= i)%nat.
Proof.
  intros Hs Hi. unfold count_lt.
  rewrite <- (take_drop i s) at 1. rewrite filter_app, length_app.
  rewrite (filter_length_none _ (drop i s)).
  - pose proof (length_filter (fun y => (y < x)%Q) (take i s)) as Hle.
    rewrite length_take in Hle. lia.
  - apply Forall_lookup. intros j y Hj. rewrite lookup_drop in Hj.
    apply Qle_not_lt. eapply (sorted_items_ordered s Hs i (i + j)); eauto. lia.
Qed.

(** Two sorted arrangements of the same values agree item by item, as
    numbers. *)
Lemma sorted_items_le (s s' : list Q) (i : nat) (x x' : Q) :
  StronglySorted Qle s → StronglySorted Qle s' → s ≡ₚ s' →
  s !! i = Some x → s' !! i = Some x' → (x <= x')%Q.
Proof.
  intros Hs Hs' Hperm Hi Hi'.
  destruct (Qlt_le_dec x' x) as [Hlt|Hle]; [exfalso|exact Hle].
  pose proof (count_le_sorted s' i x' Hs' Hi') as H1.
  pose proof (count_lt_sorted s i x Hs Hi) as H2.
  assert (H3 : (count_le x' s' <= count_lt x s)%nat).
  { unfold count_le, count_lt. rewrite <- Hperm.
    apply filter_length_le. intros y Hy. eapply Qle_lt_trans; eauto. }
  lia.
Qed.

Lemma sorted_items_Qeq (l l' : list Q) (i : nat) :
  l ≡ₚ l' → Qeq (item (sorted l) i) (item (sorted l') i).
Proof.
  intros Hperm.
  assert (Hs : StronglySorted Qle (sorted l))
    by apply (Sorted_StronglySorted Qle), sorted_Sorted.
  assert (Hs' : StronglySorted Qle (sorted l'))
    by apply (Sorted_StronglySorted Qle), sorted_Sorted.
  assert (Hp : sorted l ≡ₚ sorted l') by (rewrite !sorted_Permutation; exact Hperm).
  pose proof (Permutation_length Hp) as Hlen.
  unfold item.
  destruct (sorted l !! i) as [x|] eqn:Hi; destruct (sorted l' !! i) as [x'|] eqn:Hi'; simpl.
  - apply Qle_antisym.
    + exact (sorted_items_le _ _ i _ _ Hs Hs' Hp Hi Hi').
    + symmetry in Hp. exact (sorted_items_le _ _ i _ _ Hs' Hs Hp Hi' Hi).
  - apply lookup_lt_Some in Hi. apply lookup_ge_None in Hi'. lia.
  - apply lookup_lt_Some in Hi'. apply lookup_ge_None in Hi. lia.
  - reflexivity.
Qed.

End order_statistics.

(** X21.  The median of the runs does not depend on the order
    in which the runs were made: two lists with the same values, each as
    many times, have the same median. *)
Theorem median_order_independent (values values' : list Q) :
  values ≡ₚ values' → Qeq (median values) (median values').
Proof.
  intros Hperm.
  destruct values as [|x l].
  { apply Permutation_nil_l in Hperm. subst values'. reflexivity. }
  destruct values' as [|x' l'].
  { apply Permutation_nil_r in Hperm. discriminate. }
  rewrite !median_unfold by discriminate. cbv zeta.
  rewrite <- (Permutation_length Hperm).
  destruct (_ =? _)%nat.
  - rewrite (sorted_items_Qeq _ _ _ Hperm), (sorted_items_Qeq _ _ (_ / 2) Hperm). reflexivity.
  - apply sorted_items_Qeq, Hperm.
Qed.

Lemma median_order_independent_witness :
  Qeq (median [3; 1; 2; 4]%Q) (median [4; 2; 1; 3]%Q).
Proof.
  apply (median_order_independent [3; 1; 2; 4]%Q [4; 2; 1; 3]%Q).
  etrans; [apply (Permutation_swap 1%Q 3%Q [2; 4]%Q)|].
  etrans; [apply perm_skip, (Permutation_swap 2%Q 3%Q [4]%Q)|].
  etrans; [apply perm_skip, perm_skip, (Permutation_swap 4%Q 3%Q [])|].
  etrans; [apply perm_skip, (Permutation_swap 4%Q 2%Q [3]%Q)|].
  etrans; [apply (Permutation_swap 4%Q 1%Q [2; 3]%Q)|].
  apply perm_skip. apply (Permutation_swap 2%Q 1%Q [3]%Q).
Defined.

(** X22.  The median of a non-empty list lies between its
    smallest and its largest value. *)
Theorem median_between_extremes (values : list Q) :
  values ≠ [] →
  let s := sorted values in
  (item s 0 <= median values)%Q
  ∧ (median values <= item s (length values - 1))%Q
  ∧ Forall (fun x => (item s 0 <= x)%Q ∧ (x <= item s (length values - 1))%Q) values.
Proof.
  intros Hne s.
  assert (Hs : Sorted Qle s) by apply sorted_Sorted.
  assert (Hlen : length s = length values) by apply sorted_length.
  assert (Hpos : (0 < length values)%nat) by (destruct values; [done|simpl; lia]).
  rewrite median_unfold by exact Hne. cbv zeta. fold s.
  assert (Hmid : (length values / 2 < length values)%nat)
    by (apply Nat.div_lt; lia).
  pose proof (item_ordered s 0 (length values / 2) Hs ltac:(lia) ltac:(lia)) as Hlo.
  pose proof (item_ordered s (length values / 2) (length values - 1) Hs) as Hhi.
  assert (Hends : Forall (fun x => (item s 0 <= x)%Q ∧ (x <= item s (length values - 1))%Q)
                    values).
  { pose proof (sorted_between_ends s Hs) as Hall. rewrite Hlen in Hall.
    apply Forall_forall. intros x Hx. rewrite Forall_forall in Hall. apply Hall.
    unfold s. rewrite sorted_Permutation. exact Hx. }
  destruct (length values mod 2 =? 0)%nat eqn:Heven.
  - apply Nat.eqb_eq in Heven.
    assert (Hge : (1 <= length values / 2)%nat).
    { pose proof (Nat.div_mod_eq (length values) 2). lia. }
    pose proof (item_ordered s 0 (length values / 2 - 1) Hs ltac:(lia) ltac:(lia)) as Hlo'.
    pose proof (item_ordered s (length values / 2 - 1) (length values - 1) Hs
                  ltac:(lia) ltac:(lia)) as Hhi'.
    specialize (Hhi ltac:(lia) ltac:(lia)).
    split; [|split; [|exact Hends]]; lra.
  - specialize (Hhi ltac:(lia) ltac:(lia)).
    split; [exact Hlo|]. split; [exact Hhi|exact Hends].
Qed.

Lemma median_between_extremes_witness :
  [3; 1; 2; 4]%Q ≠ []
  ∧ (1 <= median [3; 1; 2; 4]%Q)%Q ∧ (median [3; 1; 2; 4]%Q <= 4)%Q.
Proof.
  assert (Hne : [3; 1; 2; 4]%Q ≠ []) by discriminate.
  destruct (median_between_extremes [3; 1; 2; 4]%Q Hne) as (Hlo & Hhi & _).
  split; [exact Hne|]. split; [exact Hlo|exact Hhi].
Defined.

(** ** A whole preset: its rows and its runs *)

Lemma for_each_runs {A B} (body : A → M nat B) (k : nat) :
  (∀ x c r c', body x c = Value r c' → c' = (c + k)%nat) →
  ∀ xs c rs c',
    for_each xs body c = Value rs c' →
    c' = (c + length xs * k)%nat ∧ length rs = length xs.
Proof.
  intros Hbody. induction xs as [|x xs IH]; intros c rs c'; simpl.
  - intros [= <- <-]. split; [lia|reflexivity].
  - unfold bind. destruct (body x c) as [b t| | |] eqn:Hb; try discriminate.
    destruct (for_each xs body t) as [rest t'| | |] eqn:Hrest; try discriminate.
    intros [= <- <-]. apply Hbody in Hb as ->.
    destruct (IH _ _ _ Hrest) as [-> Hlen]. split; [lia|simpl; congruence].
Qed.

(** X23.  A preset that returns has written one
    [closed_sweep] row per concurrency of the preset, in their order and
    labelled with them, and then three [open_loop] rows; it has made the
    runs of the sweep and then three times the runs of one open-loop
    summary, and no other. *)
Theorem preset_rows_and_runs
    (check_bracketed_host : string → bool) (world : nat → run_env)
    (url profile : string) (timeout : Q) (config : option (list (string * preset_override)))
    (calls calls' : nat) (rows : list row) :
  run_preset check_bracketed_host world url profile timeout config calls = Value rows calls' →
  let preset := _preset_from_config profile config in
  ∃ sweep_rows open_rows,
    rows = sweep_rows ++ open_rows
    ∧ map concurrency sweep_rows = concurrencies preset
    ∧ Forall (fun r => phase r = "closed_sweep"%string
                       ∧ total_requests r = Some (total_per_c preset)
                       ∧ open_target_rps r = None) sweep_rows
    ∧ length open_rows = 3%nat
    ∧ Forall (fun r => phase r = "open_loop"%string
                       ∧ total_requests r = None
                       ∧ open_duration_sec r = Some (open_duration preset)) open_rows
    ∧ calls' = (calls
                + length (concurrencies preset)
                  * closed_runs_per_summary (closed_warmup preset) (closed_repeat preset)
                + 3 * open_runs_per_summary (open_warmup_sec preset) (closed_repeat preset))%nat.
Proof.
  intros Hrun preset. unfold run_preset, bind in Hrun. fold preset in Hrun.
  destruct (run_sweep _ _ _ _ _ _ _ _ _ calls) as [results mid| | |] eqn:Hsweep;
    try discriminate.
  destruct (run_sweep_points _ _ _ _ _ _ _ _ _ _ _ _ Hsweep) as (Hfst & Hmid & _).
  unfold lift in Hrun.
  destruct (plan_open_loop results) as [plan|e] eqn:Hplan; [|discriminate].
  assert (Htargets : length (open_targets_rps plan) = 3%nat).
  { unfold plan_open_loop in Hplan.
    destruct (max_by _ results) as [[best_c best_s]|]; [|discriminate].
    injection Hplan as <-. reflexivity. }
  unfold ret at 1 in Hrun.
  match type of Hrun with
  | context [for_each ?xs ?body mid] =>
    destruct (for_each xs body mid) as [open_rows t| | |] eqn:Hopen; try discriminate;
    pose proof (for_each_Forall2 body xs _ _ _ Hopen) as Hrows;
    pose proof (for_each_runs body
                  (open_runs_per_summary (open_warmup_sec preset) (closed_repeat preset)))
      as Hcount
  end.
  injection Hrun as <- <-.
  destruct (Hcount) with (2 := Hopen) as [Ht Hlen].
  { intros target c r c'. unfold bind.
    destruct (run_open _ _ _ _ _ _ _ _ _ _ c) as [open_summary u| | |] eqn:Hone;
      try discriminate.
    intros [= _ <-].
    exact (proj1 (run_open_runs _ _ _ _ _ _ _ _ _ _ _ _ _ Hone)). }
  eexists _, open_rows. split; [reflexivity|].
  split.
  { rewrite <- Hfst, map_map. apply map_ext. intros [conc summary]. reflexivity. }
  split.
  { apply Forall_map. apply Forall_forall. intros [conc summary] _. auto. }
  split; [congruence|].
  split.
  { apply Forall2_Forall_r with (1 := Hrows). apply Forall_forall.
    intros target _ r (t0 & t1 & Hbody). unfold bind in Hbody.
    destruct (run_open _ _ _ _ _ _ _ _ _ _ t0) as [open_summary u| | |]; try discriminate.
    injection Hbody as <- _. auto. }
  rewrite Ht, Hmid, Htargets. reflexivity.
Qed.

Lemma preset_rows_and_runs_witness :
  ∃ rows sweep_rows open_rows,
    run_preset no_bracket_check one_request_world "http://127.0.0.1:8000/" "smoke" 5
      tiny_smoke 0%nat = Value rows 4%nat
    ∧ rows = sweep_rows ++ open_rows
    ∧ map concurrency sweep_rows = [1]
    ∧ length open_rows = 3%nat.
Proof.
  assert (Hrun : ∃ rows,
    run_preset no_bracket_check one_request_world "http://127.0.0.1:8000/" "smoke" 5
      tiny_smoke 0%nat = Value rows 4%nat) by (eexists; vm_compute; reflexivity).
  destruct Hrun as [rows Hrun].
  destruct (preset_rows_and_runs _ _ _ _ _ _ _ _ _ Hrun)
    as (sweep_rows & open_rows & Hrows & Hconc & _ & Hopen & _).
  exists rows, sweep_rows, open_rows.
  split; [exact Hrun|]. split; [exact Hrows|]. split; [exact Hconc|exact Hopen].
Defined.

(** X24.  A negative concurrency is refused before any request
    is made: once the URL has been accepted, both [_closed_once] and
    [_open_once] raise the [ValueError] of [asyncio.Semaphore] and leave
    the environment untouched. *)
Theorem negative_concurrency_raises
    (check_bracketed_host : string → bool) (world : nat → run_env)
    (url : string) (target : string * Z * list byte) (concurrency : Z) (calls : nat) :
  build_http_get check_bracketed_host url = Ok target →
  concurrency < 0 →
  (∀ total_requests timeout verbose,
      _closed_once check_bracketed_host world url total_requests concurrency timeout verbose
        calls = Raised (ValueError "Semaphore initial value must be >= 0") calls)
  ∧ (∀ target_rps duration_sec timeout verbose,
      _open_once check_bracketed_host world url target_rps duration_sec concurrency timeout
        verbose calls = Raised (ValueError "Semaphore initial value must be >= 0") calls).
Proof.
  intros Hbuild Hneg. destruct target as [[host port] request_bytes].
  assert (Hsem : Semaphore concurrency = Err (ValueError "Semaphore initial value must be >= 0")).
  { unfold Semaphore. destruct (Z.ltb_spec concurrency 0); [reflexivity|lia]. }
  split; intros; [unfold _closed_once|unfold _open_once];
    unfold bind, lift; rewrite Hbuild; simpl; rewrite Hsem; reflexivity.
Qed.

Lemma negative_concurrency_raises_witness :
  -1 < 0
  ∧ _closed_once no_bracket_check three_requests_world "http://127.0.0.1:8000/" 3 (-1) 5 false
      0%nat = Raised (ValueError "Semaphore initial value must be >= 0") 0%nat.
Proof.
  assert (Hneg : -1 < 0) by lia.
  split; [exact Hneg|].
  exact (proj1 (negative_concurrency_raises no_bracket_check three_requests_world
                  "http://127.0.0.1:8000/" _ (-1) 0%nat eq_refl Hneg) 3 5%Q false).
Defined.
